(** * unstuck: a shallow embedding of the asynchronous runtime

    The development follows the layout of the Python sources:
    - [Core]      : core.py      (Future)
    - [Events]    : events.py    (Schedule, Dispatcher)
    - [Runtime]   : objects next to the module-level dispatcher
    - [Aux]       : aux.py       (Barrier, EventQueue)
    - [PyQueue]   : queue.py     (Queue)
    - [Streams]   : streams.py   (WriteWrapper)
    - [Framing]   : websockets/framing.py
    - [Websocket] : websockets/websocket.py

    Python objects are records, attribute updates are explicit setters,
    exceptions are the [Raise] outcome of a computation (which still
    carries the state reached when the exception left the function),
    and everything the operating system decides (clock readings, epoll
    results, how many bytes a write accepts, random mask keys) is an
    explicit argument.  The statements come after the definitions, one
    section per source file. *)

From Stdlib Require Import ZArith NArith Lia Bool String DecimalString.
From Stdlib Require Import Strings.Byte.
From stdpp Require Import base option list gmap fin_maps.

Local Open Scope Z_scope.

(** ** Python values, exceptions and outcomes *)

(** The values that travel through futures and queues in the modelled
    code paths. *)
Inductive pyval : Type :=
| VNone
| VInt (z : Z)
| VBytes (b : list byte)
| VPair (a b : pyval).

(** Exceptions, by class.  [AttributeError] and [KeyError] carry the
    name that was looked up. *)
Inductive exn : Type :=
| AssertionError
| AttributeError (name : string)
| TypeError
| KeyError
| IndexError
| ValueError
| StructError
| OSError
| PlainException (msg : string)
| IOEventAbort
| StreamClosed
| InterruptedTransfer
| WebSocketProtocolError (msg : string)
| PayloadTooBig
| UnicodeDecodeError
| OverflowError.

(** Outcome of running a method on a state of type [S]. *)
Inductive res (S A : Type) : Type :=
| Ret (a : A) (s : S)
| Raise (e : exn) (s : S).
Arguments Ret {S A} a s.
Arguments Raise {S A} e s.

Definition state_of {S A} (r : res S A) : S :=
  match r with Ret _ s => s | Raise _ s => s end.

Definition raised {S A} (r : res S A) : option exn :=
  match r with Ret _ _ => None | Raise e _ => Some e end.

Definition returned {S A} (r : res S A) : option A :=
  match r with Ret a _ => Some a | Raise _ _ => None end.

(** Identity of an object whose [send]/[throw] is used as a callback
    (a [_Task], a [_GreenTask], ...). *)
Definition cbref := nat.

(** ** core.py: Future *)
Module Core.

(** What the [cb] attribute holds: [None], one callback object
    (Future.setCallback) or a Python list of them (Barrier.setCallback). *)
Inductive cbslot : Type :=
| CbNone
| CbOne (c : cbref)
| CbList (l : list cbref).

(** The class of the object decides which method body runs. *)
Inductive cls : Type := ClsFuture | ClsBarrier.

(** [result] and [errorAccessed] are attributes that __init__ does not
    create: [None] here means "attribute absent". *)
Record Future : Type := mkFuture {
  klass : cls;
  isDone : bool;
  cb : cbslot;
  error : option exn;
  result : option pyval;
  errorAccessed : option bool
}.

(** Future.__init__ *)
Definition init (k : cls) : Future :=
  mkFuture k false CbNone None None None.

Definition set_isDone (b : bool) (f : Future) : Future :=
  mkFuture (klass f) b (cb f) (error f) (result f) (errorAccessed f).
Definition set_cb (c : cbslot) (f : Future) : Future :=
  mkFuture (klass f) (isDone f) c (error f) (result f) (errorAccessed f).
Definition set_error (e : exn) (f : Future) : Future :=
  mkFuture (klass f) (isDone f) (cb f) (Some e) (result f) (errorAccessed f).
Definition set_result (v : pyval) (f : Future) : Future :=
  mkFuture (klass f) (isDone f) (cb f) (error f) (Some v) (errorAccessed f).
Definition set_errorAccessed (b : bool) (f : Future) : Future :=
  mkFuture (klass f) (isDone f) (cb f) (error f) (result f) (Some b).

(** A call that a future hands to the dispatcher or performs itself. *)
Inductive call : Type :=
| Send (c : cbref) (v : pyval)          (* cb.send(v) *)
| Throw (c : cbref) (e : exn)           (* cb.throw(e) *)
| CbError (e : exn).                    (* self.__cbError(e) *)

Inductive effect : Type :=
| SchedHigh (c : call)                  (* dispatcher.scheduleHighPriority *)
| SchedMedium (c : call)                (* dispatcher.scheduleMediumPriority *)
| Direct (c : call).                    (* called on the current stack *)

Definition fres := res Future (list effect).

(** [how] is the way the callback is reached: the three setResult
    variants differ only there. *)
Definition setResultWith (how : call -> effect) (r : pyval) (f : Future) : fres :=
  if isDone f then Raise AssertionError f
  else
    let f := set_isDone true f in
    match cb f with
    | CbNone => Ret [] (set_result r f)
    | CbOne c => Ret [how (Send c r)] f
    | CbList _ => Raise (AttributeError "send") f
    end.

Definition setResult := setResultWith SchedHigh.
Definition setResultLate := setResultWith SchedMedium.
Definition setResultFast := setResultWith Direct.

(** setError and setErrorLate schedule the bound method __cbError. *)
Definition setErrorWith (how : call -> effect) (e : exn) (f : Future) : fres :=
  if isDone f then Raise AssertionError f
  else
    let f := set_isDone true f in
    match cb f with
    | CbNone => Ret [] (set_error e (set_errorAccessed false f))
    | _ => Ret [how (CbError e)] f
    end.

Definition setError := setErrorWith SchedHigh.
Definition setErrorLate := setErrorWith SchedMedium.

Definition setErrorFast (e : exn) (f : Future) : fres :=
  if isDone f then Raise AssertionError f
  else
    let f := set_isDone true f in
    match cb f with
    | CbNone => Ret [] (set_error e (set_errorAccessed false f))
    | CbOne c => Ret [Direct (Throw c e)] (set_errorAccessed true f)
    | CbList _ => Raise (AttributeError "throw") (set_errorAccessed true f)
    end.

(** Future.__cbError *)
Definition cbError (e : exn) (f : Future) : fres :=
  let f := set_errorAccessed true f in
  match cb f with
  | CbOne c => Ret [Direct (Throw c e)] f
  | _ => Raise (AttributeError "throw") f
  end.

(** Future.setCallback *)
Definition Future_setCallback (c : cbref) (f : Future) : fres :=
  Ret [] (set_cb (CbOne c) f).

(** Future.getResult: the result, or the error raised (and marked as
    accessed). *)
Definition Future_getResult (f : Future) : res Future pyval :=
  match error f with
  | Some e => Raise e (set_errorAccessed true f)
  | None =>
      match result f with
      | Some v => Ret v f
      | None => Raise (AttributeError "result") f
      end
  end.

(** Futures are objects: queues and wrappers hold references to them.
    A reference is an index into the store of all futures created so
    far; [call_on] is a method call through a reference. *)
Definition fid := nat.

Definition call_on (i : fid) (m : Future -> fres) (sto : list Future)
  : res (list Future) (list effect) :=
  match sto !! i with
  | None => Raise (AttributeError "dangling reference") sto
  | Some f =>
      match m f with
      | Ret effs f' => Ret effs (<[i := f']> sto)
      | Raise e f' => Raise e (<[i := f']> sto)
      end
  end.

End Core.

(** ** events.py: Schedule and Dispatcher *)
Module Events.

(** The constants of the [select] module on Linux. *)
Definition EPOLLIN : Z := 0x001.
Definition EPOLLOUT : Z := 0x004.
Definition EPOLLERR : Z := 0x008.
Definition EPOLLHUP : Z := 0x010.

Definition errorCheckingMask : Z := Z.lor EPOLLERR EPOLLHUP.

(** A callable is known by its identity; a queue entry is the pair
    [(handle, args)]. *)
Definition handle := nat.
Definition entry : Type := handle * list pyval.

(** Times are floats in the source; only subtraction and comparison are
    used, so they are modelled as exact integers (clock ticks), with
    [Inf] for [float("inf")]. *)
Inductive ftime : Type := Fin (t : Z) | Inf.

Definition ftime_neg (t : ftime) : bool :=
  match t with Fin t => t <? 0 | Inf => false end.

(** The environment: what the n-th call of [time()] returns and what
    the n-th call of [epoll.poll] reports. *)
Record World : Type := mkWorld {
  w_time : nat -> Z;
  w_poll : nat -> list (Z * Z)
}.

(** An insertion-ordered dict keyed by masks (the inner dict of
    [self.handles]). *)
Abbreviation maskdict := (list (Z * handle)).

Definition dict_keys (hl : maskdict) : list Z := hl.*1.

Fixpoint dict_set (mask : Z) (h : handle) (hl : maskdict) : maskdict :=
  match hl with
  | [] => [(mask, h)]
  | (om, oh) :: hl' =>
      if om =? mask then (om, h) :: hl' else (om, oh) :: dict_set mask h hl'
  end.

Fixpoint dict_del (mask : Z) (hl : maskdict) : option maskdict :=
  match hl with
  | [] => None
  | (om, oh) :: hl' =>
      if om =? mask then Some hl'
      else match dict_del mask hl' with
           | Some r => Some ((om, oh) :: r)
           | None => None
           end
  end.

Record Dispatcher : Type := mkDispatcher {
  heap : list (Z * entry);
  handles : gmap Z maskdict;
  handleQueue : list entry;
  lowPriorityHandleQueue : list entry;
  (** the epoll object: interest mask per registered fd *)
  pollingObject : gmap Z Z;
  (** environment bookkeeping: number of [time()] calls made, and the
      timeouts of the [poll] calls made, oldest first *)
  clockReads : nat;
  pollLog : list Z;
  (** the process the dispatcher runs in: what the kernel answers when
      the epoll object is handed a descriptor, [None] for an open
      descriptor that can be polled, else the exception raised
      (OSError for a closed or unpollable one) *)
  kernel : Z -> option exn
}.

(** Dispatcher.__init__, in a process whose descriptors are [kernel]. *)
Definition init_in (kernel : Z -> option exn) : Dispatcher :=
  mkDispatcher [] ∅ [] [] ∅ 0 [] kernel.

(** Dispatcher.__init__ in a process where every descriptor is open and
    can be polled. *)
Definition init : Dispatcher := init_in (fun _ => None).

Definition set_heap v (d : Dispatcher) :=
  mkDispatcher v (handles d) (handleQueue d) (lowPriorityHandleQueue d)
               (pollingObject d) (clockReads d) (pollLog d) (kernel d).
Definition set_handles v (d : Dispatcher) :=
  mkDispatcher (heap d) v (handleQueue d) (lowPriorityHandleQueue d)
               (pollingObject d) (clockReads d) (pollLog d) (kernel d).
Definition set_handleQueue v (d : Dispatcher) :=
  mkDispatcher (heap d) (handles d) v (lowPriorityHandleQueue d)
               (pollingObject d) (clockReads d) (pollLog d) (kernel d).
Definition set_lowPriorityHandleQueue v (d : Dispatcher) :=
  mkDispatcher (heap d) (handles d) (handleQueue d) v
               (pollingObject d) (clockReads d) (pollLog d) (kernel d).
Definition set_pollingObject v (d : Dispatcher) :=
  mkDispatcher (heap d) (handles d) (handleQueue d) (lowPriorityHandleQueue d)
               v (clockReads d) (pollLog d) (kernel d).
Definition set_clockReads v (d : Dispatcher) :=
  mkDispatcher (heap d) (handles d) (handleQueue d) (lowPriorityHandleQueue d)
               (pollingObject d) v (pollLog d) (kernel d).
Definition set_pollLog v (d : Dispatcher) :=
  mkDispatcher (heap d) (handles d) (handleQueue d) (lowPriorityHandleQueue d)
               (pollingObject d) (clockReads d) v (kernel d).

(** *** heapq, to its contract

    The heap is kept as a list sorted by key, so that [heap[0]] is a
    least element: [heappush] inserts after the entries that are not
    larger, [heappop] removes the head.  Among entries with the same
    key this list gives insertion order; heapq promises no order
    there, and nothing below reads the order of equal keys. *)
Fixpoint heappush (x : Z * entry) (h : list (Z * entry)) : list (Z * entry) :=
  match h with
  | [] => [x]
  | y :: h' => if x.1 <? y.1 then x :: y :: h' else y :: heappush x h'
  end.

Definition scheduleHandleByTime (when : Z) (what : handle) (args : list pyval)
    (d : Dispatcher) : Dispatcher :=
  set_heap (heappush (when, (what, args)) (heap d)) d.

Definition readyTime (w : World) (d : Dispatcher) : ftime * Dispatcher :=
  match heap d with
  | [] => (Inf, d)
  | (key, _) :: _ =>
      (Fin (key - w_time w (clockReads d)), set_clockReads (S (clockReads d)) d)
  end.

Definition scheduleLowPriority (h : handle) (args : list pyval) (d : Dispatcher) :=
  set_lowPriorityHandleQueue (lowPriorityHandleQueue d ++ [(h, args)]) d.
Definition scheduleMediumPriority (h : handle) (args : list pyval) (d : Dispatcher) :=
  set_handleQueue (handleQueue d ++ [(h, args)]) d.
Definition scheduleHighPriority (h : handle) (args : list pyval) (d : Dispatcher) :=
  set_handleQueue ((h, args) :: handleQueue d) d.

(** *** epoll: register / modify / unregister on the interest list *)

(** The descriptor argument of an epoll method: a Python int outside
    the range of a C int raises OverflowError, a negative one
    ValueError, and for the others the kernel answers ([k]). *)
Definition fd_error (k : Z -> option exn) (fd : Z) : option exn :=
  if (fd <? - 2 ^ 31) || (2 ^ 31 - 1 <? fd) then Some OverflowError
  else if fd <? 0 then Some ValueError
  else k fd.

Definition epoll_register (k : Z -> option exn) (fd mask : Z) (p : gmap Z Z)
  : exn + gmap Z Z :=
  match fd_error k fd with
  | Some e => inl e
  | None =>
      match p !! fd with
      | Some _ => inl OSError              (* FileExistsError *)
      | None => inr (<[fd := mask]> p)
      end
  end.

Definition epoll_modify (k : Z -> option exn) (fd mask : Z) (p : gmap Z Z)
  : exn + gmap Z Z :=
  match fd_error k fd with
  | Some e => inl e
  | None =>
      match p !! fd with
      | Some _ => inr (<[fd := mask]> p)
      | None => inl OSError                (* FileNotFoundError *)
      end
  end.

Definition epoll_unregister (k : Z -> option exn) (fd : Z) (p : gmap Z Z)
  : exn + gmap Z Z :=
  match fd_error k fd with
  | Some e => inl e
  | None =>
      match p !! fd with
      | Some _ => inr (delete fd p)
      | None => inl OSError                (* FileNotFoundError *)
      end
  end.

(** ["%d,%d was not registered" % (fd, mask)] *)
Definition not_registered (fd mask : Z) : exn :=
  PlainException
    (String.append (NilZero.string_of_int (Z.to_int fd))
       (String.append ","
          (String.append (NilZero.string_of_int (Z.to_int mask))
             " was not registered"))).

(** The loop of registerFileEvent over the masks already registered:
    [None] when it raises "Mask clash", else the combined mask. *)
Fixpoint registerMask_loop (mask registerMask : Z) (oms : list Z) : option Z :=
  match oms with
  | [] => Some registerMask
  | om :: oms' =>
      if negb (Z.land om mask =? 0) then None
      else registerMask_loop mask (Z.lor registerMask om) oms'
  end.

Definition registerFileEvent (fd mask : Z) (h : handle) (d : Dispatcher)
  : res Dispatcher unit :=
  match handles d !! fd with
  | Some handleList =>
      match registerMask_loop mask mask (dict_keys handleList) with
      | None => Raise (PlainException "Mask clash") d
      | Some registerMask =>
          match epoll_modify (kernel d) fd registerMask (pollingObject d) with
          | inl e => Raise e d
          | inr p =>
              Ret tt (set_handles (<[fd := dict_set mask h handleList]> (handles d))
                        (set_pollingObject p d))
          end
      end
  | None =>
      (* except KeyError *)
      let d := set_handles (<[fd := [(mask, h)]]> (handles d)) d in
      match epoll_register (kernel d) fd mask (pollingObject d) with
      | inl e => Raise e d
      | inr p => Ret tt (set_pollingObject p d)
      end
  end.

Definition unregisterFileEvent (fd mask : Z) (d : Dispatcher)
  : res Dispatcher unit :=
  match handles d !! fd with
  | None => Raise (not_registered fd mask) d
  | Some handleList =>
      match dict_del mask handleList with
      | None => Raise (not_registered fd mask) d
      | Some handleList' =>
          (* the dict was changed in place *)
          let d := set_handles (<[fd := handleList']> (handles d)) d in
          if (length handleList' =? 0)%nat then
            match epoll_unregister (kernel d) fd (pollingObject d) with
            | inl e => Raise e d
            | inr p =>
                Ret tt (set_handles (delete fd (handles d)) (set_pollingObject p d))
            end
          else
            let registerMask := fold_left Z.lor (dict_keys handleList') 0 in
            match epoll_modify (kernel d) fd registerMask (pollingObject d) with
            | inl e => Raise e d
            | inr p => Ret tt (set_pollingObject p d)
            end
      end
  end.

(** The inner loop of _scheduleEvents for one active fd. *)
Fixpoint scheduleEvents_fd (activeMask : Z) (hl : maskdict) (q : list entry)
  : list entry :=
  match hl with
  | [] => q
  | (mask, h) :: hl' =>
      let mask := Z.land (Z.lor mask errorCheckingMask) activeMask in
      if negb (mask =? 0) then scheduleEvents_fd activeMask hl' (q ++ [(h, [VInt mask])])
      else scheduleEvents_fd activeMask hl' q
  end.

Fixpoint _scheduleEvents (events : list (Z * Z)) (d : Dispatcher)
  : res Dispatcher unit :=
  match events with
  | [] => Ret tt d
  | (activeFD, activeMask) :: events' =>
      match handles d !! activeFD with
      | None => Raise KeyError d
      | Some handleList =>
          _scheduleEvents events'
            (set_handleQueue (scheduleEvents_fd activeMask handleList (handleQueue d)) d)
      end
  end.

(** [self.pollingObject.poll(timeout)]: the call is logged and answered
    by the environment. *)
Definition poll (w : World) (timeout : Z) (d : Dispatcher)
  : list (Z * Z) * Dispatcher :=
  (w_poll w (length (pollLog d)), set_pollLog (pollLog d ++ [timeout]) d).

(** The loop [while self.readyTime() < 0: self.handleQueue.append(self.popHandle())];
    every iteration pops the heap, on which the recursion is. *)
Fixpoint drainReady (w : World) (h : list (Z * entry)) (q : list entry) (reads : nat)
  : list (Z * entry) * list entry * nat :=
  match h with
  | [] => (h, q, reads)
  | (key, value) :: h' =>
      if key - w_time w reads <? 0
      then drainReady w h' (q ++ [value]) (S reads)
      else (h, q, S reads)
  end.

Definition drain (w : World) (d : Dispatcher) : Dispatcher :=
  let '(h, q, reads) := drainReady w (heap d) (handleQueue d) (clockReads d) in
  set_heap h (set_handleQueue q (set_clockReads reads d)).

Definition _pollEvents (w : World) (timeout : ftime) (d : Dispatcher)
  : res Dispatcher unit :=
  let timeout := match timeout with Inf => -1 | Fin t => t end in
  let '(keys, d) := poll w timeout d in
  match keys with
  | [] => Ret tt (drain w d)
  | _ => _scheduleEvents keys d
  end.

Definition _pollEventsFast (w : World) (d : Dispatcher) : res Dispatcher unit :=
  let '(keys, d) := poll w 0 d in
  match keys with
  | [] => Ret tt d
  | _ => _scheduleEvents keys d
  end.

Definition rbindD {A B} (m : res Dispatcher A) (k : A -> Dispatcher -> res Dispatcher B)
  : res Dispatcher B :=
  match m with
  | Ret a d => k a d
  | Raise e d => Raise e d
  end.

(** runNextHandle: the value returned is the entry whose handle is
    called at the end; what that callback does is the callback's
    business. *)
Definition runNextHandle (w : World) (d : Dispatcher) : res Dispatcher entry :=
  rbindD
    (if (length (handleQueue d) =? 0)%nat then
       let '(timeToNext, d) := readyTime w d in
       if ftime_neg timeToNext then Ret tt (drain w d)
       else if (0 <? length (lowPriorityHandleQueue d))%nat then
         rbindD (_pollEventsFast w d) (fun _ d =>
           match lowPriorityHandleQueue d with
           | [] => Raise IndexError d
           | handle :: low' =>
               Ret tt (set_handleQueue (handleQueue d ++ [handle])
                         (set_lowPriorityHandleQueue low' d))
           end)
       else _pollEvents w timeToNext d
     else Ret tt d)
    (fun _ d =>
       match handleQueue d with
       | [] => Raise IndexError d
       | e :: q' => Ret e (set_handleQueue q' d)
       end).

End Events.

(** ** Objects that live next to the global dispatcher

    An object of type [T] (an event queue, a write wrapper) runs in an
    environment made of the store of futures, the module-level
    [dispatcher] and the calls futures have handed to it.  A method is
    a function from environments to outcomes. *)
Module Runtime.
Import Core.

Record Env (T : Type) : Type := mkEnv {
  store : list Future;
  dispatcher : Events.Dispatcher;
  self : T;
  scheduled : list effect
}.
Arguments mkEnv {T} store dispatcher self scheduled.
Arguments store {T} e.
Arguments dispatcher {T} e.
Arguments self {T} e.
Arguments scheduled {T} e.

Definition om (T A : Type) : Type := Env T -> res (Env T) A.

#[global] Instance om_ret {T} : MRet (om T) := fun A a st => Ret a st.
#[global] Instance om_bind {T} : MBind (om T) := fun A B k m st =>
  match m st with
  | Ret a st' => k a st'
  | Raise e st' => Raise e st'
  end.

Definition raise {T A} (e : exn) : om T A := fun st => Raise e st.
Definition get_self {T} : om T T := fun st => Ret (self st) st.
Definition set_self {T} (x : T) : om T unit :=
  fun st => Ret tt (mkEnv (store st) (dispatcher st) x (scheduled st)).

(** [Future()] and [Barrier()] *)
Definition new {T} (k : cls) : om T fid :=
  fun st => Ret (length (store st))
                (mkEnv (store st ++ [init k]) (dispatcher st) (self st) (scheduled st)).

(** A method call on the future behind a reference. *)
Definition onFuture {T} (i : fid) (m : Future -> fres) : om T unit :=
  fun st =>
    match call_on i m (store st) with
    | Ret effs sto => Ret tt (mkEnv sto (dispatcher st) (self st) (scheduled st ++ effs))
    | Raise e sto => Raise e (mkEnv sto (dispatcher st) (self st) (scheduled st))
    end.

(** A method call on the dispatcher. *)
Definition onDispatcher {T} (m : Events.Dispatcher -> res Events.Dispatcher unit)
  : om T unit :=
  fun st =>
    match m (dispatcher st) with
    | Ret _ d => Ret tt (mkEnv (store st) d (self st) (scheduled st))
    | Raise e d => Raise e (mkEnv (store st) d (self st) (scheduled st))
    end.

(** [try: body except Exception as e: handler e] *)
Definition try_except {T A} (body : om T A) (handler : exn -> om T A) : om T A :=
  fun st =>
    match body st with
    | Ret a st' => Ret a st'
    | Raise e st' => handler e st'
    end.

End Runtime.

(** ** aux.py: Barrier and EventQueue *)
Module Aux.
Import Core Runtime.

(** Barrier.getResult *)
Definition Barrier_getResult (f : Future) : res Future pyval := Ret VNone f.

(** The loop [for cb in self.cb: ...] of release and releaseFast. *)
Definition for_cb (how : call -> effect) (s : cbslot) (f : Future) : fres :=
  match s with
  | CbNone => Ret [] f
  | CbList l => Ret (map (fun c => how (Send c VNone)) l) f
  | CbOne _ => Raise TypeError f
  end.

Definition releaseWith (how : call -> effect) (f : Future) : fres :=
  if isDone f then Raise AssertionError f
  else
    let f := set_isDone true f in
    for_cb how (cb f) f.

Definition release := releaseWith SchedHigh.
Definition releaseFast := releaseWith Direct.

(** Barrier.setCallback *)
Definition Barrier_setCallback (c : cbref) (f : Future) : fres :=
  match cb f with
  | CbNone => Ret [] (set_cb (CbList [c]) f)
  | CbList l => Ret [] (set_cb (CbList (l ++ [c])) f)
  | CbOne _ => Raise (AttributeError "append") f
  end.

(** The public operations of a deferred cell, and their dispatch on the
    class of the receiver ([Barrier] inherits the Future setters and
    overrides getResult and setCallback). *)
Inductive op : Type :=
| SetResult (v : pyval) | SetResultLate (v : pyval) | SetResultFast (v : pyval)
| SetError (e : exn) | SetErrorLate (e : exn) | SetErrorFast (e : exn)
| Release | ReleaseFast
| SetCallback (c : cbref)
| GetResult
| RunCbError (e : exn).

Definition forget {A} (r : res Future A) : fres :=
  match r with Ret _ s => Ret [] s | Raise e s => Raise e s end.

Definition step (o : op) (f : Future) : fres :=
  match o with
  | SetResult v => setResult v f
  | SetResultLate v => setResultLate v f
  | SetResultFast v => setResultFast v f
  | SetError e => setError e f
  | SetErrorLate e => setErrorLate e f
  | SetErrorFast e => setErrorFast e f
  | Release =>
      match klass f with
      | ClsBarrier => release f
      | ClsFuture => Raise (AttributeError "release") f
      end
  | ReleaseFast =>
      match klass f with
      | ClsBarrier => releaseFast f
      | ClsFuture => Raise (AttributeError "releaseFast") f
      end
  | SetCallback c =>
      match klass f with
      | ClsBarrier => Barrier_setCallback c f
      | ClsFuture => Future_setCallback c f
      end
  | GetResult =>
      match klass f with
      | ClsBarrier => forget (Barrier_getResult f)
      | ClsFuture => forget (Future_getResult f)
      end
  | RunCbError e => cbError e f
  end.

(** The operations that resolve a cell. *)
Definition resolver (o : op) : bool :=
  match o with
  | SetResult _ | SetResultLate _ | SetResultFast _
  | SetError _ | SetErrorLate _ | SetErrorFast _
  | Release | ReleaseFast => true
  | _ => false
  end.

(** Whether the class of [f] has the method at all. *)
Definition has_method (o : op) (f : Future) : bool :=
  match o, klass f with
  | (Release | ReleaseFast), ClsFuture => false
  | _, _ => true
  end.

(** A caller that keeps going after an exception: the cell after a whole
    sequence of operations. *)
Fixpoint run (os : list op) (f : Future) : Future :=
  match os with
  | [] => f
  | o :: os => run os (state_of (step o f))
  end.

(** Number of pending-to-done transitions along a run. *)
Fixpoint resolutions (os : list op) (f : Future) : nat :=
  match os with
  | [] => 0
  | o :: os =>
      let f' := state_of (step o f) in
      ((if negb (isDone f) && isDone f' then 1 else 0) + resolutions os f')%nat
  end.

(** *** EventQueue *)

(** [collections.deque]: the one-argument methods that add an element.
    Looking up any other name on a deque raises AttributeError. *)
Definition deque_adders : list (string * (fid -> list fid -> list fid)) :=
  [ ("append"%string, fun x l => l ++ [x]);
    ("appendleft"%string, fun x l => x :: l) ].

Fixpoint method_lookup {M} (name : string) (ms : list (string * M)) : option M :=
  match ms with
  | [] => None
  | (n, m) :: ms' => if String.eqb n name then Some m else method_lookup name ms'
  end.

Record EventQueue : Type := mkEventQueue {
  queue : list fid;
  closeBarrier : fid;
  fileNumber : Z;
  mask : Z;
  closing : bool;
  (** identity of the bound method [self.__handle] *)
  handle_id : Events.handle
}.

Definition set_queue v (q : EventQueue) :=
  mkEventQueue v (closeBarrier q) (fileNumber q) (mask q) (closing q) (handle_id q).
Definition set_closing v (q : EventQueue) :=
  mkEventQueue (queue q) (closeBarrier q) (fileNumber q) (mask q) v (handle_id q).

(** EventQueue.__init__, on a store and dispatcher that already exist. *)
Definition EventQueue_init (sto : list Future) (d : Events.Dispatcher)
    (fileNumber mask : Z) (h : Events.handle) : Env EventQueue :=
  mkEnv (sto ++ [init ClsBarrier]) d
            (mkEventQueue [] (length sto) fileNumber mask false h) [].

(** EventQueue.get *)
Definition EventQueue_get : om EventQueue fid :=
  fut ← new ClsFuture;
  q ← get_self;
  (if closing q then
     onFuture fut (setError (PlainException "EventQueue is closed"))
   else
     set_self (set_queue (queue q ++ [fut]) q);;
     q ← get_self;
     if (length (queue q) =? 1)%nat then
       onDispatcher (Events.registerFileEvent (fileNumber q) (mask q) (handle_id q))
     else mret tt);;
  mret fut.

(** EventQueue.__handle.  [inner] is what the call of the inner handle
    does this time: return a value or raise.  The result tells whether
    the function left through the [return] of the IOEventAbort
    branch. *)
Definition EventQueue_handle (inner : exn + pyval) : om EventQueue unit :=
  q ← get_self;
  match queue q with
  | [] => raise IndexError
  | fut :: rest =>
      set_self (set_queue rest q);;
      returned_early ←
        try_except
          (getThing ← (match inner with
                       | inl e => raise e
                       | inr v => mret v
                       end);
           onFuture fut (setResult getThing);;
           mret false)
          (fun e =>
             match e with
             | IOEventAbort =>
                 match method_lookup "pushleft" deque_adders with
                 | None => raise (AttributeError "pushleft")
                 | Some pushleft =>
                     q ← get_self;
                     set_self (set_queue (pushleft fut (queue q)) q);;
                     mret true
                 end
             | _ => onFuture fut (setError e);; mret false
             end);
      if returned_early : bool then mret tt
      else
        q ← get_self;
        if (length (queue q) =? 0)%nat then
          (if closing q then onFuture (closeBarrier q) release else mret tt);;
          onDispatcher (Events.unregisterFileEvent (fileNumber q) (mask q))
        else mret tt
  end.

End Aux.

(** ** queue.py: Queue *)
Module PyQueue.
Import Core.

(** [collections.deque(maxlen=...)]: [None] is an unbounded deque. *)
Definition deque_append (maxlen : option Z) (x : pyval) (l : list pyval)
  : list pyval :=
  match maxlen with
  | None => l ++ [x]
  | Some m =>
      if m =? 0 then l
      else if Z.of_nat (length l) <? m then l ++ [x]
      else drop 1 l ++ [x]
  end.

Record Queue : Type := mkQueue {
  values : list pyval;
  maxlen : option Z;
  getwaiters : list fid;
  putwaiters : list (fid * pyval);
  q_length : Z                      (* self.length *)
}.

(** Queue.__init__; [deque(maxlen=length)] raises ValueError on a
    negative bound. *)
Definition Queue_init (length : Z) : exn + Queue :=
  if length =? -1 then inr (mkQueue [] None [] [] length)
  else if length <? 0 then inl ValueError
  else inr (mkQueue [] (Some length) [] [] length).

Record QState : Type := mkQState {
  store : list Future;
  queue : Queue;
  scheduled : list effect           (* calls handed to the dispatcher *)
}.

(** The module-level [doneFuture] of aux.py is the first future ever
    created. *)
Definition doneFuture : fid := 0%nat.

Definition start (q : Queue) : QState :=
  mkQState [state_of (setResult VNone (init ClsFuture))] q [].

Definition qm (A : Type) : Type := QState -> res QState A.

#[global] Instance qm_ret : MRet qm := fun A a st => Ret a st.
#[global] Instance qm_bind : MBind qm := fun A B k m st =>
  match m st with
  | Ret a st' => k a st'
  | Raise e st' => Raise e st'
  end.

Definition qraise {A} (e : exn) : qm A := fun st => Raise e st.
Definition getq : qm Queue := fun st => Ret (queue st) st.
Definition setq (q : Queue) : qm unit :=
  fun st => Ret tt (mkQState (store st) q (scheduled st)).

Definition set_values v (q : Queue) :=
  mkQueue v (maxlen q) (getwaiters q) (putwaiters q) (q_length q).
Definition set_getwaiters v (q : Queue) :=
  mkQueue (values q) (maxlen q) v (putwaiters q) (q_length q).
Definition set_putwaiters v (q : Queue) :=
  mkQueue (values q) (maxlen q) (getwaiters q) v (q_length q).

(** [Future()] *)
Definition newFuture : qm fid :=
  fun st => Ret (length (store st))
                (mkQState (store st ++ [init ClsFuture]) (queue st) (scheduled st)).

(** A method call on the future behind a reference. *)
Definition onFuture (i : fid) (m : Future -> fres) : qm unit :=
  fun st =>
    match call_on i m (store st) with
    | Ret effs sto => Ret tt (mkQState sto (queue st) (scheduled st ++ effs))
    | Raise e sto => Raise e (mkQState sto (queue st) (scheduled st))
    end.

(** Queue.put *)
Definition put (value : pyval) : qm fid :=
  q ← getq;
  match getwaiters q with
  | g :: gs =>
      setq (set_getwaiters gs q);;
      onFuture g (setResult value);;
      mret doneFuture
  | [] =>
      if Z.of_nat (length (values q)) <? q_length q then
        setq (set_values (deque_append (maxlen q) value (values q)) q);;
        mret doneFuture
      else
        getBarrier ← newFuture;
        setq (set_putwaiters (putwaiters q ++ [(getBarrier, value)]) q);;
        mret getBarrier
  end.

(** Queue.get.  In the branch that serves a waiting producer the
    source binds [myValue] and then resolves [fut] with [value], the
    variable bound by unpacking the producer's entry. *)
Definition get : qm fid :=
  fut ← newFuture;
  q ← getq;
  match putwaiters q with
  | (getBarrier, value) :: ps =>
      setq (set_putwaiters ps q);;
      myValue ← (if 0 <? q_length q then
                   q ← getq;
                   match values q with
                   | [] => qraise IndexError
                   | myValue :: vs =>
                       setq (set_values vs q);;
                       q ← getq;
                       setq (set_values (deque_append (maxlen q) value (values q)) q);;
                       mret myValue
                   end
                 else mret value);
      onFuture getBarrier (setResult VNone);;
      onFuture fut (setResult value);;
      mret fut
  | [] =>
      match values q with
      | value :: vs =>
          setq (set_values vs q);;
          onFuture fut (setResult value);;
          mret fut
      | [] =>
          setq (set_getwaiters (getwaiters q ++ [fut]) q);;
          mret fut
      end
  end.

(** Queue.sumSize *)
Definition sumSize (q : Queue) : Z :=
  Z.of_nat (length (values q)) + Z.of_nat (length (putwaiters q))
  - Z.of_nat (length (getwaiters q)).

End PyQueue.
(** ** streams.py: WriteWrapper *)
Module Streams.
Import Core Runtime.

(** A write waiter: [(fut, writeBytes, totalLength)]. *)
Definition waiter : Type := fid * list byte * Z.

Record WriteWrapper : Type := mkWriteWrapper {
  writeWaiters : list waiter;
  writeWaitingSize : Z;
  writeClosing : option fid;
  (** [self.fileObject.fileno()] and the identity of the bound method
      [self.__handleWriteFrom] *)
  fileno : Z;
  handle_id : Events.handle
}.

Definition set_writeWaiters v (w : WriteWrapper) :=
  mkWriteWrapper v (writeWaitingSize w) (writeClosing w) (fileno w) (handle_id w).
Definition set_writeWaitingSize v (w : WriteWrapper) :=
  mkWriteWrapper (writeWaiters w) v (writeClosing w) (fileno w) (handle_id w).
Definition set_writeClosing v (w : WriteWrapper) :=
  mkWriteWrapper (writeWaiters w) (writeWaitingSize w) v (fileno w) (handle_id w).

(** What the file object does in one readiness callback: the outcome of
    the k-th [write] call (given the bytes offered) and of [flush]. *)
Record FileObject : Type := mkFileObject {
  os_write : nat -> list byte -> exn + Z;
  os_flush : option exn
}.

(** WriteWrapper.__init__ *)
Definition WriteWrapper_init (fileno : Z) (h : Events.handle) : WriteWrapper :=
  mkWriteWrapper [] 0 None fileno h.

Definition registerWriter : om WriteWrapper unit :=
  w ← get_self;
  onDispatcher (Events.registerFileEvent (fileno w) Events.EPOLLOUT (handle_id w)).

Definition unregisterWriter : om WriteWrapper unit :=
  w ← get_self;
  onDispatcher (Events.unregisterFileEvent (fileno w) Events.EPOLLOUT).

(** WriteWrapper.write *)
Definition write (buf : list byte) : om WriteWrapper fid :=
  fut ← new ClsFuture;
  let len := Z.of_nat (length buf) in
  w ← get_self;
  match writeClosing w with
  | Some _ => onFuture fut (setError InterruptedTransfer);; mret fut
  | None =>
      if len =? 0 then onFuture fut (setResult (VInt 0));; mret fut
      else
        (if (writeWaitingSize w =? 0) && (0 <? len) then registerWriter else mret tt);;
        w ← get_self;
        set_self (set_writeWaitingSize (writeWaitingSize w + len) w);;
        w ← get_self;
        set_self (set_writeWaiters (writeWaiters w ++ [(fut, buf, len)]) w);;
        mret fut
  end.

(** The drain loop [while self.writeWaitingSize > 0: ...].  [doneIndex]
    is the local of the same name and [k] counts the write calls.  The
    value is the final [doneIndex]; an exception carries the
    [doneIndex] reached, which the handler needs.  Every iteration that
    does not leave the loop increments [doneIndex], and indexing
    raises once [doneIndex] reaches the length of the deque: [fuel] is
    one more than that length, and where it runs out the index is past
    the end. *)
Fixpoint drainLoop (fo : FileObject) (fuel : nat) (doneIndex k : nat)
    (st : Env WriteWrapper) : nat * res (Env WriteWrapper) unit :=
  let w := self st in
  if writeWaitingSize w <=? 0 then (doneIndex, Ret tt st)
  else
    match fuel with
    | O => (doneIndex, Raise IndexError st)
    | S fuel' =>
        match writeWaiters w !! doneIndex with
        | None => (doneIndex, Raise IndexError st)
        | Some (fut, writeBytes, totalLength) =>
            match os_write fo k writeBytes with
            | inl e => (doneIndex, Raise e st)
            | inr dataSize =>
                let w := set_writeWaitingSize (writeWaitingSize w - dataSize) w in
                if dataSize <? Z.of_nat (length writeBytes) then
                  let w := set_writeWaiters
                             (<[doneIndex := (fut, drop (Z.to_nat dataSize) writeBytes,
                                              totalLength)]> (writeWaiters w)) w in
                  (doneIndex, Ret tt (mkEnv (store st) (dispatcher st) w (scheduled st)))
                else
                  drainLoop fo fuel' (S doneIndex) (S k)
                    (mkEnv (store st) (dispatcher st) w (scheduled st))
            end
        end
    end.

(** [while doneIndex > 0: fut, _, length = popleft(); fut.setResult(length);
    doneIndex -= 1], with the [doneIndex] at which it stopped. *)
Fixpoint resolveDone (doneIndex : nat) (st : Env WriteWrapper)
  : nat * res (Env WriteWrapper) unit :=
  match doneIndex with
  | O => (doneIndex, Ret tt st)
  | S n =>
      match writeWaiters (self st) with
      | [] => (doneIndex, Raise IndexError st)
      | (fut, _, len) :: rest =>
          match (set_self (set_writeWaiters rest (self st));;
                 onFuture fut (setResult (VInt len))) st with
          | Raise e st' => (doneIndex, Raise e st')
          | Ret _ st' => resolveDone n st'
          end
      end
  end.

(** [while doneIndex >= 0: popleft()[0].setError(e)]: [n] is
    [doneIndex + 1], the number of iterations. *)
Fixpoint failDone (e : exn) (n : nat) : om WriteWrapper unit :=
  match n with
  | O => mret tt
  | S n' =>
      w ← get_self;
      match writeWaiters w with
      | [] => raise IndexError
      | (fut, _, _) :: rest =>
          set_self (set_writeWaiters rest w);;
          onFuture fut (setError e);;
          failDone e n'
      end
  end.

(** The [try] block of __handleWriteFrom, with the [doneIndex] it
    reached. *)
Definition handleWriteFrom_try (fo : FileObject) (mask : Z)
    (st : Env WriteWrapper) : nat * res (Env WriteWrapper) unit :=
  if negb (Z.land mask Events.errorCheckingMask =? 0) then
    if negb (Z.land mask Events.EPOLLERR =? 0)
    then (0%nat, Raise (PlainException "Error on file object") st)
    else (0%nat, Raise StreamClosed st)
  else
    match drainLoop fo (S (length (writeWaiters (self st)))) 0 0 st with
    | (doneIndex, Raise e st') => (doneIndex, Raise e st')
    | (doneIndex, Ret _ st') =>
        match os_flush fo with
        | Some e => (doneIndex, Raise e st')
        | None => resolveDone doneIndex st'
        end
    end.

(** WriteWrapper.__handleWriteFrom *)
Definition handleWriteFrom (fo : FileObject) (mask : Z) : om WriteWrapper unit :=
  w ← get_self;
  let oldWriteWaitingSize := writeWaitingSize w in
  (fun st =>
     match handleWriteFrom_try fo mask st with
     | (_, Ret _ st') => Ret tt st'
     | (doneIndex, Raise e st') =>
         (* except Exception as e *)
         (w ← get_self;
          match writeWaiters w with
          | [] => mret tt
          | (_, data, _) :: _ =>
              set_self (set_writeWaitingSize
                          (writeWaitingSize w - Z.of_nat (length data)) w);;
              failDone e (S doneIndex)
          end) st'
     end);;
  w ← get_self;
  if (writeWaitingSize w =? 0) && (0 <? oldWriteWaitingSize) then
    unregisterWriter;;
    w ← get_self;
    match writeClosing w with
    | Some b => onFuture b Aux.releaseFast
    | None => mret tt
    end
  else mret tt.

End Streams.

(** ** websockets/framing.py *)
Module Framing.

(** *** Bytes and struct.pack / struct.unpack *)

#[global] Instance byte_eq_decision : EqDecision byte := Byte.byte_eq_dec.

Definition byte_to_Z (b : byte) : Z := Z.of_N (Byte.to_N b).

(** The byte with the given value; only used on values already checked
    to lie in [0, 256). *)
Definition Z_to_byte (z : Z) : byte :=
  default x00 (Byte.of_N (Z.to_N z)).

(** [b ^ m] on two elements of a bytes object. *)
Definition byte_xor (b m : byte) : byte :=
  Z_to_byte (Z.lxor (byte_to_Z b) (byte_to_Z m)).

(** The [k] big-endian bytes of [z]. *)
Fixpoint be_bytes (k : nat) (z : Z) : list byte :=
  match k with
  | O => []
  | S k' => be_bytes k' (z / 256) ++ [Z_to_byte (z mod 256)]
  end.

(** struct.pack of one unsigned big-endian field of [k] bytes
    ('!B', '!H', '!I', '!Q' for k = 1, 2, 4, 8): struct.error when the
    value is out of range. *)
Definition pack_be (k : nat) (z : Z) : option (list byte) :=
  if (0 <=? z) && (z <? 256 ^ Z.of_nat k) then Some (be_bytes k z) else None.

(** struct.unpack of one unsigned big-endian field. *)
Definition unpack_be (l : list byte) : Z :=
  fold_left (fun acc b => acc * 256 + byte_to_Z b) l 0.

Definition OP_CONT : Z := 0.
Definition OP_TEXT : Z := 1.
Definition OP_BINARY : Z := 2.
Definition OP_CLOSE : Z := 8.
Definition OP_PING : Z := 9.
Definition OP_PONG : Z := 10.

Definition WSHEAD_FIN_BIT : Z := 0x8000.
Definition WSHEAD_RES_BITS : Z := 0x7000.
Definition WSHEAD_OP_BITS : Z := 0x0f00.
Definition WSHEAD_MASK_BIT : Z := 0x0080.
Definition WSHEAD_LEN_BITS : Z := 0x007f.

(** Python truthiness of an int. *)
Definition truthy (z : Z) : bool := negb (z =? 0).

(** *** applyMaskSlow

    [bytes(b ^ maskBits[i & 3] for i, b in enumerate(data))]; the index
    [i] of enumerate is carried along, and [maskBits[...]] raises
    IndexError (here [None]) when the key is too short.  This is the
    [applyMask] the module binds when numpy is not importable. *)
Fixpoint applyMask_from (i : Z) (maskBits data : list byte) : option (list byte) :=
  match data with
  | [] => Some []
  | b :: data' =>
      match maskBits !! Z.to_nat (Z.land i 3) with
      | None => None
      | Some m =>
          match applyMask_from (i + 1) maskBits data' with
          | None => None
          | Some out => Some (byte_xor b m :: out)
          end
      end
  end.

Definition applyMaskSlow (maskBits data : list byte) : option (list byte) :=
  applyMask_from 0 maskBits data.

Definition applyMask := applyMaskSlow.

(** *** The socket as seen by the frame reader

    [socket.recv(n)] resolves with exactly [n] bytes of the stream; when
    the stream does not hold that many yet the coroutine stays
    suspended ([Wait]). *)
Inductive pres (A : Type) : Type :=
| POk (a : A) (rest : list byte)
| PRaise (e : exn) (rest : list byte)
| PWait.
Arguments POk {A} a rest.
Arguments PRaise {A} e rest.
Arguments PWait {A}.

Definition reader (A : Type) : Type := list byte -> pres A.

Definition rret {A} (a : A) : reader A := fun s => POk a s.
Definition rraise {A} (e : exn) : reader A := fun s => PRaise e s.
Definition rbind {A B} (m : reader A) (k : A -> reader B) : reader B :=
  fun s => match m s with
           | POk a s' => k a s'
           | PRaise e s' => PRaise e s'
           | PWait => PWait
           end.

#[global] Instance reader_ret : MRet reader := @rret.
#[global] Instance reader_bind : MBind reader := fun A B k m => rbind m k.

Definition recv (n : Z) : reader (list byte) :=
  fun s =>
    if (Z.of_nat (length s) <? n) then PWait
    else POk (take (Z.to_nat n) s) (drop (Z.to_nat n) s).

(** [maxSize] is a float in the source ([inf] by default): [None] is
    [inf]. *)
Definition exceeds (length : Z) (maxSize : option Z) : bool :=
  match maxSize with
  | None => false
  | Some m => m <? length
  end.

Definition frame : Type := Z * list byte * bool.

Definition readFragment (mask : bool) (maxSize : option Z) : reader frame :=
  data ← recv 2;
  let head := unpack_be data in
  let finalFragment := truthy (Z.land head WSHEAD_FIN_BIT) in
  (if truthy (Z.land head WSHEAD_RES_BITS)
   then rraise (WebSocketProtocolError "Reserved bits must be 0")
   else rret tt);;
  let opcode := Z.shiftr (Z.land head WSHEAD_OP_BITS) 8 in
  (if negb (eqb (truthy (Z.land head WSHEAD_MASK_BIT)) mask)
   then rraise (WebSocketProtocolError "Incorrect masking")
   else rret tt);;
  len ← (let len := Z.land head WSHEAD_LEN_BITS in
             if len =? 126 then data ← recv 2; rret (unpack_be data)
             else if len =? 127 then data ← recv 8; rret (unpack_be data)
             else rret len);
  (if exceeds len maxSize then rraise PayloadTooBig else rret tt);;
  maskBits ← (if mask then recv 4 else rret []);
  data ← recv len;
  data ← (if mask
           then match applyMask maskBits data with
                | Some d => rret d
                | None => rraise IndexError
                end
           else rret data);
  if (opcode =? OP_CLOSE) || (opcode =? OP_PING) || (opcode =? OP_PONG) then
    if 125 <? Z.of_nat (length data)
    then rraise (WebSocketProtocolError "Control frame too long")
    else if negb finalFragment
    then rraise (WebSocketProtocolError "Fragmented control frame")
    else rret (opcode, data, finalFragment)
  else if (opcode =? OP_CONT) || (opcode =? OP_TEXT) || (opcode =? OP_BINARY) then
    rret (opcode, data, finalFragment)
  else rraise (WebSocketProtocolError "Invalid opcode").

(** The header bytes of writeFragment, before the mask key. *)
Definition frame_header (mask : bool) (opcode : Z) (length : Z) (final : bool)
  : option (list byte) :=
  let head1 := if final then 0x80 else 0 in
  let head1 := Z.lor head1 opcode in
  let head2 := if mask then 0x80 else 0 in
  if length <? 0x7e then
    b1 ← pack_be 1 head1; b2 ← pack_be 1 (Z.lor head2 length); Some (b1 ++ b2)
  else if length <? 0x10000 then
    b1 ← pack_be 1 head1; b2 ← pack_be 1 (Z.lor head2 126);
    l ← pack_be 2 length; Some (b1 ++ b2 ++ l)
  else
    b1 ← pack_be 1 head1; b2 ← pack_be 1 (Z.lor head2 127);
    l ← pack_be 8 length; Some (b1 ++ b2 ++ l).

(** writeFragment: the bytes handed to [socket.send], or the exception.
    [randbits] is the value [random.getrandbits(32)] returns in this
    call (drawn only when [mask] holds). *)
Definition writeFragment (mask : bool) (randbits : Z) (opcode : Z)
    (data : list byte) (final : bool) : exn + list byte :=
  let length := Z.of_nat (length data) in
  match frame_header mask opcode length final with
  | None => inl StructError
  | Some header =>
      if mask then
        match pack_be 4 randbits with
        | None => inl StructError
        | Some maskBits =>
            match applyMask maskBits data with
            | None => inl IndexError
            | Some data' => inr ((header ++ maskBits) ++ data')
            end
        end
      else inr (header ++ data)
  end.

(** *** parseCloseData *)

Definition CLOSE_CODES : list Z :=
  [1000; 1001; 1002; 1003; 1007; 1008; 1009; 1010; 1011].

(** Python strings are carried as their UTF-8 encoding; decoding a
    bytes object succeeds exactly on well-formed UTF-8 (RFC 3629,
    section 4), and then yields that same byte sequence. *)
Definition between (lo hi : Z) (b : byte) : bool :=
  (lo <=? byte_to_Z b) && (byte_to_Z b <=? hi).

Fixpoint utf8_valid_from (fuel : nat) (l : list byte) : bool :=
  match fuel with
  | O => match l with [] => true | _ => false end
  | S fuel' =>
      match l with
      | [] => true
      | b0 :: l1 =>
          if between 0x00 0x7f b0 then utf8_valid_from fuel' l1
          else match l1 with
          | [] => false
          | b1 :: l2 =>
              if between 0xc2 0xdf b0 then
                between 0x80 0xbf b1 && utf8_valid_from fuel' l2
              else match l2 with
              | [] => false
              | b2 :: l3 =>
                  if between 0xe0 0xef b0 then
                    (if between 0xe0 0xe0 b0 then between 0xa0 0xbf b1
                     else if between 0xed 0xed b0 then between 0x80 0x9f b1
                     else between 0x80 0xbf b1)
                    && between 0x80 0xbf b2 && utf8_valid_from fuel' l3
                  else match l3 with
                  | [] => false
                  | b3 :: l4 =>
                      between 0xf0 0xf4 b0
                      && (if between 0xf0 0xf0 b0 then between 0x90 0xbf b1
                          else if between 0xf4 0xf4 b0 then between 0x80 0x8f b1
                          else between 0x80 0xbf b1)
                      && between 0x80 0xbf b2 && between 0x80 0xbf b3
                      && utf8_valid_from fuel' l4
                  end
              end
          end
      end
  end.

(** Every step consumes at least one byte, so the length is enough
    fuel. *)
Definition utf8_valid (l : list byte) : bool := utf8_valid_from (length l) l.

(** [bytes.decode('utf-8')] *)
Definition decode_utf8 (l : list byte) : option (list byte) :=
  if utf8_valid l then Some l else None.

Definition parseCloseData (data : list byte) : exn + (Z * list byte) :=
  let len := length data in
  if (len =? 0)%nat then inr (1005, [])
  else if (len =? 1)%nat then inl (WebSocketProtocolError "Close frame too short")
  else
    let code := unpack_be (take 2 data) in
    if negb (bool_decide (code ∈ CLOSE_CODES) || ((3000 <=? code) && (code <? 5000)))
    then inl (WebSocketProtocolError "Invalid status code")
    else match decode_utf8 (drop 2 data) with
         | Some reason => inr (code, reason)
         | None => inl UnicodeDecodeError
         end.

End Framing.


(** ** websockets/websocket.py *)
Module Websocket.
Import Framing.

Definition BUILD_NOTHING : Z := 0.
Definition BUILD_TEXT : Z := 1.
Definition BUILD_BINARY : Z := 2.

Definition RECV_PING : Z := 0.
Definition RECV_PONG : Z := 1.
Definition RECV_CLOSE : Z := 2.
Definition RECV_START_TEXT : Z := 3.
Definition RECV_START_BINARY : Z := 4.
Definition RECV_CONTINUE : Z := 5.
Definition RECV_FINAL_FRAGMENT : Z := 6.
Definition RECV_SINGLE_TEXT : Z := 7.
Definition RECV_SINGLE_BINARY : Z := 8.

Definition STATE_OPEN : Z := 0.
Definition STATE_CLOSING : Z := 1.
Definition STATE_CLOSED : Z := 2.
Definition STATE_ERROR : Z := 3.

Definition CLOSE_BY_ERROR : Z := 0.
Definition CLOSE_BY_LOCAL : Z := 1.
Definition CLOSE_BY_REMOTE : Z := 2.
Definition CLOSE_BY_LOCAL_TIMEOUT : Z := 3.

(** A close reason [(code, text)]. *)
Definition reason : Type := Z * list byte.

(** The engine together with the socket it wraps: [inbound] is what
    the peer has sent and recv has not consumed yet, [outbound] the
    argument of every [socket.send] so far, oldest first; [randCalls]
    counts the draws of [random.getrandbits]. *)
Record Websocket : Type := mkWebsocket {
  closingData : Z * option reason * option reason;
  pings : list (list byte * Core.fid);
  receiveMask : bool;
  sendMask : bool;
  maxSize : Z;
  state : Z;
  inbound : list byte;
  outbound : list (list byte);
  socketClosed : bool;
  randCalls : nat
}.

Definition set_closingData v (ws : Websocket) :=
  mkWebsocket v (pings ws) (receiveMask ws) (sendMask ws) (maxSize ws) (state ws)
              (inbound ws) (outbound ws) (socketClosed ws) (randCalls ws).
Definition set_state v (ws : Websocket) :=
  mkWebsocket (closingData ws) (pings ws) (receiveMask ws) (sendMask ws) (maxSize ws) v
              (inbound ws) (outbound ws) (socketClosed ws) (randCalls ws).
Definition set_inbound v (ws : Websocket) :=
  mkWebsocket (closingData ws) (pings ws) (receiveMask ws) (sendMask ws) (maxSize ws)
              (state ws) v (outbound ws) (socketClosed ws) (randCalls ws).
Definition set_outbound v (ws : Websocket) :=
  mkWebsocket (closingData ws) (pings ws) (receiveMask ws) (sendMask ws) (maxSize ws)
              (state ws) (inbound ws) v (socketClosed ws) (randCalls ws).
Definition set_socketClosed v (ws : Websocket) :=
  mkWebsocket (closingData ws) (pings ws) (receiveMask ws) (sendMask ws) (maxSize ws)
              (state ws) (inbound ws) (outbound ws) v (randCalls ws).
Definition set_randCalls v (ws : Websocket) :=
  mkWebsocket (closingData ws) (pings ws) (receiveMask ws) (sendMask ws) (maxSize ws)
              (state ws) (inbound ws) (outbound ws) (socketClosed ws) v.

(** Websocket.__init__ on a connected socket with [inbound] pending. *)
Definition Websocket_init (receiveMask sendMask : bool) (inbound : list byte)
  : Websocket :=
  mkWebsocket (CLOSE_BY_ERROR, None, None) [] receiveMask sendMask 4096 STATE_OPEN
              inbound [] false 0.

(** Outcome of a coroutine of the engine: it returns, raises, stays
    suspended in a recv ([WWait]), or is still looping when the fuel
    given to a [while] is used up ([WSpin]). *)
Inductive wres (A : Type) : Type :=
| WRet (a : A) (ws : Websocket)
| WRaise (e : exn) (ws : Websocket)
| WWait (ws : Websocket)
| WSpin (ws : Websocket).
Arguments WRet {A} a ws.
Arguments WRaise {A} e ws.
Arguments WWait {A} ws.
Arguments WSpin {A} ws.

Definition wm (A : Type) : Type := Websocket -> wres A.

#[global] Instance wm_ret : MRet wm := fun A a ws => WRet a ws.
#[global] Instance wm_bind : MBind wm := fun A B k m ws =>
  match m ws with
  | WRet a ws' => k a ws'
  | WRaise e ws' => WRaise e ws'
  | WWait ws' => WWait ws'
  | WSpin ws' => WSpin ws'
  end.

Definition wraise {A} (e : exn) : wm A := fun ws => WRaise e ws.
Definition wget : wm Websocket := fun ws => WRet ws ws.
Definition wmodify (f : Websocket -> Websocket) : wm unit := fun ws => WRet tt (f ws).

(** [yield from readFragment(self.socket, self.receiveMask, self.maxSize)] *)
Definition recv_fragment : wm frame :=
  fun ws =>
    match readFragment (receiveMask ws) (Some (maxSize ws)) (inbound ws) with
    | POk fr rest => WRet fr (set_inbound rest ws)
    | PRaise e rest => WRaise e (set_inbound rest ws)
    | PWait => WWait ws
    end.

(** [yield from writeFragment(self.socket, self.sendMask, opcode, data, final)];
    [rand k] is the value of the k-th draw of [random.getrandbits(32)]. *)
Definition send_fragment (rand : nat -> Z) (opcode : Z) (data : list byte)
    (final : bool) : wm unit :=
  fun ws =>
    match writeFragment (sendMask ws) (rand (randCalls ws)) opcode data final with
    | inl e => WRaise e ws
    | inr wire =>
        WRet tt (set_outbound (outbound ws ++ [wire])
                   (if sendMask ws then set_randCalls (S (randCalls ws)) ws else ws))
    end.

(** Websocket.__writeCloseFrame *)
Definition writeCloseFrame (rand : nat -> Z) (data : list byte) : wm unit :=
  send_fragment rand OP_CLOSE data true.

(** The methods of the class that take one bytes argument and write a
    frame, under the names they have on an instance.  [self.name] for
    any other name used that way raises AttributeError. *)
Definition frame_writers : list (string * ((nat -> Z) -> list byte -> wm unit)) :=
  [ ("_Websocket__writeCloseFrame"%string, writeCloseFrame) ].

(** The dict-valued attributes of an instance. *)
Definition dict_attributes (ws : Websocket)
  : list (string * list (list byte * Core.fid)) :=
  [ ("pings"%string, pings ws) ].

(** Python slices [data[a:b]] (with [a], [b] possibly negative). *)
Definition slice_index (len i : Z) : Z :=
  if i <? 0 then Z.max 0 (i + len) else Z.min i len.

Definition py_slice (a b : Z) (data : list byte) : list byte :=
  let len := Z.of_nat (length data) in
  let a := slice_index len a in
  let b := slice_index len b in
  take (Z.to_nat (b - a)) (drop (Z.to_nat a) data).

(** What [send] accepts: a str (carried as its UTF-8 encoding) or
    bytes. *)
Inductive message : Type :=
| Str (utf8 : list byte)
| Bytes (b : list byte).

(** The loop [while len(data) > endFrag + self.maxSize: ...] of
    __writeDataFrame, returning the final [endFrag]. *)
Fixpoint writeContinuations (rand : nat -> Z) (fuel : nat) (data : list byte)
    (endFrag : Z) : wm Z :=
  fun ws =>
    if endFrag + maxSize ws <? Z.of_nat (length data) then
      match fuel with
      | O => WSpin ws
      | S fuel' =>
          let endFrag := endFrag + maxSize ws in
          let startFrag := endFrag in
          (send_fragment rand OP_CONT (py_slice startFrag endFrag data) false;;
           writeContinuations rand fuel' data endFrag) ws
      end
    else WRet endFrag ws.

(** Websocket.__writeDataFrame.  Each turn of the loop advances
    [endFrag] by [maxSize], so with a positive [maxSize] the loop ends
    within [len(data)] turns. *)
Definition writeDataFrame (rand : nat -> Z) (msg : message) : wm unit :=
  let '(data, opcode) := match msg with
                         | Str utf8 => (utf8, OP_TEXT)
                         | Bytes b => (b, OP_BINARY)
                         end in
  ws ← wget;
  if maxSize ws <? Z.of_nat (length data) then
    let endFrag := maxSize ws in
    send_fragment rand opcode (py_slice 0 endFrag data) false;;
    endFrag ← writeContinuations rand (length data) data endFrag;
    send_fragment rand OP_CONT (py_slice endFrag (Z.of_nat (length data)) data) true
  else
    send_fragment rand opcode data true.

(** Websocket.__readNextFrame *)
Definition readNextFrame (rand : nat -> Z) (building : Z)
  : wm (Z * option (list byte)) :=
  '(opcode, data, final) ← recv_fragment;
  if opcode =? OP_PING then
    match Aux.method_lookup "writePongFrame" frame_writers with
    | None => wraise (AttributeError "writePongFrame")
    | Some writePongFrame =>
        writePongFrame rand data;;
        mret (RECV_PING, None)
    end
  else if opcode =? OP_PONG then
    ws ← wget;
    match Aux.method_lookup "sentPings" (dict_attributes ws) with
    | None => wraise (AttributeError "sentPings")
    | Some sentPings =>
        (* popitem returns a (key, value) tuple *)
        if bool_decide (data ∈ sentPings.*1)
        then wraise (AttributeError "setResult")
        else mret (RECV_PONG, None)
    end
  else if opcode =? OP_CLOSE then
    match parseCloseData data with
    | inl e => wraise e
    | inr closeData =>
        ws ← wget;
        (if state ws =? STATE_OPEN then
           writeCloseFrame rand data;;
           wmodify (set_closingData (CLOSE_BY_REMOTE, None, Some closeData))
         else
           wmodify (fun ws =>
             set_closingData ((closingData ws).1.1, Some closeData, (closingData ws).2) ws));;
        wmodify (set_state STATE_CLOSED);;
        wmodify (set_socketClosed true);;
        mret (RECV_CLOSE, None)
    end
  else if building =? BUILD_NOTHING then
    if opcode =? OP_BINARY then
      if final : bool then mret (RECV_SINGLE_BINARY, Some data)
      else mret (RECV_START_BINARY, Some data)
    else if opcode =? OP_TEXT then
      if final : bool then mret (RECV_SINGLE_TEXT, Some data)
      else mret (RECV_START_TEXT, Some data)
    else wraise (WebSocketProtocolError "Unexpected opcode")
  else if opcode =? OP_CONT then
    if final : bool then mret (RECV_FINAL_FRAGMENT, Some data)
    else mret (RECV_CONTINUE, Some data)
  else wraise (WebSocketProtocolError "Unexpected opcode").

End Websocket.

(** ** Vocabulary of the statements *)

Module CellVocab.
Import Core Aux.

Definition cell_pending : Future := init ClsFuture.
Definition cell_done : Future := state_of (setResult (VInt 1) cell_pending).
Definition barrier_done : Future :=
  state_of (release (state_of (Barrier_setCallback 7%nat (init ClsBarrier)))).

End CellVocab.

Module FrameVocab.
Import Framing.

(** The valid frames: a data opcode with a payload whose length fits
    the 64-bit length field, or a control opcode with at most 125 bytes
    and FIN set. *)
Definition valid_frame (opcode : Z) (data : list byte) (final : bool) : bool :=
  ((opcode =? OP_CONT) || (opcode =? OP_TEXT) || (opcode =? OP_BINARY)
   || (((opcode =? OP_CLOSE) || (opcode =? OP_PING) || (opcode =? OP_PONG))
       && (Z.of_nat (length data) <=? 125) && final))
  && (Z.of_nat (length data) <? 2 ^ 64).

Definition head_of (final mask : bool) (opcode l7 : Z) : Z * Z :=
  (Z.lor (if final then 0x80 else 0) opcode, Z.lor (if mask then 0x80 else 0) l7).

Definition head_fields_ok (final mask : bool) (opcode l7 : Z) : bool :=
  let '(head1, head2) := head_of final mask opcode l7 in
  let head := unpack_be (be_bytes 1 head1 ++ be_bytes 1 head2) in
  (0 <=? head1) && (head1 <? 256) && (0 <=? head2) && (head2 <? 256)
  && eqb (truthy (Z.land head WSHEAD_FIN_BIT)) final
  && negb (truthy (Z.land head WSHEAD_RES_BITS))
  && (Z.shiftr (Z.land head WSHEAD_OP_BITS) 8 =? opcode)
  && eqb (truthy (Z.land head WSHEAD_MASK_BIT)) mask
  && (Z.land head WSHEAD_LEN_BITS =? l7).

Definition hello : list byte := [x48; x65; x6c; x6c; x6f].

End FrameVocab.

Module EventsVocab.
Import Events.


(** The union of all masks registered in [hl]. *)
Definition combined (hl : maskdict) : Z := foldr Z.lor 0 (dict_keys hl).



(** The poller knows exactly the fds of the handle table. *)
Definition poller_tracks (fd : Z) (d : Dispatcher) : Prop :=
  is_Some (pollingObject d !! fd) <-> is_Some (handles d !! fd).



(** Readiness translation, as a comprehension: for every reported
    [(fd, active)] and every registered [(m, h)] of that fd in
    registration order, the entry [(h, (eff,))] with
    [eff = (m | errorCheckingMask) & active] when [eff] is not zero. *)
Definition ready_of (active : Z) (hl : maskdict) : list entry :=
  omap (fun '(m, h) =>
          let eff := Z.land (Z.lor m errorCheckingMask) active in
          if eff =? 0 then None else Some (h, [VInt eff])) hl.

Definition readiness (hs : gmap Z maskdict) (events : list (Z * Z)) : list entry :=
  concat (map (fun '(fd, active) => ready_of active (default [] (hs !! fd))) events).

Definition fd1 : Dispatcher :=
  state_of (registerFileEvent 5 EPOLLIN 11%nat init).

(** A dispatcher with one reader registered and one background yield
    waiting, and a world in which fd 5 is readable. *)
Definition fd1_low : Dispatcher := scheduleLowPriority 42%nat [] fd1.
Definition world1 : World := mkWorld (fun _ => 0) (fun _ => [(5, EPOLLIN)]).

End EventsVocab.

Module QueueVocab.
Import Core PyQueue.

(** The value a future was resolved with, and whether it is resolved. *)
Definition delivered (i : fid) (st : QState) : option pyval :=
  f ← store st !! i; result f.

Definition is_done (i : fid) (st : QState) : bool :=
  match store st !! i with
  | Some f => isDone f
  | None => false
  end.

Definition observe {A} (f : QState -> A) : qm A := fun st => Ret (f st) st.

(** Scenario 2 of the specification: a queue of capacity 2, put(1),
    put(2), put(3), then three get().  Reported: the values delivered
    to the three consumers, and whether the third put's future is done
    before and after the first get. *)
Definition bounded2 : QState := start (mkQueue [] (Some 2) [] [] 2).

Definition scenario2 : qm (list (option pyval) * (bool * bool)) :=
  put (VInt 1);;
  put (VInt 2);;
  p3 ← put (VInt 3);
  before ← observe (is_done p3);
  g1 ← get;
  after ← observe (is_done p3);
  g2 ← get;
  g3 ← get;
  d1 ← observe (delivered g1);
  d2 ← observe (delivered g2);
  d3 ← observe (delivered g3);
  mret ([d1; d2; d3], (before, after)).

(** Runs of put and get in which the caller carries on after an
    exception. *)
Inductive qop : Type := Put (v : pyval) | Get.

Definition qstep (o : qop) (st : QState) : QState :=
  match o with
  | Put v => state_of (put v st)
  | Get => state_of (get st)
  end.

Definition qrun (ops : list qop) (st : QState) : QState :=
  fold_left (fun st o => qstep o st) ops st.

(** [Queue()] : the default, "unbounded", configuration. *)
Definition unbounded : QState := start (mkQueue [] None [] [] (-1)).

(** One producer parked on the unbounded queue. *)
Definition parked : QState := state_of (put (VInt 7) unbounded).

(** The callback slot of a plain Future never holds a list. *)
Definition plain_cb (f : Future) : Prop :=
  match cb f with CbList _ => False | _ => True end.

End QueueVocab.

Module EventQueueVocab.
Import Core Runtime Aux.

(** An event queue on fd 5 with one pending get()-cell (future 1; the
    close barrier is future 0). *)
Definition eq0 : Env EventQueue :=
  EventQueue_init [] Events.init 5 Events.EPOLLIN 11%nat.
Definition eq1 : Env EventQueue := state_of (EventQueue_get eq0).

Definition pending (i : fid) (st : Env EventQueue) : bool :=
  match store st !! i with
  | Some f => negb (isDone f)
  | None => false
  end.

End EventQueueVocab.

Module StreamsVocab.
Import Core Runtime Streams.

(** Sum of the remaining byte counts of the queued write waiters. *)
Definition remaining (w : WriteWrapper) : Z :=
  foldr (fun '(_, writeBytes, _) acc => Z.of_nat (length writeBytes) + acc) 0
        (writeWaiters w).

Definition balanced (st : Env WriteWrapper) : Prop :=
  remaining (self st) = writeWaitingSize (self st).

(** A wrapper on fd 5 with two writes queued: 3 bytes, then 5 bytes. *)
Definition ww0 : Env WriteWrapper :=
  mkEnv [] Events.init (WriteWrapper_init 5 21%nat) [].
Definition ww2 : Env WriteWrapper :=
  state_of (write [x68; x65; x6c; x6c; x6f] (state_of (write [x61; x62; x63] ww0))).

(** The file accepts the whole first buffer and fails on the next
    write (the peer is gone). *)
Definition fails_on_second : FileObject :=
  mkFileObject (fun k buf => match k with
                             | O => inr (Z.of_nat (length buf))
                             | _ => inl OSError
                             end) None.

(** The file accepts everything. *)
Definition accepts_all : FileObject :=
  mkFileObject (fun _ buf => inr (Z.of_nat (length buf))) None.

(** The file accepts two bytes per callback. *)
Definition accepts_two : FileObject :=
  mkFileObject (fun _ _ => inr 2) None.

End StreamsVocab.

Module WebsocketVocab.
Import Framing Websocket.

(** A fixed source of mask keys. *)
Definition rand0 : nat -> Z := fun k => 0x37fa213d + Z.of_nat k.

(** What a peer reads back from one [socket.send]: opcode, payload
    length and FIN of the frame, when the bytes are exactly one
    frame. *)
Definition observed (mask : bool) (wire : list byte) : option (Z * Z * bool) :=
  match readFragment mask None wire with
  | POk (opcode, data, final) [] => Some (opcode, Z.of_nat (length data), final)
  | _ => None
  end.

Definition payload_of (mask : bool) (wire : list byte) : list byte :=
  match readFragment mask None wire with
  | POk (_, data, _) _ => data
  | _ => []
  end.

(** A binary message of [n] bytes, byte [i] being [i mod 251]. *)
Fixpoint pattern_from (i : Z) (n : nat) : list byte :=
  match n with
  | O => []
  | S n' => Z_to_byte (i mod 251) :: pattern_from (i + 1) n'
  end.

Definition message10000 : list byte := pattern_from 0 (Z.to_nat 10000).

(** The sending side of scenario 4: a client, which masks. *)
Definition client : Websocket := Websocket_init false true [].

(** A server whose peer has sent one masked ping with payload "hi". *)
Definition ping_wire : list byte :=
  match writeFragment true 0x01020304 OP_PING [x68; x69] true with
  | inr wire => wire
  | inl _ => []
  end.
Definition server_pinged : Websocket := Websocket_init true false ping_wire.

(** The same server after a masked text frame "hello". *)
Definition server_hello : Websocket :=
  Websocket_init true false
    [x81; x85; x37; xfa; x21; x3d; x7f; x9f; x4d; x51; x58].

End WebsocketVocab.

(** * Further definitions

    More of the same sources: the functions next to the ones above,
    and the vocabulary of the statements about them. *)

(** ** events.py: sequences of registrations *)
Module EventsMore.
Import Events EventsVocab.




(** No two of the masks share a bit. *)
Fixpoint disjoint_keys (ks : list Z) : Prop :=
  match ks with
  | [] => True
  | k :: ks' => Forall (fun k' => Z.land k' k = 0) ks' /\ disjoint_keys ks'
  end.

(** For [fd], the poller holds the union of the registered masks, an
    fd without bindings is in neither table, and the bindings of an fd
    are pairwise disjoint. *)
Definition fd_consistent (fd : Z) (d : Dispatcher) : Prop :=
  match handles d !! fd with
  | Some hl =>
      hl <> [] /\ pollingObject d !! fd = Some (combined hl)
      /\ disjoint_keys (dict_keys hl)
  | None => pollingObject d !! fd = None
  end.

Definition consistent (d : Dispatcher) : Prop := forall fd, fd_consistent fd d.


(** Dispatcher.flush: [while len(self.handleQueue) > 0: self.runNextHandle()].
    [act e] is what calling the entry [e] does to the dispatcher (a
    callback may schedule others), [fuel] bounds the number of
    callbacks run ([None]: still running when it is used up), and the
    value is the list of entries called, in order. *)
Fixpoint flush (w : World) (act : entry -> Dispatcher -> Dispatcher) (fuel : nat)
    (d : Dispatcher) : option (res Dispatcher (list entry)) :=
  if (0 <? length (handleQueue d))%nat then
    match fuel with
    | O => None
    | S fuel' =>
        match runNextHandle w d with
        | Raise x d' => Some (Raise x d')
        | Ret e d' =>
            match flush w act fuel' (act e d') with
            | Some (Ret es d'') => Some (Ret (e :: es) d'')
            | r => r
            end
        end
    end
  else Some (Ret [] d).

(** A clock that never runs backwards. *)
Definition monotone (w : World) : Prop := forall n, w_time w n <= w_time w (S n).

(** A dispatcher with two timers, and a world whose clock stands at
    100. *)
Definition timers2 : Dispatcher :=
  scheduleHandleByTime 90 32%nat [] (scheduleHandleByTime 50 31%nat [] init).
Definition world100 : World := mkWorld (fun _ => 100) (fun _ => []).

End EventsMore.

(** ** core.py: collection of a Future, and references that wait *)
Module CoreMore.
Import Core.

(** Future.__del__: the exception raised when the object is collected,
    if any.  [self.errorAccessed] is only looked at when an error is
    stored. *)
Definition Future_del (f : Future) : option exn :=
  match error f with
  | None => None
  | Some e =>
      match errorAccessed f with
      | Some true => None
      | Some false => Some e
      | None => Some (AttributeError "errorAccessed")
      end
  end.

(** The callback slot of a plain Future never holds a list. *)
Definition plain (f : Future) : Prop :=
  match cb f with CbList _ => False | _ => True end.

(** What resolving a pending future hands to the dispatcher: the send
    (or, for an error, the __cbError) of the callback attached, at high
    priority; nothing when nobody waits on the future. *)
Definition wakes_result (f : Future) (v : pyval) : list effect :=
  match cb f with CbOne c => [SchedHigh (Send c v)] | _ => [] end.
Definition wakes_error (f : Future) (e : exn) : list effect :=
  match cb f with CbNone => [] | _ => [SchedHigh (CbError e)] end.

(** The references in [l] are distinct and each one points to a
    pending future of the store. *)
Definition waiting_refs (sto : list Future) (l : list fid) : Prop :=
  NoDup l
  /\ forall i, i ∈ l -> exists f, sto !! i = Some f /\ isDone f = false /\ plain f.

(** The value or error a future of the store was resolved with. *)
Definition result_at (i : fid) (sto : list Future) : option pyval :=
  f ← sto !! i; result f.
Definition error_at (i : fid) (sto : list Future) : option exn :=
  f ← sto !! i; error f.
Definition done_at (i : fid) (sto : list Future) : bool :=
  match sto !! i with Some f => isDone f | None => false end.

End CoreMore.

(** ** aux.py: closing an EventQueue, RoundRobin, RecurringEvent *)
Module AuxMore.
Import Core Runtime Aux.

(** EventQueue.close *)
Definition EventQueue_close : om EventQueue fid :=
  q ← get_self;
  if closing q then raise (AttributeError "closeBarrie")
  else
    set_self (set_closing true q);;
    q ← get_self;
    (if (length (queue q) =? 0)%nat then onFuture (closeBarrier q) release
     else mret tt);;
    mret (closeBarrier q).

(** EventQueue.forceClose, iterated to its end by a caller that leaves
    the queue alone: the value is the list of futures it yields. *)
Definition EventQueue_forceClose : om EventQueue (list fid) :=
  q ← get_self;
  (if (0 <? length (queue q))%nat
   then onDispatcher (Events.unregisterFileEvent (fileNumber q) (mask q))
   else mret tt);;
  q ← get_self;
  set_self (set_closing true q);;
  onFuture (closeBarrier q) release;;
  q ← get_self;
  set_self (set_queue [] q);;
  mret (queue q).

(** *** RoundRobin *)
Record RoundRobin : Type := mkRoundRobin {
  waiting : list fid;
  count : Z
}.

(** RoundRobin.__init__ *)
Definition RoundRobin_init (count : Z) : Env RoundRobin :=
  mkEnv [] Events.init (mkRoundRobin [] count) [].

(** RoundRobin.swap *)
Definition swap (value : pyval) : om RoundRobin fid :=
  myWaiter ← new ClsFuture;
  r ← get_self;
  set_self (mkRoundRobin (waiting r ++ [myWaiter]) (count r));;
  r ← get_self;
  (if Z.of_nat (length (waiting r)) =? count r then
     match waiting r with
     | [] => raise IndexError
     | first :: rest =>
         set_self (mkRoundRobin rest (count r));;
         onFuture first (setResult value)
     end
   else mret tt);;
  mret myWaiter.

(** RoundRobin.done *)
Definition done (value : pyval) : om RoundRobin unit :=
  r ← get_self;
  set_self (mkRoundRobin (waiting r) (count r - 1));;
  r ← get_self;
  if (0 <? count r) && (Z.of_nat (length (waiting r)) =? count r) then
    match waiting r with
    | [] => raise IndexError
    | first :: rest =>
        set_self (mkRoundRobin rest (count r));;
        onFuture first (setResult value)
    end
  else mret tt.

Inductive rrop : Type := Swap (v : pyval) | Done (v : pyval).

Definition rrstep (o : rrop) (st : Env RoundRobin) : res (Env RoundRobin) unit :=
  match o with
  | Swap v => match swap v st with
              | Ret _ st' => Ret tt st'
              | Raise e st' => Raise e st'
              end
  | Done v => done v st
  end.

(** A run that stops at the first exception. *)
Fixpoint rrrun (ops : list rrop) (st : Env RoundRobin) : res (Env RoundRobin) unit :=
  match ops with
  | [] => Ret tt st
  | o :: ops' =>
      match rrstep o st with
      | Ret _ st' => rrrun ops' st'
      | Raise e st' => Raise e st'
      end
  end.

(** *** RecurringEvent *)
Record RecurringEvent : Type := mkRecurringEvent {
  interval : Z;
  running : bool;
  stopping : bool;
  (** identity of the object, which is the callable put on the timer
      heap, and the number of times [self.callback] has been called *)
  self_id : Events.handle;
  called : nat
}.

(** RecurringEvent.__init__ *)
Definition RecurringEvent_init (interval : Z) (h : Events.handle) : RecurringEvent :=
  mkRecurringEvent interval false false h 0.

(** RecurringEvent.__schedule: [time()] is read from the world. *)
Definition schedule (w : Events.World) : om RecurringEvent unit :=
  r ← get_self;
  onDispatcher (fun d =>
    Ret tt (Events.scheduleHandleByTime
              (Events.w_time w (Events.clockReads d) + interval r) (self_id r) []
              (Events.set_clockReads (S (Events.clockReads d)) d))).

(** RecurringEvent.begin *)
Definition begin (w : Events.World) : om RecurringEvent unit :=
  r ← get_self;
  if stopping r then
    set_self (mkRecurringEvent (interval r) (running r) false (self_id r) (called r))
  else if running r then
    raise (PlainException "RecurringEvent was already running")
  else
    set_self (mkRecurringEvent (interval r) true (stopping r) (self_id r) (called r));;
    schedule w.

(** RecurringEvent.stop *)
Definition stop : om RecurringEvent unit :=
  r ← get_self;
  if negb (running r) then raise (PlainException "RecurringEvent was not running")
  else set_self (mkRecurringEvent (interval r) (running r) true (self_id r) (called r)).

(** A call of begin or stop on the event. *)
Inductive evcall : Type := CallBegin | CallStop.

Definition evstep (w : Events.World) (c : evcall) (st : Env RecurringEvent)
  : Env RecurringEvent :=
  state_of (match c with CallBegin => begin w st | CallStop => stop st end).

(** RecurringEvent.__call__.  What the call of [self.callback] does
    this time is given by [inside], the calls of begin and stop that it
    makes on this event while it runs (an exception of theirs is caught
    by the callback or becomes its outcome), and by [outcome]: it
    returns ([None]) or raises. *)
Definition call (w : Events.World) (inside : list evcall) (outcome : option exn)
  : om RecurringEvent unit :=
  r ← get_self;
  set_self (mkRecurringEvent (interval r) (running r) (stopping r) (self_id r)
                             (S (called r)));;
  (fun st => Ret tt (fold_left (fun st c => evstep w c st) inside st));;
  match outcome with
  | Some e => raise e
  | None =>
      r ← get_self;
      if stopping r then
        set_self (mkRecurringEvent (interval r) false false (self_id r) (called r))
      else schedule w
  end.

(** The first timer of the heap whose callable is [h], taken out. *)
Fixpoint take_timer (h : Events.handle) (hp : list (Z * Events.entry))
  : option (list (Z * Events.entry)) :=
  match hp with
  | [] => None
  | (key, (h', args)) :: hp' =>
      if (h' =? h)%nat then Some hp'
      else match take_timer h hp' with
           | Some r => Some ((key, (h', args)) :: r)
           | None => None
           end
  end.

(** The dispatcher pops a timer of the object and calls it; nothing
    happens when no such timer is set. *)
Definition fire (w : Events.World) (inside : list evcall) (outcome : option exn)
  : om RecurringEvent unit :=
  fun st =>
    match take_timer (self_id (self st)) (Events.heap (dispatcher st)) with
    | None => Ret tt st
    | Some hp =>
        call w inside outcome
             (mkEnv (store st) (Events.set_heap hp (dispatcher st)) (self st)
                    (scheduled st))
    end.

Inductive reop : Type :=
| Begin | Stop | Fire (inside : list evcall) (outcome : option exn).

Definition restep (w : Events.World) (o : reop) (st : Env RecurringEvent)
  : Env RecurringEvent :=
  state_of (match o with
            | Begin => begin w st
            | Stop => stop st
            | Fire inside outcome => fire w inside outcome st
            end).

Definition rerun (w : Events.World) (ops : list reop) (st : Env RecurringEvent)
  : Env RecurringEvent :=
  fold_left (fun st o => restep w o st) ops st.


(** Number of timers of the heap whose callable is [h]. *)
Definition timers_of (h : Events.handle) (hp : list (Z * Events.entry)) : nat :=
  length (filter (fun t => t.2.1 = h) hp).

(** What swap and done keep true of a RoundRobin. *)
Definition rr_inv (st : Env RoundRobin) : Prop :=
  CoreMore.waiting_refs (store st) (waiting (self st))
  /\ (1 <= count (self st) -> Z.of_nat (length (waiting (self st))) < count (self st)).



(** What the callers of a function may do with the future it gave them
    before that future is resolved: nothing, or wait on it, which
    attaches a callback (Future.setCallback for the one caller of a
    Future, Barrier.setCallback for each of the callers waiting on a
    barrier). *)
Definition attach {T} (waiter : option cbref) (fut : fid) : om T unit :=
  match waiter with
  | None => mret tt
  | Some c => onFuture fut (Future_setCallback c)
  end.

Fixpoint attach_barrier {T} (waiters : list cbref) (bar : fid) : om T unit :=
  match waiters with
  | [] => mret tt
  | c :: cs => onFuture bar (Barrier_setCallback c);; attach_barrier cs bar
  end.


Definition awaited_barrier (waiters : list cbref) (b : Future) : Future :=
  fold_left (fun b c => state_of (Barrier_setCallback c b)) waiters b.

(** What __handle makes of the future it pops when the inner handle
    returns a value or raises, and the calls that wake the caller
    waiting on it. *)
Definition settle (inner : exn + pyval) (f : Future) : Future :=
  match inner with
  | inr v => state_of (setResult v f)
  | inl e => state_of (setError e f)
  end.

Definition wakes (inner : exn + pyval) (f : Future) : list effect :=
  match inner with
  | inr v => CoreMore.wakes_result f v
  | inl e => CoreMore.wakes_error f e
  end.

(** The calls that a release of a pending barrier hands to the
    dispatcher: one send of None for each callback attached. *)
Definition wakes_release (how : Core.call -> effect) (b : Future) : list effect :=
  match cb b with
  | CbList l => map (fun c => how (Send c VNone)) l
  | _ => []
  end.

(** The future a pending future without callback becomes when the
    inner handle returns a value or raises. *)
Definition resolved (inner : exn + pyval) (f : Future) : Future :=
  match inner with
  | inr v => set_result v (set_isDone true f)
  | inl e => set_error e (set_errorAccessed false (set_isDone true f))
  end.

(** The part of __handle after the try statement. *)
Definition after_try : om EventQueue unit :=
  q ← get_self;
  if (length (queue q) =? 0)%nat then
    (if closing q then onFuture (closeBarrier q) release else mret tt);;
    onDispatcher (Events.unregisterFileEvent (fileNumber q) (mask q))
  else mret tt.

End AuxMore.

(** ** queue.py: runs of a Queue *)
Module QueueMore.
Import Core PyQueue QueueVocab CoreMore.

(** A run of put and get that stops at the first exception. *)
Fixpoint qexec (ops : list qop) (st : QState) : res QState unit :=
  match ops with
  | [] => Ret tt st
  | Put v :: ops' =>
      match put v st with
      | Ret _ st' => qexec ops' st'
      | Raise e st' => Raise e st'
      end
  | Get :: ops' =>
      match get st with
      | Ret _ st' => qexec ops' st'
      | Raise e st' => Raise e st'
      end
  end.

(** Number of puts minus number of gets. *)
Fixpoint balance (ops : list qop) : Z :=
  match ops with
  | [] => 0
  | Put _ :: ops' => 1 + balance ops'
  | Get :: ops' => balance ops' - 1
  end.

(** What put and get keep true of a queue: the waiters are distinct
    pending futures, the buffer respects its bound, consumers wait
    only at an empty queue without producers, and producers wait only
    at a full buffer. *)
Definition queue_inv (st : QState) : Prop :=
  let q := queue st in
  waiting_refs (store st) (getwaiters q ++ (putwaiters q).*1)
  /\ ((q_length q = -1 /\ maxlen q = None)
      \/ (0 <= q_length q /\ maxlen q = Some (q_length q)
          /\ Z.of_nat (length (values q)) <= q_length q))
  /\ (getwaiters q <> [] -> values q = [] /\ putwaiters q = [])
  /\ (putwaiters q <> [] -> q_length q <= Z.of_nat (length (values q))).

(** [for v in vs: q.put(v)] and [k] times [q.get()], with the futures
    returned. *)
Fixpoint put_all (vs : list pyval) : qm (list fid) :=
  match vs with
  | [] => mret []
  | v :: vs' => p ← put v; ps ← put_all vs'; mret (p :: ps)
  end.

Fixpoint get_n (k : nat) : qm (list fid) :=
  match k with
  | O => mret []
  | S k' => g ← get; gs ← get_n k'; mret (g :: gs)
  end.

End QueueMore.

(** ** streams.py: release of a WriteWrapper, runs of writes *)
Module StreamsMore.
Import Core Runtime Streams.

(** WriteWrapper.release *)
Definition release : om WriteWrapper fid :=
  w ← get_self;
  match writeClosing w with
  | Some b => mret b
  | None =>
      b ← new ClsBarrier;
      w ← get_self;
      set_self (set_writeClosing (Some b) w);;
      w ← get_self;
      (if (length (writeWaiters w) =? 0)%nat then onFuture b Aux.release
       else mret tt);;
      mret b
  end.

(** [while len(self.writeWaiters) > 0: self.writeWaiters.popleft()[0].setError(error)];
    the loop runs once per waiter, so the length of the deque bounds
    it. *)
Fixpoint failAll (e : exn) (fuel : nat) : om WriteWrapper unit :=
  match fuel with
  | O => mret tt
  | S fuel' =>
      w ← get_self;
      match writeWaiters w with
      | [] => mret tt
      | (fut, _, _) :: rest =>
          set_self (set_writeWaiters rest w);;
          onFuture fut (setError e);;
          failAll e fuel'
      end
  end.

(** WriteWrapper.forceRelease *)
Definition forceRelease (e : exn) : om WriteWrapper unit :=
  w ← get_self;
  (match writeClosing w with
   | None => b ← new ClsBarrier; w ← get_self; set_self (set_writeClosing (Some b) w)
   | Some _ => mret tt
   end);;
  w ← get_self;
  (if (0 <? length (writeWaiters w))%nat then
     set_self (set_writeWaitingSize 0 w);;
     unregisterWriter;;
     w ← get_self;
     failAll e (length (writeWaiters w))
   else mret tt);;
  w ← get_self;
  match writeClosing w with
  | Some b => onFuture b Aux.release
  | None => raise (AttributeError "release")
  end.

(** [for b in bufs: futs.append(w.write(b))] *)
Fixpoint write_all (bufs : list (list byte)) : om WriteWrapper (list fid) :=
  match bufs with
  | [] => mret []
  | b :: bufs' => f ← write b; fs ← write_all bufs'; mret (f :: fs)
  end.

(** Bytes still to be written for a list of waiters. *)
Definition pending_size (ws : list waiter) : Z :=
  foldr (fun w acc => Z.of_nat (length w.1.2) + acc) 0 ws.

(** What write and the readiness callback keep true while the file
    object takes what it says it takes: the counter is the number of
    bytes the waiters still hold, no waiter holds an empty buffer, and
    the waiters are distinct pending futures without callback. *)
Definition ww_inv (st : Env WriteWrapper) : Prop :=
  let ws := writeWaiters (self st) in
  writeWaitingSize (self st) = pending_size ws
  /\ Forall (fun w : waiter => w.1.2 <> []) ws
  /\ NoDup (map (fun w : waiter => w.1.1) ws)
  /\ Forall (fun w : waiter =>
               exists f, store st !! w.1.1 = Some f
                         /\ isDone f = false /\ cb f = CbNone) ws.

(** Same futures and total lengths, waiter by waiter. *)
Definition same_waiters (l1 l2 : list waiter) : Prop :=
  Forall2 (fun x y : waiter => x.1.1 = y.1.1 /\ x.2 = y.2) l1 l2.

(** What an open wrapper for file [fd] with handle [h] keeps true
    between calls of write, on a dispatcher [d] where registering the
    writer gives [d1]. *)
Definition write_state (fd : Z) (h : Events.handle) (d d1 : Events.Dispatcher)
    (st : Env WriteWrapper) : Prop :=
  ww_inv st
  /\ writeClosing (self st) = None
  /\ fileno (self st) = fd /\ handle_id (self st) = h
  /\ dispatcher st = match writeWaiters (self st) with [] => d | _ => d1 end.

(** The same with futures that may be waited on: the waiters are
    distinct pending futures, each with at most one callback. *)
Definition ww_ok (st : Env WriteWrapper) : Prop :=
  let ws := writeWaiters (self st) in
  writeWaitingSize (self st) = pending_size ws
  /\ Forall (fun w : waiter => w.1.2 <> []) ws
  /\ NoDup (map (fun w : waiter => w.1.1) ws)
  /\ Forall (fun w : waiter =>
               exists f, store st !! w.1.1 = Some f
                         /\ isDone f = false /\ CoreMore.plain f) ws.

(** The sends that resolving the waiters [ws], in order, each with its
    total length, hands to the dispatcher; and the same for failing
    them with [e]. *)
Definition wakes_all (sto : list Future) (ws : list waiter) : list effect :=
  flat_map (fun w : waiter =>
              match sto !! w.1.1 with
              | Some f => CoreMore.wakes_result f (VInt w.2)
              | None => []
              end) ws.

Definition fails_all (e : exn) (sto : list Future) (ws : list waiter) : list effect :=
  flat_map (fun w : waiter =>
              match sto !! w.1.1 with
              | Some f => CoreMore.wakes_error f e
              | None => []
              end) ws.

(** A waiter is served in [sto'] when its future is done and, if
    nobody waited on it in [sto], holds the total length of the write;
    it is failed with [e] when the future is done and, if nobody
    waited on it, holds [e]. *)
Definition served (sto sto' : list Future) (x : waiter) : Prop :=
  CoreMore.done_at x.1.1 sto' = true
  /\ forall f, sto !! x.1.1 = Some f -> cb f = CbNone ->
               CoreMore.result_at x.1.1 sto' = Some (VInt x.2).

Definition failed (e : exn) (sto sto' : list Future) (x : waiter) : Prop :=
  CoreMore.done_at x.1.1 sto' = true
  /\ forall f, sto !! x.1.1 = Some f -> cb f = CbNone ->
               CoreMore.error_at x.1.1 sto' = Some e.

(** What one readiness callback makes of the waiters, read off the
    answers of the file ([k] counts the write calls): the number of
    waiters whose buffers go out whole, and the waiters that stay, the
    first of them with what is left of its buffer. *)
Fixpoint drain_plan (fo : FileObject) (k : nat) (ws : list waiter)
  : nat * list waiter :=
  match ws with
  | [] => (0%nat, [])
  | (fut, buf, total) :: ws' =>
      match os_write fo k buf with
      | inl _ => (0%nat, ws)
      | inr n =>
          if n <? Z.of_nat (length buf)
          then (0%nat, (fut, drop (Z.to_nat n) buf, total) :: ws')
          else let '(j, rest) := drain_plan fo (S k) ws' in (S j, rest)
      end
  end.

(** A file object that takes every buffer whole and flushes. *)
Definition accepts_all (fo : FileObject) : Prop :=
  (forall k b, os_write fo k b = inr (Z.of_nat (length b))) /\ os_flush fo = None.

(** A file object that takes some part of every buffer, and flushes. *)
Definition accepts_part (fo : FileObject) : Prop :=
  (forall k b, exists n, os_write fo k b = inr n /\ 0 <= n <= Z.of_nat (length b))
  /\ os_flush fo = None.

(** The part of __handleWriteFrom after the try statement;
    [oldWriteWaitingSize] is the local of that name. *)
Definition after_write (oldWriteWaitingSize : Z) : om WriteWrapper unit :=
  w ← get_self;
  if (writeWaitingSize w =? 0) && (0 <? oldWriteWaitingSize) then
    unregisterWriter;;
    w ← get_self;
    match writeClosing w with
    | Some b => onFuture b Aux.releaseFast
    | None => mret tt
    end
  else mret tt.

(** A file object that takes the first byte of every buffer. *)
Definition one_byte_file : FileObject :=
  mkFileObject (fun _ b => inr (Z.min 1 (Z.of_nat (length b)))) None.

(** A file object that takes every buffer whole. *)
Definition greedy_file : FileObject :=
  mkFileObject (fun _ b => inr (Z.of_nat (length b))) None.

(** [bytes.find(b"\n")]: index of the first newline, or -1. *)
Fixpoint find_newline_from (i : Z) (l : list byte) : Z :=
  match l with
  | [] => -1
  | b :: l' => if bool_decide (b = x0a) then i else find_newline_from (i + 1) l'
  end.

(** _smartSplit: [None], or the pair [(byteObj[:idx], byteObj[idx:])]. *)
Definition _smartSplit (byteObj : list byte) : option (list byte * list byte) :=
  let idx := find_newline_from 0 byteObj in
  if idx =? -1 then None
  else
    let idx := idx + 1 in
    Some (take (Z.to_nat idx) byteObj, drop (Z.to_nat idx) byteObj).

End StreamsMore.

(** ** websockets/websocket.py: messages and sent frames *)
Module WebsocketMore.
Import Framing Websocket.

(** The bytes of a message and the kind __readNextFrame reports for it
    when it comes in one frame. *)
Definition payload (msg : message) : list byte :=
  match msg with Str utf8 => utf8 | Bytes b => b end.

Definition single_kind (msg : message) : Z :=
  match msg with Str _ => RECV_SINGLE_TEXT | Bytes _ => RECV_SINGLE_BINARY end.

(** The engine after one call of writeFragment that put [wire] on the
    socket. *)
Definition sent (wire : list byte) (a : Websocket) : Websocket :=
  set_outbound (outbound a ++ [wire])
    (if sendMask a then set_randCalls (S (randCalls a)) a else a).

End WebsocketMore.

(** * Properties *)

(** ** Deferred cells are resolved at most once *)
Section CellFacts.
Import Core Aux CellVocab.

Lemma step_done_frozen (o : op) (f : Future) :
  isDone f = true ->
  let f' := state_of (step o f) in
  isDone f' = true /\ error f' = error f /\ result f' = result f
  /\ klass f' = klass f.
Proof.
  intros Hd.
  destruct f as [k d c e r a]; simpl in Hd; subst d.
  destruct o, k, c, e, r; cbn; auto.
Qed.

Lemma step_klass (o : op) (f : Future) :
  klass (state_of (step o f)) = klass f.
Proof.
  destruct f as [k d c e r a].
  destruct o, k, d, c, e, r; cbn; reflexivity.
Qed.

Lemma resolver_done_asserts (o : op) (f : Future) :
  resolver o = true -> has_method o f = true -> isDone f = true ->
  step o f = Raise AssertionError f.
Proof.
  intros Hr Hm Hd.
  destruct f as [k d c e r a]; simpl in Hd; subst d.
  destruct o, k; cbn in *; try discriminate; reflexivity.
Qed.

Lemma resolver_pending_resolves (o : op) (f : Future) :
  resolver o = true -> has_method o f = true -> isDone f = false ->
  isDone (state_of (step o f)) = true.
Proof.
  intros Hr Hm Hd.
  destruct f as [k d c e r a]; simpl in Hd; subst d.
  destruct o, k, c; cbn in *; try discriminate; reflexivity.
Qed.

Lemma run_done_frozen (os : list op) : forall f,
  isDone f = true ->
  isDone (run os f) = true /\ error (run os f) = error f
  /\ result (run os f) = result f.
Proof.
  induction os as [|o os IH]; intros f Hd; cbn [run]; [auto|].
  destruct (step_done_frozen o f Hd) as (H1 & H2 & H3 & _).
  destruct (IH _ H1) as (G1 & G2 & G3).
  rewrite G2, G3; auto.
Qed.

Lemma resolutions_done (os : list op) : forall f,
  isDone f = true -> resolutions os f = 0%nat.
Proof.
  induction os as [|o os IH]; intros f Hd; cbn [resolutions]; [reflexivity|].
  destruct (step_done_frozen o f Hd) as (H1 & _).
  rewrite Hd, (IH _ H1). reflexivity.
Qed.

Lemma resolutions_le_1 (os : list op) : forall f, (resolutions os f <= 1)%nat.
Proof.
  induction os as [|o os IH]; intros f; cbn [resolutions]; [lia|].
  destruct (isDone f) eqn:Hd; cbn [negb andb].
  - specialize (IH (state_of (step o f))). lia.
  - destruct (isDone (state_of (step o f))) eqn:Hd'.
    + rewrite (resolutions_done os _ Hd'). lia.
    + specialize (IH (state_of (step o f))). lia.
Qed.

(** C3.  A Future or Barrier is resolved at most once: every resolving
    operation (setResult, setError, their Late and Fast variants,
    release, releaseFast) raises AssertionError on a done cell and
    leaves it as it was, moves a pending cell to done, and along any
    sequence of operations a done cell stays done with the same result
    and error, so that at most one pending-to-done transition ever
    happens. *)
Theorem future_resolved_at_most_once (f : Future) (o : op) (os : list op) :
  (resolver o = true -> has_method o f = true -> isDone f = true ->
     step o f = Raise AssertionError f)
  /\ (resolver o = true -> has_method o f = true -> isDone f = false ->
     isDone (state_of (step o f)) = true)
  /\ (isDone f = true ->
     isDone (run os f) = true /\ error (run os f) = error f
     /\ result (run os f) = result f)
  /\ (resolutions os f <= 1)%nat.
Proof.
  split; [apply resolver_done_asserts|].
  split; [apply resolver_pending_resolves|].
  split; [apply run_done_frozen|].
  apply resolutions_le_1.
Qed.

Lemma future_resolved_at_most_once_witness :
  step (SetError OSError) cell_done = Raise AssertionError cell_done
  /\ step Release barrier_done = Raise AssertionError barrier_done
  /\ isDone (state_of (step (SetResultFast VNone) cell_pending)) = true
  /\ result (run [SetError OSError; GetResult; SetResultLate (VInt 2); SetCallback 3%nat]
               cell_done) = Some (VInt 1).
Proof.
  destruct (future_resolved_at_most_once cell_done (SetError OSError)
              [SetError OSError; GetResult; SetResultLate (VInt 2); SetCallback 3%nat])
    as (H1 & _ & H3 & _).
  destruct (future_resolved_at_most_once barrier_done Release []) as (B1 & _).
  destruct (future_resolved_at_most_once cell_pending (SetResultFast VNone) [])
    as (_ & P2 & _).
  split; [apply H1; reflexivity|].
  split; [apply B1; reflexivity|].
  split; [apply P2; reflexivity|].
  destruct (H3 eq_refl) as (_ & _ & R). rewrite R. reflexivity.
Defined.

End CellFacts.

(** ** WebSocket frames: encode then decode *)
Section FramingFacts.
Import Framing.

Lemma byte_to_Z_range (b : byte) : 0 <= byte_to_Z b < 256.
Proof.
  unfold byte_to_Z. pose proof (Byte.to_N_bounded b). lia.
Qed.

Lemma Z_to_byte_to_Z (b : byte) : Z_to_byte (byte_to_Z b) = b.
Proof.
  unfold Z_to_byte, byte_to_Z. rewrite N2Z.id, Byte.of_to_N. reflexivity.
Qed.

Lemma byte_to_Z_to_byte (z : Z) : 0 <= z < 256 -> byte_to_Z (Z_to_byte z) = z.
Proof.
  intros Hz. unfold Z_to_byte, byte_to_Z.
  destruct (Byte.of_N (Z.to_N z)) as [b|] eqn:E.
  - apply Byte.to_of_N in E. simpl. rewrite E. lia.
  - apply Byte.of_N_None_iff in E. lia.
Qed.

Lemma lxor_byte_range (a b : Z) :
  0 <= a < 256 -> 0 <= b < 256 -> 0 <= Z.lxor a b < 256.
Proof.
  intros Ha Hb. split; [apply Z.lxor_nonneg; lia|].
  destruct (Z.eq_dec (Z.lxor a b) 0) as [->|Hne]; [lia|].
  assert (0 < Z.lxor a b) by (pose proof (proj2 (Z.lxor_nonneg a b)); lia).
  apply (Z.log2_lt_pow2 _ 8); [lia|].
  pose proof (Z.log2_lxor a b ltac:(lia) ltac:(lia)) as Hl.
  assert (Z.log2 a < 8).
  { destruct (Z.eq_dec a 0) as [->|]; [cbn; lia|]. apply Z.log2_lt_pow2; lia. }
  assert (Z.log2 b < 8).
  { destruct (Z.eq_dec b 0) as [->|]; [cbn; lia|]. apply Z.log2_lt_pow2; lia. }
  lia.
Qed.

(** Masking one byte twice with the same key byte gives it back. *)
Lemma byte_xor_invol (b m : byte) : byte_xor (byte_xor b m) m = b.
Proof.
  unfold byte_xor.
  rewrite byte_to_Z_to_byte
    by (apply lxor_byte_range; apply byte_to_Z_range).
  rewrite Z.lxor_assoc, Z.lxor_nilpotent, Z.lxor_0_r.
  apply Z_to_byte_to_Z.
Qed.

Lemma be_bytes_length (k : nat) : forall z, length (be_bytes k z) = k.
Proof.
  induction k as [|k IH]; intros z; cbn [be_bytes]; [reflexivity|].
  rewrite length_app, IH. cbn. lia.
Qed.

Lemma unpack_be_snoc (l : list byte) (b : byte) :
  unpack_be (l ++ [b]) = unpack_be l * 256 + byte_to_Z b.
Proof. unfold unpack_be. rewrite fold_left_app. reflexivity. Qed.

(** struct.unpack inverts struct.pack on every field width. *)
Lemma unpack_be_bytes (k : nat) : forall z,
  0 <= z < 256 ^ Z.of_nat k -> unpack_be (be_bytes k z) = z.
Proof.
  induction k as [|k IH]; intros z Hz.
  - cbn in *. lia.
  - cbn [be_bytes]. rewrite unpack_be_snoc.
    rewrite Nat2Z.inj_succ, Z.pow_succ_r in Hz by lia.
    rewrite IH.
    + rewrite byte_to_Z_to_byte by (apply Z.mod_pos_bound; lia).
      pose proof (Z.div_mod z 256). lia.
    + split; [apply Z.div_pos; lia|].
      apply Z.div_lt_upper_bound; lia.
Qed.

Lemma pack_be_Some (k : nat) (z : Z) :
  0 <= z < 256 ^ Z.of_nat k -> pack_be k z = Some (be_bytes k z).
Proof.
  intros [H1 H2]. unfold pack_be.
  rewrite (proj2 (Z.leb_le _ _) H1), (proj2 (Z.ltb_lt _ _) H2). reflexivity.
Qed.

Lemma land_3_lt (i : Z) : (Z.to_nat (Z.land i 3) < 4)%nat.
Proof.
  change 3 with (Z.ones 2). rewrite Z.land_ones by lia.
  pose proof (Z.mod_pos_bound i (2 ^ 2) ltac:(lia)). lia.
Qed.

Lemma applyMask_from_invol (maskBits : list byte) :
  length maskBits = 4%nat ->
  forall data i, exists out,
    applyMask_from i maskBits data = Some out
    /\ length out = length data
    /\ applyMask_from i maskBits out = Some data.
Proof.
  intros Hlen data. induction data as [|b data IH]; intros i.
  - exists []. cbn. auto.
  - cbn [applyMask_from].
    destruct (lookup_lt_is_Some_2 maskBits (Z.to_nat (Z.land i 3))) as [m Hm].
    { rewrite Hlen. apply land_3_lt. }
    rewrite Hm.
    destruct (IH (i + 1)) as (out & E1 & E2 & E3).
    rewrite E1. exists (byte_xor b m :: out).
    split; [reflexivity|]. split; [cbn; congruence|].
    cbn [applyMask_from]. rewrite Hm, E3, byte_xor_invol. reflexivity.
Qed.

Lemma recv_exact (bs rest : list byte) (n : Z) :
  n = Z.of_nat (length bs) -> recv n (bs ++ rest) = POk bs rest.
Proof.
  intros ->. unfold recv.
  rewrite length_app.
  destruct (Z.ltb_spec (Z.of_nat (length bs + length rest)) (Z.of_nat (length bs)));
    [lia|].
  rewrite Nat2Z.id, take_app_length, drop_app_length. reflexivity.
Qed.

End FramingFacts.

Section FrameRoundTrip.
Import Framing FrameVocab.

Lemma head_fields_all :
  forallb (fun final => forallb (fun mask => forallb (fun opcode =>
    forallb (fun l7 => head_fields_ok final mask opcode l7)
            (map Z.of_nat (seq 0 128)))
    [0; 1; 2; 8; 9; 10]) [true; false]) [true; false] = true.
Proof. vm_compute. reflexivity. Qed.

Lemma head_fields (final mask : bool) (opcode l7 : Z) :
  In opcode [0; 1; 2; 8; 9; 10] -> 0 <= l7 < 128 ->
  head_fields_ok final mask opcode l7 = true.
Proof.
  intros Hop Hl.
  pose proof head_fields_all as H.
  rewrite List.forallb_forall in H.
  specialize (H final ltac:(destruct final; cbn; auto)).
  rewrite List.forallb_forall in H.
  specialize (H mask ltac:(destruct mask; cbn; auto)).
  rewrite List.forallb_forall in H. specialize (H opcode Hop).
  rewrite List.forallb_forall in H. apply H.
  apply in_map_iff. exists (Z.to_nat l7). split; [lia|].
  apply in_seq. lia.
Qed.

(** What [readFragment] returns on a stream that starts with a
    well-formed header [hd], extended length [ext], mask key [key] and
    [payload]. *)
Lemma readFragment_decode (mask final : bool) (maxSize : option Z)
    (opcode l7 : Z) (hd ext key payload data rest : list byte) :
  length hd = 2%nat ->
  truthy (Z.land (unpack_be hd) WSHEAD_FIN_BIT) = final ->
  truthy (Z.land (unpack_be hd) WSHEAD_RES_BITS) = false ->
  Z.shiftr (Z.land (unpack_be hd) WSHEAD_OP_BITS) 8 = opcode ->
  truthy (Z.land (unpack_be hd) WSHEAD_MASK_BIT) = mask ->
  Z.land (unpack_be hd) WSHEAD_LEN_BITS = l7 ->
  (if l7 =? 126 then length ext = 2%nat /\ unpack_be ext = Z.of_nat (length payload)
   else if l7 =? 127 then length ext = 8%nat /\ unpack_be ext = Z.of_nat (length payload)
   else ext = [] /\ l7 = Z.of_nat (length payload)) ->
  exceeds (Z.of_nat (length payload)) maxSize = false ->
  (if mask then length key = 4%nat /\ applyMask key payload = Some data
   else key = [] /\ data = payload) ->
  valid_frame opcode data final = true ->
  readFragment mask maxSize (hd ++ ext ++ key ++ payload ++ rest)
  = POk (opcode, data, final) rest.
Proof.
  intros Hhd Hfin Hres Hop Hmask Hlen Hext Hmax Hkey Hvalid.
  unfold readFragment, mbind, reader_bind, rbind.
  rewrite (recv_exact hd) by (rewrite Hhd; reflexivity).
  rewrite Hres, Hmask, eqb_reflx. cbn [negb rret].
  rewrite Hlen.
  destruct (l7 =? 126) eqn:E126; [| destruct (l7 =? 127) eqn:E127];
    [ destruct Hext as [He Hu];
      rewrite (recv_exact ext) by (rewrite He; reflexivity);
      cbn [rret]; rewrite Hu
    | destruct Hext as [He Hu];
      rewrite (recv_exact ext) by (rewrite He; reflexivity);
      cbn [rret]; rewrite Hu
    | destruct Hext as [-> Hl7]; rewrite Hl7; cbn [rret app] ].
  all: rewrite Hmax; cbn [rret].
  all: destruct mask;
    [ destruct Hkey as [Hk Hm];
      rewrite (recv_exact key) by (rewrite Hk; reflexivity);
      rewrite (recv_exact payload) by reflexivity;
      rewrite Hm; cbn [rret]
    | destruct Hkey as [-> ->]; cbn [rret app];
      rewrite (recv_exact payload) by reflexivity ].
  all: rewrite Hop, Hfin.
  all: unfold valid_frame in Hvalid;
    apply andb_prop in Hvalid; destruct Hvalid as [Hv _].
  all: destruct ((opcode =? OP_CLOSE) || (opcode =? OP_PING) || (opcode =? OP_PONG))
         eqn:Hctl.
  all: try (rewrite orb_false_r in Hv; rewrite Hv; reflexivity).
  all: assert (Hdata : ((opcode =? OP_CONT) || (opcode =? OP_TEXT) || (opcode =? OP_BINARY)) = false)
    by (unfold OP_CONT, OP_TEXT, OP_BINARY, OP_CLOSE, OP_PING, OP_PONG in *;
        destruct (Z.eqb_spec opcode 8), (Z.eqb_spec opcode 9), (Z.eqb_spec opcode 10);
        cbn in Hctl; try discriminate;
        destruct (Z.eqb_spec opcode 0), (Z.eqb_spec opcode 1), (Z.eqb_spec opcode 2);
        try reflexivity; lia).
  all: rewrite Hdata in Hv; cbn [orb andb] in Hv;
    apply andb_prop in Hv; destruct Hv as [Hv ->];
    apply Z.leb_le in Hv;
    match goal with
    | |- context [125 <? ?x] => destruct (Z.ltb_spec 125 x)
    end; [lia|]; reflexivity.
Qed.

Lemma head_fields_spec (final mask : bool) (opcode l7 : Z) :
  In opcode [0; 1; 2; 8; 9; 10] -> 0 <= l7 < 128 ->
  let '(head1, head2) := head_of final mask opcode l7 in
  let hd := be_bytes 1 head1 ++ be_bytes 1 head2 in
  pack_be 1 head1 = Some (be_bytes 1 head1)
  /\ pack_be 1 head2 = Some (be_bytes 1 head2)
  /\ length hd = 2%nat
  /\ truthy (Z.land (unpack_be hd) WSHEAD_FIN_BIT) = final
  /\ truthy (Z.land (unpack_be hd) WSHEAD_RES_BITS) = false
  /\ Z.shiftr (Z.land (unpack_be hd) WSHEAD_OP_BITS) 8 = opcode
  /\ truthy (Z.land (unpack_be hd) WSHEAD_MASK_BIT) = mask
  /\ Z.land (unpack_be hd) WSHEAD_LEN_BITS = l7.
Proof.
  intros Hop Hl. pose proof (head_fields final mask opcode l7 Hop Hl) as H.
  unfold head_fields_ok in H. destruct (head_of final mask opcode l7) as [head1 head2].
  repeat (apply andb_prop in H; destruct H as [H ?]).
  repeat match goal with
         | H : (_ <=? _) = true |- _ => apply Z.leb_le in H
         | H : (_ <? _) = true |- _ => apply Z.ltb_lt in H
         | H : (_ =? _) = true |- _ => apply Z.eqb_eq in H
         | H : eqb _ _ = true |- _ => apply eqb_prop in H
         | H : negb _ = true |- _ => apply negb_true_iff in H
         end.
  cbv zeta.
  split; [apply pack_be_Some; cbn; lia|].
  split; [apply pack_be_Some; cbn; lia|].
  split; [rewrite length_app, !be_bytes_length; reflexivity|].
  repeat split; assumption.
Qed.

Lemma frame_header_spec (final mask : bool) (opcode L : Z) :
  In opcode [0; 1; 2; 8; 9; 10] -> 0 <= L < 2 ^ 64 ->
  exists hd ext l7,
    frame_header mask opcode L final = Some (hd ++ ext)
    /\ length hd = 2%nat
    /\ truthy (Z.land (unpack_be hd) WSHEAD_FIN_BIT) = final
    /\ truthy (Z.land (unpack_be hd) WSHEAD_RES_BITS) = false
    /\ Z.shiftr (Z.land (unpack_be hd) WSHEAD_OP_BITS) 8 = opcode
    /\ truthy (Z.land (unpack_be hd) WSHEAD_MASK_BIT) = mask
    /\ Z.land (unpack_be hd) WSHEAD_LEN_BITS = l7
    /\ (if l7 =? 126 then length ext = 2%nat /\ unpack_be ext = L
        else if l7 =? 127 then length ext = 8%nat /\ unpack_be ext = L
        else ext = [] /\ l7 = L).
Proof.
  intros Hop HL. unfold frame_header.
  destruct (Z.ltb_spec L 0x7e) as [H1|H1]; [|destruct (Z.ltb_spec L 0x10000) as [H2|H2]].
  - pose proof (head_fields_spec final mask opcode L Hop ltac:(lia)) as H.
    unfold head_of in H. destruct H as (P1 & P2 & H).
    rewrite P1, P2. cbn [mbind option_bind].
    eexists _, [], L. rewrite app_nil_r. split; [reflexivity|].
    destruct H as (? & ? & ? & ? & ? & ?). repeat split; auto.
    destruct (Z.eqb_spec L 126); [lia|]. destruct (Z.eqb_spec L 127); [lia|]. auto.
  - pose proof (head_fields_spec final mask opcode 126 Hop ltac:(lia)) as H.
    unfold head_of in H. destruct H as (P1 & P2 & H).
    rewrite P1, P2, (pack_be_Some 2 L) by (cbn; lia). cbn [mbind option_bind].
    eexists _, (be_bytes 2 L), 126. rewrite app_assoc. split; [reflexivity|].
    destruct H as (? & ? & ? & ? & ? & ?). repeat split; auto.
    apply unpack_be_bytes. cbn. lia.
  - pose proof (head_fields_spec final mask opcode 127 Hop ltac:(lia)) as H.
    unfold head_of in H. destruct H as (P1 & P2 & H).
    rewrite P1, P2, (pack_be_Some 8 L) by (cbn; lia). cbn [mbind option_bind].
    eexists _, (be_bytes 8 L), 127. rewrite app_assoc. split; [reflexivity|].
    destruct H as (? & ? & ? & ? & ? & ?). repeat split; auto.
    apply unpack_be_bytes. cbn. lia.
Qed.

Lemma valid_frame_opcode (opcode : Z) (data : list byte) (final : bool) :
  valid_frame opcode data final = true ->
  In opcode [0; 1; 2; 8; 9; 10] /\ 0 <= Z.of_nat (length data) < 2 ^ 64.
Proof.
  unfold valid_frame, OP_CONT, OP_TEXT, OP_BINARY, OP_CLOSE, OP_PING, OP_PONG.
  intros H. apply andb_prop in H. destruct H as [H HL].
  apply Z.ltb_lt in HL. split; [|lia].
  destruct (Z.eqb_spec opcode 0), (Z.eqb_spec opcode 1), (Z.eqb_spec opcode 2),
    (Z.eqb_spec opcode 8), (Z.eqb_spec opcode 9), (Z.eqb_spec opcode 10);
    subst; cbn in *; auto 10; discriminate.
Qed.

(** C4.  Decoding what the frame writer produced gives the frame back:
    for every valid frame (a data opcode with a payload the length field
    can express, or a control opcode with at most 125 bytes and final
    set), every mask setting shared by writer and reader, every mask key
    and every size limit the payload respects, [readFragment] on the
    bytes of [writeFragment] (followed by whatever comes next on the
    stream) returns exactly (opcode, payload, final) and leaves the rest
    of the stream.  Masking twice with a four-byte key is the identity,
    and each length field (1, 2 or 8 bytes) unpacks to the value that
    was packed. *)
Theorem frame_encode_decode (mask : bool) (randbits opcode : Z)
    (data : list byte) (final : bool) (maxSize : option Z) (rest : list byte) :
  valid_frame opcode data final = true ->
  0 <= randbits < 2 ^ 32 ->
  exceeds (Z.of_nat (length data)) maxSize = false ->
  (exists wire,
      writeFragment mask randbits opcode data final = inr wire
      /\ readFragment mask maxSize (wire ++ rest) = POk (opcode, data, final) rest)
  /\ (forall key, length key = 4%nat ->
      exists masked, applyMask key data = Some masked
                     /\ applyMask key masked = Some data)
  /\ (forall k z, 0 <= z < 256 ^ Z.of_nat k ->
      exists field, pack_be k z = Some field /\ length field = k
                    /\ unpack_be field = z).
Proof.
  intros Hvalid Hrand Hmax.
  split; [|split].
  - destruct (valid_frame_opcode _ _ _ Hvalid) as [Hop HL].
    destruct (frame_header_spec final mask opcode _ Hop HL)
      as (hd & ext & l7 & Hhdr & Hhd & Hfin & Hres & Hopc & Hmask & Hlen & Hext).
    unfold writeFragment. rewrite Hhdr.
    destruct mask.
    + rewrite (pack_be_Some 4 randbits) by (cbn; lia).
      destruct (applyMask_from_invol (be_bytes 4 randbits) (be_bytes_length 4 _) data 0)
        as (out & E1 & E2 & E3).
      unfold applyMask, applyMaskSlow. rewrite E1.
      eexists. split; [reflexivity|].
      rewrite <- !app_assoc.
      apply (readFragment_decode true final maxSize opcode l7);
        [ exact Hhd | exact Hfin | exact Hres | exact Hopc | exact Hmask
        | exact Hlen
        | rewrite E2; exact Hext
        | rewrite E2; exact Hmax
        | split; [apply be_bytes_length | exact E3]
        | exact Hvalid ].
    + eexists. split; [reflexivity|].
      rewrite <- !app_assoc.
      apply (readFragment_decode false final maxSize opcode l7 hd ext [] data data rest);
        auto.
  - intros key Hk.
    destruct (applyMask_from_invol key Hk data 0) as (out & E1 & _ & E3).
    exists out. split; assumption.
  - intros k z Hz. exists (be_bytes k z).
    split; [apply pack_be_Some; assumption|].
    split; [apply be_bytes_length|apply unpack_be_bytes; assumption].
Qed.

Lemma frame_encode_decode_witness :
  exists wire,
    writeFragment true 0x37fa213d OP_TEXT hello true = inr wire
    /\ readFragment true (Some 4096) (wire ++ [x81; x00])
       = POk (OP_TEXT, hello, true) [x81; x00].
Proof.
  destruct (frame_encode_decode true 0x37fa213d OP_TEXT hello true (Some 4096)
              [x81; x00]) as [H _];
    [reflexivity | lia | reflexivity | exact H].
Defined.

(** The two single-frame examples of RFC 6455, section 5.7. *)
Example rfc6455_unmasked_hello :
  writeFragment false 0 OP_TEXT hello true
  = inr [x81; x05; x48; x65; x6c; x6c; x6f].
Proof. reflexivity. Qed.

Example rfc6455_masked_hello :
  writeFragment true 0x37fa213d OP_TEXT hello true
  = inr [x81; x85; x37; xfa; x21; x3d; x7f; x9f; x4d; x51; x58].
Proof. reflexivity. Qed.

Example readFragment_wrong_mask :
  readFragment true None [x81; x05; x48; x65; x6c; x6c; x6f]
  = PRaise (WebSocketProtocolError "Incorrect masking") [x48; x65; x6c; x6c; x6f].
Proof. reflexivity. Qed.

Example readFragment_partial :
  readFragment false None [x81; x05; x48; x65] = PWait.
Proof. reflexivity. Qed.

End FrameRoundTrip.

(** ** The dispatcher: registering file events *)
Section RegisterFacts.
Import Events EventsVocab.







(** The poller and the handle table know the same fds: this holds for
    a new dispatcher, is kept by every registerFileEvent that returns
    and by every unregisterFileEvent, and is lost when the poller
    refuses the first binding of an fd. *)
Lemma init_tracks (k : Z -> option exn) (fd : Z) : poller_tracks fd (init_in k).
Proof.
  unfold poller_tracks, init_in. cbn. rewrite !lookup_empty.
  split; intros [? ?]; discriminate.
Qed.

Lemma registerFileEvent_tracks (fd mask : Z) (h : handle) (d d' : Dispatcher) :
  registerFileEvent fd mask h d = Ret tt d' ->
  (forall fd', poller_tracks fd' d) ->
  forall fd', poller_tracks fd' d'.
Proof.
  intros Hr Hall fd'. pose proof (Hall fd) as Hfd. pose proof (Hall fd') as Hfd'.
  unfold poller_tracks in *. unfold registerFileEvent in Hr.
  destruct (handles d !! fd) as [hl|] eqn:Hh.
  - destruct (registerMask_loop mask mask (dict_keys hl)) as [rm|]; [|discriminate].
    unfold epoll_modify in Hr.
    destruct (fd_error (kernel d) fd); [discriminate|].
    destruct (pollingObject d !! fd) as [pm|] eqn:Hpm; [|discriminate].
    injection Hr as <-. cbn.
    destruct (decide (fd = fd')) as [->|Hne].
    + rewrite !lookup_insert_eq. split; eauto.
    + rewrite !lookup_insert_ne by exact Hne. exact Hfd'.
  - unfold epoll_register in Hr. cbn in Hr.
    destruct (fd_error (kernel d) fd); [discriminate|].
    destruct (pollingObject d !! fd) as [pm|] eqn:Hpm; [discriminate|].
    injection Hr as <-. cbn.
    destruct (decide (fd = fd')) as [->|Hne].
    + rewrite !lookup_insert_eq. split; eauto.
    + rewrite !lookup_insert_ne by exact Hne. exact Hfd'.
Qed.

Lemma unregisterFileEvent_tracks (fd mask : Z) (d : Dispatcher) :
  (forall fd', poller_tracks fd' d) ->
  forall fd', poller_tracks fd' (state_of (unregisterFileEvent fd mask d)).
Proof.
  intros Hall fd'. pose proof (Hall fd) as Hfd. pose proof (Hall fd') as Hfd'.
  unfold poller_tracks in *. unfold unregisterFileEvent.
  destruct (handles d !! fd) as [hl|] eqn:Hh; [|exact Hfd'].
  destruct (dict_del mask hl) as [hl'|]; [|exact Hfd'].
  destruct (proj2 Hfd (mk_is_Some _ _ eq_refl)) as [pm Hpm].
  cbn. unfold epoll_unregister, epoll_modify. cbn. rewrite Hpm.
  assert (Hkeep : is_Some (pollingObject d !! fd')
                  <-> is_Some (<[fd := hl']> (handles d) !! fd')).
  { destruct (decide (fd = fd')) as [->|Hne].
    - rewrite lookup_insert_eq, Hpm. split; eauto.
    - rewrite lookup_insert_ne by exact Hne. exact Hfd'. }
  destruct (length hl' =? 0)%nat; destruct (fd_error (kernel d) fd); cbn;
    try exact Hkeep.
  - destruct (decide (fd = fd')) as [->|Hne].
    + rewrite !lookup_delete_eq. split; intros [? ?]; discriminate.
    + rewrite !lookup_delete_ne by exact Hne.
      rewrite lookup_insert_ne by exact Hne. exact Hfd'.
  - destruct (decide (fd = fd')) as [->|Hne].
    + rewrite !lookup_insert_eq. split; eauto.
    + rewrite !lookup_insert_ne by exact Hne. exact Hfd'.
Qed.




End RegisterFacts.

(** ** The dispatcher: the scheduling step with background yields *)
Section RunNextFacts.
Import Events EventsVocab.

Lemma scheduleEvents_fd_app (active : Z) (hl : maskdict) : forall q,
  scheduleEvents_fd active hl q = q ++ ready_of active hl.
Proof.
  unfold ready_of.
  induction hl as [|[m h] hl IH]; intros q; cbn.
  - rewrite app_nil_r. reflexivity.
  - destruct (Z.land (Z.lor m errorCheckingMask) active =? 0); cbn.
    + apply IH.
    + rewrite IH, <- app_assoc. reflexivity.
Qed.

Lemma scheduleEvents_ready (events : list (Z * Z)) : forall d,
  Forall (fun ev => is_Some (handles d !! ev.1)) events ->
  _scheduleEvents events d
  = Ret tt (set_handleQueue (handleQueue d ++ readiness (handles d) events) d).
Proof.
  unfold readiness.
  induction events as [|[fd active] events IH]; intros [hp hs q lq po cr pl] Hall.
  - cbn. rewrite app_nil_r. reflexivity.
  - inversion Hall as [|? ? [hl Hfd] Hrest]; subst.
    cbn in Hfd, Hrest. cbn [_scheduleEvents handles]. rewrite Hfd.
    rewrite IH by exact Hrest.
    unfold set_handleQueue.
    cbn [handles handleQueue heap lowPriorityHandleQueue pollingObject
         clockReads pollLog map concat].
    rewrite Hfd, scheduleEvents_fd_app, <- app_assoc. reflexivity.
Qed.

Lemma pollEventsFast_ready (w : World) (d : Dispatcher) :
  Forall (fun ev => is_Some (handles d !! ev.1)) (w_poll w (length (pollLog d))) ->
  _pollEventsFast w d
  = Ret tt (set_handleQueue
              (handleQueue d ++ readiness (handles d) (w_poll w (length (pollLog d))))
              (set_pollLog (pollLog d ++ [0]) d)).
Proof.
  intros Hall. unfold _pollEventsFast, poll.
  destruct (w_poll w (length (pollLog d))) as [|ev evs] eqn:Hp.
  - cbn. rewrite app_nil_r. destruct d; reflexivity.
  - rewrite scheduleEvents_ready by exact Hall. reflexivity.
Qed.

(** C7.  When the main queue is empty, no timer is due (readyTime is
    not negative) and a low-priority entry [e] waits, runNextHandle
    polls exactly once, with timeout 0, appends the readiness entries
    of the reported events to the main queue, moves [e] (and only [e])
    from the low-priority queue to the tail of the main queue, and
    pops and calls the head of the main queue. *)
Theorem runNextHandle_low_priority (w : World) (d : Dispatcher)
    (e : entry) (low : list entry) :
  handleQueue d = [] ->
  lowPriorityHandleQueue d = e :: low ->
  ftime_neg (readyTime w d).1 = false ->
  Forall (fun ev => is_Some (handles d !! ev.1)) (w_poll w (length (pollLog d))) ->
  exists invoked d',
    runNextHandle w d = Ret invoked d'
    /\ pollLog d' = pollLog d ++ [0]
    /\ invoked :: handleQueue d'
       = readiness (handles d) (w_poll w (length (pollLog d))) ++ [e]
    /\ lowPriorityHandleQueue d' = low
    /\ heap d' = heap d /\ handles d' = handles d
    /\ pollingObject d' = pollingObject d.
Proof.
  intros Hq Hlow Hready Hall.
  unfold runNextHandle. rewrite Hq. cbn [length Nat.eqb].
  destruct (readyTime w d) as [timeToNext d1] eqn:Hrt. cbn [fst] in Hready.
  rewrite Hready.
  assert (Hd1 : handles d1 = handles d /\ pollLog d1 = pollLog d
                /\ handleQueue d1 = [] /\ lowPriorityHandleQueue d1 = e :: low
                /\ heap d1 = heap d /\ pollingObject d1 = pollingObject d).
  { unfold readyTime in Hrt. destruct (heap d) as [|[key v] hp] eqn:Hh.
    - inversion Hrt; subst. repeat split; first [assumption | reflexivity].
    - inversion Hrt; subst. cbn. repeat split; first [assumption | reflexivity]. }
  destruct Hd1 as (Hh1 & Hp1 & Hq1 & Hl1 & Hheap1 & Hpo1).
  rewrite Hl1. cbn [length Nat.ltb Nat.leb].
  rewrite pollEventsFast_ready by (rewrite Hh1, Hp1; exact Hall).
  cbn [rbindD lowPriorityHandleQueue set_handleQueue set_pollLog
       set_lowPriorityHandleQueue handleQueue].
  rewrite Hl1, Hq1, Hh1, Hp1. cbn [app].
  destruct (readiness (handles d) (w_poll w (length (pollLog d)))) as [|r rs];
    cbn [app]; eexists _, _; (split; [reflexivity|]); cbn; auto 10.
Qed.

Lemma runNextHandle_low_priority_witness :
  exists d',
    runNextHandle world1 fd1_low = Ret (11%nat, [VInt EPOLLIN]) d'
    /\ pollLog d' = [0]
    /\ handleQueue d' = [(42%nat, [])]
    /\ lowPriorityHandleQueue d' = [].
Proof.
  destruct (runNextHandle_low_priority world1 fd1_low (42%nat, []) [])
    as (invoked & d' & Hr & Hp & Hq & Hl & _).
  - reflexivity.
  - reflexivity.
  - reflexivity.
  - repeat constructor. vm_compute. eauto.
  - assert (Hi : invoked = (11%nat, [VInt EPOLLIN]) /\ handleQueue d' = [(42%nat, [])]).
    { vm_compute in Hq. inversion Hq. split; reflexivity. }
    destruct Hi as [-> Hq']. exists d'. auto.
Defined.

End RunNextFacts.

(** ** The asynchronous queue *)
Section QueueFacts.
Import Core PyQueue QueueVocab.

Example Queue_init_bounded2 : Queue_init 2 = inr (queue bounded2).
Proof. reflexivity. Qed.

Example Queue_init_unbounded : Queue_init (-1) = inr (queue unbounded).
Proof. reflexivity. Qed.

Example Queue_init_negative : Queue_init (-2) = inl ValueError.
Proof. reflexivity. Qed.

(** C1.  On a queue of capacity 2 after put(1), put(2), put(3), the
    three get() calls deliver 3, 2, 3 (the specification expects
    1, 2, 3): the first get, which serves the waiting producer, hands
    the consumer the producer's value instead of the head of the
    buffer.  The third put's future is pending before the first get and
    done after it. *)
Theorem queue_capacity2_delivery :
  returned (scenario2 bounded2)
  = Some ([Some (VInt 3); Some (VInt 2); Some (VInt 3)], (false, true)).
Proof. vm_compute. reflexivity. Qed.

Lemma ltb_length_neg (A : Type) (l : list A) : (Z.of_nat (length l) <? -1) = false.
Proof. apply Z.ltb_ge. lia. Qed.

(** A method call on a future leaves the queue object alone. *)
Lemma onFuture_queue (i : fid) (m : Future -> fres) (st : QState) :
  exists st', queue st' = queue st
    /\ (onFuture i m st = Ret tt st' \/ exists e, onFuture i m st = Raise e st').
Proof.
  unfold onFuture.
  destruct (call_on i m (store st)) as [effs sto|e sto];
    eexists; (split; [|eauto]); reflexivity.
Qed.

Lemma qstep_unbounded_values (o : qop) (st : QState) :
  q_length (queue st) = -1 ->
  q_length (queue (qstep o st)) = -1
  /\ exists k, values (queue (qstep o st)) = drop k (values (queue st)).
Proof.
  destruct st as [sto [vals ml gw pw ql] sch]. cbn. intros ->.
  destruct o as [v|]; cbn -[onFuture].
  - unfold put, mbind, qm_bind, getq, mret, qm_ret. cbn -[onFuture].
    destruct gw as [|g gs]; cbn -[onFuture].
    + rewrite ltb_length_neg. cbn. split; [reflexivity|]. exists 0%nat. reflexivity.
    + match goal with |- context [onFuture ?i ?m ?s] =>
        destruct (onFuture_queue i m s) as (st' & Hq & [-> | [e ->]]) end;
      cbn; rewrite Hq; cbn; (split; [reflexivity|]); exists 0%nat; reflexivity.
  - unfold get, mbind, qm_bind, getq, mret, qm_ret, newFuture. cbn -[onFuture].
    destruct pw as [|[b pv] ps]; cbn -[onFuture].
    + destruct vals as [|x vs]; cbn -[onFuture].
      * split; [reflexivity|]. exists 0%nat. reflexivity.
      * match goal with |- context [onFuture ?i ?m ?s] =>
          destruct (onFuture_queue i m s) as (st' & Hq & [-> | [e ->]]) end;
        cbn; rewrite Hq; cbn; (split; [reflexivity|]); exists 1%nat; reflexivity.
    + match goal with |- context [onFuture ?i ?m ?s] =>
          destruct (onFuture_queue i m s) as (st' & Hq & [-> | [e ->]]) end;
        cbn -[onFuture].
      * match goal with |- context [onFuture ?i ?m ?s] =>
          destruct (onFuture_queue i m s) as (st2 & Hq2 & [-> | [e ->]]) end;
        cbn; rewrite Hq2, Hq; cbn; (split; [reflexivity|]); exists 0%nat; reflexivity.
      * rewrite Hq; cbn; (split; [reflexivity|]); exists 0%nat; reflexivity.
Qed.
Lemma put_unbounded_no_consumer (st : QState) (v : pyval) :
  q_length (queue st) = -1 -> getwaiters (queue st) = [] ->
  put v st
  = Ret (length (store st))
      (mkQState (store st ++ [init ClsFuture])
         (set_putwaiters (putwaiters (queue st) ++ [(length (store st), v)]) (queue st))
         (scheduled st)).
Proof.
  destruct st as [sto [vals ml gw pw ql] sch]. cbn. intros -> ->.
  unfold put, mbind, qm_bind, getq, mret, qm_ret. cbn.
  rewrite ltb_length_neg. reflexivity.
Qed.

Lemma qrun_unbounded_values (ops : list qop) : forall st,
  q_length (queue st) = -1 -> values (queue st) = [] ->
  values (queue (qrun ops st)) = [].
Proof.
  induction ops as [|o ops IH]; intros st Hl Hv; cbn; [exact Hv|].
  destruct (qstep_unbounded_values o st Hl) as (Hl' & k & Hk).
  apply IH; [exact Hl'|]. rewrite Hk, Hv. apply drop_nil.
Qed.

Lemma get_unbounded_from_producer (st : QState) (b : fid) (pv : pyval)
    (ps : list (fid * pyval)) (f : Future) :
  q_length (queue st) = -1 ->
  putwaiters (queue st) = (b, pv) :: ps ->
  store st !! b = Some f -> isDone f = false -> plain_cb f ->
  exists st',
    get st = Ret (length (store st)) st'
    /\ delivered (length (store st)) st' = Some pv
    /\ is_done b st' = true
    /\ putwaiters (queue st') = ps
    /\ values (queue st') = values (queue st).
Proof.
  destruct st as [sto [vals ml gw pw ql] sch]. cbn. intros -> -> Hb Hd Hcb.
  pose proof (lookup_lt_Some _ _ _ Hb) as Hlt.
  unfold get, mbind, qm_bind, getq, mret, qm_ret, newFuture, onFuture, call_on. cbn.
  rewrite (lookup_app_l_Some _ _ _ _ Hb).
  destruct f as [k d c e r a]. cbn in Hd. subst d.
  unfold plain_cb in Hcb. cbn in Hcb.
  unfold delivered, is_done.
  destruct c as [|c|l]; [| |contradiction]; cbn.
  - rewrite list_lookup_insert_ne by lia.
    rewrite lookup_app_r by lia. rewrite Nat.sub_diag. cbn.
    eexists. split; [reflexivity|]. cbn.
    rewrite list_lookup_insert_eq by (rewrite length_insert, length_app; cbn; lia).
    cbn. split; [reflexivity|].
    rewrite list_lookup_insert_ne by lia.
    rewrite list_lookup_insert_eq by (rewrite length_app; cbn; lia).
    auto.
  - rewrite list_lookup_insert_ne by lia.
    rewrite lookup_app_r by lia. rewrite Nat.sub_diag. cbn.
    eexists. split; [reflexivity|]. cbn.
    rewrite list_lookup_insert_eq by (rewrite length_insert, length_app; cbn; lia).
    cbn. split; [reflexivity|].
    rewrite list_lookup_insert_ne by lia.
    rewrite list_lookup_insert_eq by (rewrite length_app; cbn; lia).
    auto.
Qed.

(** The general shape of what C1 observes: on a bounded queue, a get
    that finds a producer waiting takes the head [x] of the buffer off,
    appends the producer's value [pv], and resolves the consumer's
    future with [pv], not with [x]. *)
Lemma get_bounded_serves_producer (st : QState) (b : fid) (pv x : pyval)
    (ps : list (fid * pyval)) (vs : list pyval) (f : Future) :
  0 < q_length (queue st) ->
  putwaiters (queue st) = (b, pv) :: ps ->
  values (queue st) = x :: vs ->
  store st !! b = Some f -> isDone f = false -> plain_cb f ->
  exists st',
    get st = Ret (length (store st)) st'
    /\ delivered (length (store st)) st' = Some pv
    /\ is_done b st' = true
    /\ values (queue st') = deque_append (maxlen (queue st)) pv vs.
Proof.
  destruct st as [sto [vals ml gw pw ql] sch]. cbn. intros Hql -> -> Hb Hd Hcb.
  pose proof (lookup_lt_Some _ _ _ Hb) as Hlt.
  unfold get, mbind, qm_bind, getq, setq, mret, qm_ret, newFuture, onFuture, call_on. cbn.
  rewrite (proj2 (Z.ltb_lt 0 ql) Hql). cbn.
  rewrite (lookup_app_l_Some _ _ _ _ Hb).
  destruct f as [k d c e r a]. cbn in Hd. subst d.
  unfold plain_cb in Hcb. cbn in Hcb.
  unfold delivered, is_done.
  destruct c as [|c|l]; [| |contradiction]; cbn.
  - rewrite list_lookup_insert_ne by lia.
    rewrite lookup_app_r by lia. rewrite Nat.sub_diag. cbn.
    eexists. split; [reflexivity|]. cbn.
    rewrite list_lookup_insert_eq by (rewrite length_insert, length_app; cbn; lia).
    cbn. split; [reflexivity|].
    rewrite list_lookup_insert_ne by lia.
    rewrite list_lookup_insert_eq by (rewrite length_app; cbn; lia).
    auto.
  - rewrite list_lookup_insert_ne by lia.
    rewrite lookup_app_r by lia. rewrite Nat.sub_diag. cbn.
    eexists. split; [reflexivity|]. cbn.
    rewrite list_lookup_insert_eq by (rewrite length_insert, length_app; cbn; lia).
    cbn. split; [reflexivity|].
    rewrite list_lookup_insert_ne by lia.
    rewrite list_lookup_insert_eq by (rewrite length_app; cbn; lia).
    auto.
Qed.
(** C10.  A queue built with length -1 is a rendezvous: a put made
    while no consumer waits creates a new, still pending future and
    parks (future, value) behind the other producers; no put or get
    ever adds to the value buffer, which stays empty from construction
    on; and a get that finds a producer waiting resolves its own future
    with that producer's value and resolves the producer's future. *)
Theorem unbounded_queue_rendezvous (st : QState) (v : pyval) :
  q_length (queue st) = -1 ->
  (getwaiters (queue st) = [] ->
     put v st
     = Ret (length (store st))
         (mkQState (store st ++ [init ClsFuture])
            (set_putwaiters (putwaiters (queue st) ++ [(length (store st), v)])
               (queue st))
            (scheduled st))
     /\ is_done (length (store st)) (state_of (put v st)) = false)
  /\ (forall o, q_length (queue (qstep o st)) = -1
                /\ exists k, values (queue (qstep o st)) = drop k (values (queue st)))
  /\ (forall ops, values (queue (qrun ops unbounded)) = [])
  /\ (forall b pv ps f,
        putwaiters (queue st) = (b, pv) :: ps ->
        store st !! b = Some f -> isDone f = false -> plain_cb f ->
        exists st',
          get st = Ret (length (store st)) st'
          /\ delivered (length (store st)) st' = Some pv
          /\ is_done b st' = true
          /\ putwaiters (queue st') = ps
          /\ values (queue st') = values (queue st)).
Proof.
  intros Hl. split; [|split; [|split]].
  - intros Hg. rewrite (put_unbounded_no_consumer st v Hl Hg).
    split; [reflexivity|]. unfold is_done. cbn.
    rewrite lookup_app_r by lia. rewrite Nat.sub_diag. reflexivity.
  - intros o. apply qstep_unbounded_values, Hl.
  - intros ops. apply qrun_unbounded_values; reflexivity.
  - intros b pv ps f. apply get_unbounded_from_producer, Hl.
Qed.


Lemma unbounded_queue_rendezvous_witness :
  is_done 1%nat (state_of (put (VInt 7) unbounded)) = false
  /\ exists st',
       get parked = Ret 2%nat st'
       /\ delivered 2%nat st' = Some (VInt 7)
       /\ is_done 1%nat st' = true.
Proof.
  split.
  - destruct (unbounded_queue_rendezvous unbounded (VInt 7) eq_refl) as (H & _).
    destruct (H eq_refl) as [_ Hp]. exact Hp.
  - destruct (unbounded_queue_rendezvous parked VNone eq_refl) as (_ & _ & _ & H).
    destruct (H 1%nat (VInt 7) [] (init ClsFuture))
      as (st' & Hg & Hd & Hb & _); [reflexivity..|exact I|].
    exists st'. auto.
Defined.

End QueueFacts.

(** ** The event queue and the retry signal *)
Section EventQueueFacts.
Import Core Runtime Aux EventQueueVocab.

Example eq1_shape :
  queue (self eq1) = [1%nat] /\ pending 1%nat eq1 = true
  /\ Events.handles (dispatcher eq1) !! 5 = Some [(Events.EPOLLIN, 11%nat)].
Proof. vm_compute. auto. Qed.

Example EventQueue_handle_result :
  exists st',
    EventQueue_handle (inr (VInt 9)) eq1 = Ret tt st'
    /\ queue (self st') = []
    /\ (result <$> store st' !! 1%nat) = Some (Some (VInt 9))
    /\ Events.handles (dispatcher st') !! 5 = None.
Proof. eexists. vm_compute. auto. Qed.

(** C8.  With one pending get()-cell queued, a readiness event whose
    inner handle raises IOEventAbort does not put the cell back:
    [self.queue.pushleft] is not a deque method, so AttributeError
    leaves __handle with the cell already popped.  The cell is still
    pending and the fd registration is still there, but the queue is
    empty (the specification expects the cell back at its head). *)
Theorem eventqueue_retry_drops_cell :
  exists st',
    EventQueue_handle (inl IOEventAbort) eq1 = Raise (AttributeError "pushleft") st'
    /\ queue (self st') = []
    /\ pending 1%nat st' = true
    /\ dispatcher st' = dispatcher eq1.
Proof. eexists. vm_compute. auto. Qed.

End EventQueueFacts.

(** ** The write wrapper and its pending-total counter *)
Section WriteWrapperFacts.
Import Core Runtime Streams StreamsVocab.

Lemma remaining_snoc (l : list waiter) (f : fid) (b : list byte) (t : Z) :
  foldr (fun '(_, writeBytes, _) acc => Z.of_nat (length writeBytes) + acc) 0
        (l ++ [(f, b, t)])
  = foldr (fun '(_, writeBytes, _) acc => Z.of_nat (length writeBytes) + acc) 0 l
    + Z.of_nat (length b).
Proof.
  induction l as [|[[f' b'] t'] l IH]; cbn; [lia|]. rewrite IH. lia.
Qed.

(** write keeps the counter equal to the sum of what is queued. *)
Lemma write_balanced (buf : list byte) (st : Env WriteWrapper) :
  balanced st -> balanced (state_of (write buf st)).
Proof.
  unfold balanced, remaining. intros Hb.
  destruct st as [sto d [ws wws wc fno hid] sch]. cbn in Hb.
  unfold write, mbind, om_bind, mret, om_ret, get_self, set_self, new. cbn.
  destruct wc as [c|]; cbn.
  - unfold onFuture. cbn. destruct (call_on _ _ _); cbn; exact Hb.
  - destruct (Z.of_nat (length buf) =? 0); cbn.
    + unfold onFuture. cbn. destruct (call_on _ _ _); cbn; exact Hb.
    + destruct ((wws =? 0) && (0 <? Z.of_nat (length buf))); cbn.
      * unfold registerWriter, mbind, om_bind, get_self, onDispatcher. cbn.
        destruct (Events.registerFileEvent _ _ _ d); cbn.
        -- rewrite remaining_snoc. lia.
        -- exact Hb.
      * rewrite remaining_snoc. lia.
Qed.

Example ww2_balanced :
  remaining (self ww2) = 8 /\ writeWaitingSize (self ww2) = 8.
Proof. vm_compute. auto. Qed.

Example drain_all_balanced :
  let st := state_of (handleWriteFrom accepts_all Events.EPOLLOUT ww2) in
  writeWaiters (self st) = [] /\ writeWaitingSize (self st) = 0.
Proof. vm_compute. auto. Qed.

Example drain_partial_balanced :
  let st := state_of (handleWriteFrom accepts_two Events.EPOLLOUT ww2) in
  remaining (self st) = 6 /\ writeWaitingSize (self st) = 6.
Proof. vm_compute. auto. Qed.

Example drain_hangup_balanced :
  let st := state_of (handleWriteFrom accepts_all Events.EPOLLHUP ww2) in
  remaining (self st) = 5 /\ writeWaitingSize (self st) = 5.
Proof. vm_compute. auto. Qed.

(** C5.  With writes of 3 and 5 bytes queued, a writable callback in
    which the file takes the first buffer whole and then fails on the
    second write ends with no waiter queued (both were failed) but with
    the pending-total counter at 2: the handler subtracts the length of
    the first, already counted, buffer instead of what is left of the
    one that failed.  The counter and the sum of the remaining bytes
    differ (2 against 0), where the specification has them equal at
    every observable point. *)
Theorem writewrapper_failed_drain_counter :
  let st := state_of (handleWriteFrom fails_on_second Events.EPOLLOUT ww2) in
  balanced ww2
  /\ writeWaiters (self st) = []
  /\ remaining (self st) = 0
  /\ writeWaitingSize (self st) = 2
  /\ (error <$> store st !! 0%nat) = Some (Some OSError)
  /\ (error <$> store st !! 1%nat) = Some (Some OSError).
Proof. vm_compute. auto 10. Qed.

End WriteWrapperFacts.

(** ** The WebSocket engine *)
Section WebsocketFacts.
Import Framing Websocket WebsocketVocab FrameVocab.

Example utf8_valid_examples :
  utf8_valid hello = true
  /\ utf8_valid [xc3; xa9] = true             (* U+00E9 *)
  /\ utf8_valid [xe2; x82; xac] = true        (* U+20AC *)
  /\ utf8_valid [xf0; x9f; x98; x80] = true   (* U+1F600 *)
  /\ utf8_valid [xc0; x80] = false            (* overlong *)
  /\ utf8_valid [xed; xa0; x80] = false       (* surrogate *)
  /\ utf8_valid [xe2; x82] = false            (* truncated *)
  /\ utf8_valid [x80] = false.
Proof. vm_compute. auto 10. Qed.

Example parseCloseData_ok :
  parseCloseData [x03; xe8; x4f; x4b] = inr (1000, [x4f; x4b]).
Proof. reflexivity. Qed.

Example parseCloseData_short :
  parseCloseData [x03] = inl (WebSocketProtocolError "Close frame too short").
Proof. reflexivity. Qed.

Example readNextFrame_hello :
  readNextFrame rand0 BUILD_NOTHING server_hello
  = WRet (RECV_SINGLE_TEXT, Some hello) (set_inbound [] server_hello).
Proof. reflexivity. Qed.

Example writeDataFrame_small :
  exists ws,
    writeDataFrame rand0 (Str hello) client = WRet tt ws
    /\ outbound ws = [[x81; x85; x37; xfa; x21; x3d; x7f; x9f; x4d; x51; x58]].
Proof. eexists. split; reflexivity. Qed.

(** C2.  A 10,000-byte binary message sent with maxSize = 4096 leaves
    the engine as three frames: binary with 4096 bytes and FIN=0, a
    continuation with no payload and FIN=0, and a continuation with
    1808 bytes and FIN=1.  The payloads add up to 5904 bytes, the first
    4096 and the last 1808 of the message: bytes 4096 to 8191 are never
    sent (the specification has the frames carry 4096, 4096 and 1808
    bytes, concatenating to the message). *)
Theorem writeDataFrame_10000_frames :
  exists ws,
    writeDataFrame rand0 (Bytes message10000) client = WRet tt ws
    /\ map (observed true) (outbound ws)
       = [Some (OP_BINARY, 4096, false); Some (OP_CONT, 0, false);
          Some (OP_CONT, 1808, true)]
    /\ concat (map (payload_of true) (outbound ws))
       = take (Z.to_nat 4096) message10000 ++ drop (Z.to_nat 8192) message10000
    /\ concat (map (payload_of true) (outbound ws)) <> message10000.
Proof.
  eexists. split; [vm_compute; reflexivity|].
  split; [vm_compute; reflexivity|].
  split; [vm_compute; reflexivity|].
  intros H. apply (f_equal length) in H. vm_compute in H. discriminate.
Qed.

(** C9.  When the receive loop reads a ping frame, no pong is written:
    [self.writePongFrame] is not an attribute of the engine, so
    __readNextFrame raises AttributeError after consuming the frame,
    nothing has been handed to the socket, and no PING event is
    returned to the loop (the specification has a pong with the ping's
    payload written and PING reported). *)
Theorem readNextFrame_ping_no_pong :
  observed true ping_wire = Some (OP_PING, 2, true)
  /\ readNextFrame rand0 BUILD_NOTHING server_pinged
     = WRaise (AttributeError "writePongFrame") (set_inbound [] server_pinged)
  /\ outbound (set_inbound [] server_pinged) = [].
Proof. vm_compute. auto. Qed.

End WebsocketFacts.

(** * Further properties *)

(** ** events.py *)
Section EventsMoreFacts.
Import Events EventsVocab EventsMore.






















Lemma effective_mask (m active : Z) :
  Z.land (Z.lor m errorCheckingMask) active
  = Z.lor (Z.land m active) (Z.land errorCheckingMask active).
Proof. apply Z.land_lor_distr_l. Qed.

(** X3.  Readiness translation for one fd.  The entries appended to the
    main queue come from the bindings of the fd, in registration
    order, each with the non-zero mask (m | ERR | HUP) & active; when
    an error or hang-up bit is active every binding gets its entry,
    whatever it registered for; otherwise exactly the bindings whose
    mask meets the active mask do. *)
Theorem readiness_translation (active : Z) (hl : maskdict) (q : list entry) :
  exists new,
    scheduleEvents_fd active hl q = q ++ new
    /\ (forall h args, (h, args) ∈ new ->
          exists m, (m, h) ∈ hl
            /\ args = [VInt (Z.land (Z.lor m errorCheckingMask) active)]
            /\ Z.land (Z.lor m errorCheckingMask) active <> 0)
    /\ (Z.land errorCheckingMask active <> 0 -> new.*1 = hl.*2)
    /\ (Z.land errorCheckingMask active = 0 ->
          new.*1 = (filter (fun b => Z.land b.1 active <> 0) hl).*2).
Proof.
  exists (ready_of active hl). split; [apply scheduleEvents_fd_app|].
  unfold ready_of. split; [|split].
  - intros h args Hin. apply list_elem_of_omap in Hin.
    destruct Hin as ([m h'] & Hin & Heq).
    destruct (Z.eqb_spec (Z.land (Z.lor m errorCheckingMask) active) 0) as [E|E];
      [discriminate|].
    inversion Heq; subst. exists m. auto.
  - intros Herr. induction hl as [|[m h] hl IH]; cbn; [reflexivity|].
    destruct (Z.eqb_spec (Z.land (Z.lor m errorCheckingMask) active) 0) as [E|E].
    + rewrite effective_mask in E. apply Z.lor_eq_0_iff in E. tauto.
    + cbn. rewrite IH. reflexivity.
  - intros Herr. induction hl as [|[m h] hl IH]; [reflexivity|].
    rewrite filter_cons. cbn [omap list_omap fst].
    rewrite effective_mask, Herr, Z.lor_0_r.
    destruct (Z.eqb_spec (Z.land m active) 0) as [E|E].
    + rewrite decide_False by tauto. exact IH.
    + rewrite decide_True by exact E. rewrite !fmap_cons, IH. reflexivity.
Qed.

Lemma flush_quiet (w : World) (act : entry -> Dispatcher -> Dispatcher)
    (Hact : forall e d, act e d = d) (q : list entry) : forall d,
  handleQueue d = q ->
  flush w act (length q) d = Some (Ret q (set_handleQueue [] d)).
Proof.
  induction q as [|e q IH]; intros [hp hs q0 lq po cr pl kn]; cbn; intros ->.
  - reflexivity.
  - change (runNextHandle w (mkDispatcher hp hs (e :: q) lq po cr pl kn))
      with (@Ret Dispatcher entry e (mkDispatcher hp hs q lq po cr pl kn)).
    cbn [length]. rewrite Hact.
    rewrite (IH (mkDispatcher hp hs q lq po cr pl kn) eq_refl). reflexivity.
Qed.

(** X4.  flush and the two priorities of the main queue.  When the
    callbacks leave the dispatcher alone, flush calls what is queued,
    in queue order, until the queue is empty, without a poll or a
    clock reading and without touching timers, registrations or the
    low-priority queue; a callback scheduled with scheduleHighPriority
    is called before everything that was queued, one scheduled with
    scheduleMediumPriority after it, whichever was scheduled first. *)
Theorem flush_priority_order (w : World) (act : entry -> Dispatcher -> Dispatcher)
    (d : Dispatcher) (h m : entry) :
  (forall e d, act e d = d) ->
  flush w act (length (handleQueue d)) d
  = Some (Ret (handleQueue d) (set_handleQueue [] d))
  /\ flush w act (S (S (length (handleQueue d))))
       (scheduleHighPriority h.1 h.2 (scheduleMediumPriority m.1 m.2 d))
     = Some (Ret (h :: handleQueue d ++ [m]) (set_handleQueue [] d)).
Proof.
  intros Hact. split.
  - apply flush_quiet; [exact Hact|reflexivity].
  - destruct h as [h ha], m as [m ma], d as [hp hs q lq po cr pl kn].
    pose proof (flush_quiet w act Hact ((h, ha) :: q ++ [(m, ma)])
                  (mkDispatcher hp hs ((h, ha) :: q ++ [(m, ma)]) lq po cr pl kn) eq_refl)
      as H.
    cbn [length] in H. rewrite length_app in H. cbn [length] in H.
    replace (S (length q + 1)) with (S (S (length q))) in H by lia.
    exact H.
Qed.

Lemma flush_priority_order_witness :
  flush world1 (fun _ d => d) 2
    (scheduleHighPriority 7%nat [] (scheduleMediumPriority 8%nat [] fd1))
  = Some (Ret [(7%nat, []); (8%nat, [])] fd1).
Proof.
  exact (proj2 (flush_priority_order world1 (fun _ d => d) fd1 (7%nat, []) (8%nat, [])
                  (fun _ _ => eq_refl))).
Defined.

Lemma drainReady_prefix (w : World) (h : list (Z * entry)) : forall q reads,
  exists k reads',
    drainReady w h q reads = (drop k h, q ++ (take k h).*2, reads').
Proof.
  induction h as [|[key v] h IH]; intros q reads; cbn.
  - exists 0%nat, reads. rewrite app_nil_r. reflexivity.
  - destruct (key - w_time w reads <? 0).
    + destruct (IH (q ++ [v]) (S reads)) as (k & reads' & E).
      exists (S k), reads'. rewrite E. cbn. rewrite <- app_assoc. reflexivity.
    + exists 0%nat, (S reads). cbn. rewrite app_nil_r. reflexivity.
Qed.

(** X5.  Overdue timers.  With the main queue empty, a clock that does
    not run backwards, and the earliest timer overdue at the first
    clock reading, runNextHandle does not poll: it moves a non-empty
    prefix of the timer heap to the main queue in heap order and calls
    the callback of the earliest timer; the other queues and the
    registrations are untouched. *)
Theorem runNextHandle_overdue_timer (w : World) (d : Dispatcher)
    (key : Z) (e : entry) (h' : list (Z * entry)) :
  monotone w ->
  handleQueue d = [] ->
  heap d = (key, e) :: h' ->
  key < w_time w (clockReads d) ->
  exists d' k,
    runNextHandle w d = Ret e d'
    /\ pollLog d' = pollLog d
    /\ e :: handleQueue d' = (take (S k) (heap d)).*2
    /\ heap d' = drop (S k) (heap d)
    /\ lowPriorityHandleQueue d' = lowPriorityHandleQueue d
    /\ handles d' = handles d /\ pollingObject d' = pollingObject d.
Proof.
  intros Hmono Hq Hheap Hdue.
  destruct d as [hp hs q lq po cr pl kn]. cbn in *. subst q hp.
  unfold runNextHandle, readyTime. cbn.
  destruct (Z.ltb_spec (key - w_time w cr) 0) as [_|Hge]; [|lia].
  cbn. unfold drain. cbn.
  pose proof (Hmono cr) as Hm.
  destruct (Z.ltb_spec (key - w_time w (S cr)) 0) as [_|Hge]; [|lia].
  destruct (drainReady_prefix w h' [e] (S (S cr))) as (k & reads' & E).
  rewrite E. cbn. eexists _, k. split; [reflexivity|]. cbn. auto 10.
Qed.

Lemma runNextHandle_overdue_timer_witness :
  exists d',
    runNextHandle world100 timers2 = Ret (31%nat, []) d'
    /\ pollLog d' = []
    /\ handleQueue d' = [(32%nat, [])]
    /\ heap d' = [].
Proof.
  destruct (runNextHandle_overdue_timer world100 timers2 50 (31%nat, [])
              [(90, (32%nat, []))]) as (d' & k & Hr & Hp & Hq & Hh & _).
  - intros n. reflexivity.
  - reflexivity.
  - reflexivity.
  - reflexivity.
  - exists d'. split; [exact Hr|]. split; [exact Hp|].
    vm_compute in Hr. inversion Hr; subst d'. split; reflexivity.
Defined.

Lemma scheduleEvents_pollLog (events : list (Z * Z)) : forall d,
  pollLog (state_of (_scheduleEvents events d)) = pollLog d.
Proof.
  induction events as [|[fd active] events IH]; intros d; cbn; [reflexivity|].
  destruct (handles d !! fd); [|reflexivity]. rewrite IH. reflexivity.
Qed.

Lemma drain_pollLog (w : World) (d : Dispatcher) : pollLog (drain w d) = pollLog d.
Proof.
  unfold drain. destruct (drainReady w _ _ _) as [[h q] r]. reflexivity.
Qed.

(** X6.  The idle dispatcher.  With both queues empty and no timer
    overdue, runNextHandle polls exactly once, with the time to the
    earliest deadline as timeout, or -1 (block until an event) when no
    timer is set.  If that poll reports nothing and there is no timer,
    there is nothing to call and runNextHandle raises IndexError. *)
Theorem runNextHandle_idle (w : World) (d : Dispatcher) :
  handleQueue d = [] ->
  lowPriorityHandleQueue d = [] ->
  ftime_neg (readyTime w d).1 = false ->
  pollLog (state_of (runNextHandle w d))
  = pollLog d ++ [match (readyTime w d).1 with Inf => -1 | Fin t => t end]
  /\ (heap d = [] -> w_poll w (length (pollLog d)) = [] ->
      runNextHandle w d = Raise IndexError (set_pollLog (pollLog d ++ [-1]) d)).
Proof.
  intros Hq Hl Hr. split.
  - unfold runNextHandle. rewrite Hq. cbn [length Nat.eqb].
    destruct (readyTime w d) as [t d1] eqn:Hrt. cbn [fst] in *. rewrite Hr.
    assert (Hd1 : lowPriorityHandleQueue d1 = [] /\ pollLog d1 = pollLog d).
    { unfold readyTime in Hrt. destruct (heap d) as [|[key v] hp];
        inversion Hrt; subst; cbn; auto. }
    destruct Hd1 as [Hl1 Hp1]. rewrite Hl1. cbn [length Nat.ltb Nat.leb].
    unfold _pollEvents, poll.
    destruct (w_poll w (length (pollLog d1))) as [|ev evs].
    + cbn. destruct (handleQueue (drain w _)) eqn:E; cbn;
        rewrite drain_pollLog; cbn; rewrite Hp1; reflexivity.
    + pose proof (scheduleEvents_pollLog (ev :: evs)
                    (set_pollLog (pollLog d1 ++ [match t with Inf => -1 | Fin t0 => t0 end]) d1))
        as Hs.
      destruct (_scheduleEvents (ev :: evs) _) as [u d2|x d2]; cbn in Hs |- *.
      * destruct (handleQueue d2); cbn; rewrite Hs, Hp1; reflexivity.
      * rewrite Hs, Hp1. reflexivity.
  - intros Hh Hp. destruct d as [hp hs q lq po cr pl kn]. cbn in *. subst.
    unfold runNextHandle, readyTime, _pollEvents, poll. cbn. rewrite Hp. reflexivity.
Qed.

Lemma runNextHandle_idle_witness :
  runNextHandle world100 init = Raise IndexError (set_pollLog [-1] init).
Proof.
  apply (proj2 (runNextHandle_idle world100 init eq_refl eq_refl eq_refl));
    reflexivity.
Defined.

End EventsMoreFacts.

(** ** core.py: errors that nobody looked at *)
Section SilentErrorFacts.
Import Core Aux CoreMore.

Lemma step_accessed (o : op) (f : Future) :
  isDone f = true -> errorAccessed f = Some true ->
  errorAccessed (state_of (step o f)) = Some true.
Proof.
  destruct f as [k d c e r a]. cbn. intros -> ->.
  destruct o, k, c, e, r; cbn; reflexivity.
Qed.

Lemma run_accessed (ops : list op) : forall f,
  isDone f = true -> errorAccessed f = Some true ->
  errorAccessed (run ops f) = Some true.
Proof.
  induction ops as [|o ops IH]; intros f Hd Ha; cbn [run]; [exact Ha|].
  apply IH.
  - apply (step_done_frozen o f Hd).
  - apply step_accessed; assumption.
Qed.

(** X7.  Silent-error mitigation.  An error set on a pending future
    that nobody waits on is raised again when the future is collected,
    unless getResult has raised it in between; after that collection
    is silent whatever else is called on the future.  An error set
    while a callback is attached is handed to the callback and never
    stored, so collection is silent as well. *)
Theorem silent_error (f : Future) (e : exn) (ops : list op) :
  isDone f = false ->
  (cb f = CbNone ->
     Future_del (state_of (setError e f)) = Some e
     /\ raised (Future_getResult (state_of (setError e f))) = Some e
     /\ Future_del (run ops (state_of (Future_getResult (state_of (setError e f)))))
        = None)
  /\ (forall c, cb f = CbOne c -> error f = None ->
        setError e f = Ret [SchedHigh (CbError e)] (set_isDone true f)
        /\ Future_del (run ops (state_of (setError e f))) = None).
Proof.
  destruct f as [k d c0 e0 r a]. cbn. intros ->. split.
  - intros ->. cbn. split; [reflexivity|]. split; [reflexivity|].
    unfold Future_del.
    rewrite run_accessed by reflexivity.
    destruct (error _); reflexivity.
  - intros c -> ->. split; [reflexivity|].
    change (state_of (setError e (mkFuture k false (CbOne c) None r a)))
      with (mkFuture k true (CbOne c) None r a).
    unfold Future_del.
    destruct (run_done_frozen ops (mkFuture k true (CbOne c) None r a) eq_refl)
      as (_ & He & _).
    rewrite He. reflexivity.
Qed.

Lemma silent_error_witness :
  Future_del (state_of (setError OSError (init ClsFuture))) = Some OSError
  /\ Future_del (run [SetCallback 3%nat; GetResult]
                   (state_of (Future_getResult
                                (state_of (setError OSError (init ClsFuture))))))
     = None.
Proof.
  destruct (silent_error (init ClsFuture) OSError [SetCallback 3%nat; GetResult] eq_refl)
    as [H _].
  destruct (H eq_refl) as (H1 & _ & H3). split; assumption.
Defined.

End SilentErrorFacts.

(** ** Futures that wait in a store *)
Section StoreFacts.
Import Core CoreMore.

Lemma waiting_refs_nil (sto : list Future) : waiting_refs sto [].
Proof. split; [constructor|]. intros i Hi. inversion Hi. Qed.

Lemma waiting_refs_lt (sto : list Future) (l : list fid) (i : fid) :
  waiting_refs sto l -> i ∈ l -> (i < length sto)%nat.
Proof.
  intros [_ H] Hi. destruct (H i Hi) as (f & Hf & _).
  eapply lookup_lt_Some, Hf.
Qed.

Lemma waiting_refs_alloc (sto : list Future) (l : list fid) (k : cls) :
  waiting_refs sto l -> waiting_refs (sto ++ [init k]) l.
Proof.
  intros [Hnd H]. split; [exact Hnd|]. intros i Hi.
  destruct (H i Hi) as (f & Hf & Hp). exists f. split; [|exact Hp].
  apply lookup_app_l_Some, Hf.
Qed.

Lemma waiting_refs_new (sto : list Future) (l1 l2 : list fid) :
  waiting_refs sto (l1 ++ l2) ->
  waiting_refs (sto ++ [init ClsFuture]) (l1 ++ length sto :: l2).
Proof.
  intros Hw. pose proof Hw as [Hnd H]. split.
  - apply NoDup_app in Hnd. destruct Hnd as (N1 & N12 & N2).
    apply NoDup_app. split; [exact N1|]. split.
    + intros x Hx Hin. apply elem_of_cons in Hin. destruct Hin as [->|Hin].
      * pose proof (waiting_refs_lt sto (l1 ++ l2) (length sto) Hw
                      ltac:(apply elem_of_app; auto)). lia.
      * exact (N12 x Hx Hin).
    + constructor; [|exact N2]. intros Hin.
      pose proof (waiting_refs_lt sto (l1 ++ l2) (length sto) Hw
                    ltac:(apply elem_of_app; auto)). lia.
  - intros i Hi. apply elem_of_app in Hi.
    destruct Hi as [Hi|Hi]; [|apply elem_of_cons in Hi; destruct Hi as [->|Hi]].
    + destruct (H i ltac:(apply elem_of_app; auto)) as (f & Hf & Hp).
      exists f. split; [apply lookup_app_l_Some, Hf|exact Hp].
    + exists (init ClsFuture). split; [|split; [reflexivity|exact I]].
      rewrite lookup_app_r by lia. rewrite Nat.sub_diag. reflexivity.
    + destruct (H i ltac:(apply elem_of_app; auto)) as (f & Hf & Hp).
      exists f. split; [apply lookup_app_l_Some, Hf|exact Hp].
Qed.

Lemma waiting_refs_insert (sto : list Future) (l : list fid) (i : fid) (f' : Future) :
  waiting_refs sto l -> i ∉ l -> waiting_refs (<[i := f']> sto) l.
Proof.
  intros [Hnd H] Hi. split; [exact Hnd|]. intros j Hj.
  destruct (H j Hj) as (f & Hf & Hp). exists f. split; [|exact Hp].
  rewrite list_lookup_insert_ne; [exact Hf|]. intros ->. contradiction.
Qed.

Lemma waiting_refs_sub (sto : list Future) (l l' : list fid) :
  waiting_refs sto l -> l' `sublist_of` l -> waiting_refs sto l'.
Proof.
  intros [Hnd H] Hs. split; [eapply sublist_NoDup; eassumption|].
  intros i Hi. apply H. eapply elem_of_sublist; eassumption.
Qed.

(** setResult through a reference to a pending future succeeds. *)
Lemma call_on_setResult (sto : list Future) (i : fid) (f : Future) (v : pyval) :
  sto !! i = Some f -> isDone f = false -> plain f ->
  exists effs f',
    call_on i (setResult v) sto = Ret effs (<[i := f']> sto)
    /\ isDone f' = true
    /\ (cb f = CbNone -> result f' = Some v /\ effs = []).
Proof.
  intros Hf Hd Hp. unfold call_on. rewrite Hf.
  destruct f as [k d c e r a]. cbn in Hd. subst d.
  unfold plain in Hp. cbn in Hp.
  destruct c as [|c|l]; [| |contradiction]; cbn; eexists _, _;
    (split; [reflexivity|]); split; try reflexivity; try discriminate.
  intros _. split; reflexivity.
Qed.

Lemma call_on_setError (sto : list Future) (i : fid) (f : Future) (e : exn) :
  sto !! i = Some f -> isDone f = false ->
  exists effs f',
    call_on i (setError e) sto = Ret effs (<[i := f']> sto)
    /\ isDone f' = true
    /\ (cb f = CbNone -> error f' = Some e /\ effs = []).
Proof.
  intros Hf Hd. unfold call_on. rewrite Hf.
  destruct f as [k d c e0 r a]. cbn in Hd. subst d.
  destruct c as [|c|l]; cbn; eexists _, _;
    (split; [reflexivity|]); split; try reflexivity; try discriminate.
  intros _. split; reflexivity.
Qed.

(** Resolving a pending future through a reference, awaited or not. *)
Lemma rt_setResult {T} (sto : list Future) (d : Events.Dispatcher) (s : T)
    (sch : list effect) (i : fid) (f : Future) (v : pyval) :
  sto !! i = Some f -> isDone f = false -> plain f ->
  Runtime.onFuture i (setResult v) (Runtime.mkEnv sto d s sch)
  = Ret tt (Runtime.mkEnv (<[i := state_of (setResult v f)]> sto) d s
              (sch ++ wakes_result f v))
  /\ isDone (state_of (setResult v f)) = true
  /\ (cb f = CbNone -> result (state_of (setResult v f)) = Some v).
Proof.
  intros Hf Hd Hp. destruct f as [k dn c e r a]. cbn in Hd. subst dn.
  unfold plain in Hp. cbn in Hp.
  unfold Runtime.onFuture, call_on, wakes_result. cbn [Runtime.store]. rewrite Hf.
  destruct c as [|c|l]; [| |contradiction]; cbn; repeat split; discriminate.
Qed.

Lemma rt_setError {T} (sto : list Future) (d : Events.Dispatcher) (s : T)
    (sch : list effect) (i : fid) (f : Future) (e : exn) :
  sto !! i = Some f -> isDone f = false ->
  Runtime.onFuture i (setError e) (Runtime.mkEnv sto d s sch)
  = Ret tt (Runtime.mkEnv (<[i := state_of (setError e f)]> sto) d s
              (sch ++ wakes_error f e))
  /\ isDone (state_of (setError e f)) = true
  /\ (cb f = CbNone -> error (state_of (setError e f)) = Some e).
Proof.
  intros Hf Hd. destruct f as [k dn c e0 r a]. cbn in Hd. subst dn.
  unfold Runtime.onFuture, call_on, wakes_error. cbn [Runtime.store]. rewrite Hf.
  destruct c as [|c|l]; cbn; repeat split; discriminate.
Qed.

End StoreFacts.

(** ** queue.py: the virtual size counts puts minus gets *)
Section QueueRunFacts.
Import Core PyQueue QueueVocab CoreMore QueueMore.

Lemma onFuture_setResult (st : QState) (i : fid) (f : Future) (v : pyval) :
  store st !! i = Some f -> isDone f = false -> plain f ->
  exists effs f',
    onFuture i (setResult v) st
    = Ret tt (mkQState (<[i := f']> (store st)) (queue st) (scheduled st ++ effs)).
Proof.
  intros Hf Hd Hp. unfold onFuture.
  destruct (call_on_setResult (store st) i f v Hf Hd Hp) as (effs & f' & Hc & _).
  rewrite Hc. eauto.
Qed.

Lemma deque_append_room (m : Z) (x : pyval) (l : list pyval) :
  Z.of_nat (length l) < m -> deque_append (Some m) x l = l ++ [x].
Proof.
  intros H. unfold deque_append.
  destruct (Z.eqb_spec m 0); [lia|].
  destruct (Z.ltb_spec (Z.of_nat (length l)) m); [reflexivity|lia].
Qed.

Lemma put_inv (st : QState) (v : pyval) :
  queue_inv st ->
  exists i st',
    put v st = Ret i st' /\ queue_inv st'
    /\ (sumSize (queue st') = sumSize (queue st) + 1
        /\ q_length (queue st') = q_length (queue st)).
Proof.
  destruct st as [sto [vals ml gw pw ql] sch]. unfold queue_inv, sumSize.
  cbn [queue store values maxlen getwaiters putwaiters q_length].
  intros (Hw & Hb & Hg & Hp).
  unfold put, mbind, qm_bind, getq, setq, mret, qm_ret, newFuture.
  cbn [queue store values maxlen getwaiters putwaiters q_length scheduled].
  destruct gw as [|g gs].
  - destruct (Z.ltb_spec (Z.of_nat (length vals)) ql) as [Hlt|Hge].
    + (* room in the buffer *)
      assert (Hpw : pw = []).
      { destruct pw as [|p pw]; [reflexivity|].
        specialize (Hp ltac:(discriminate)). lia. }
      subst pw.
      destruct Hb as [[-> _]|(H0 & -> & Hle)]; [lia|].
      rewrite deque_append_room by exact Hlt.
      eexists _, _. split; [reflexivity|].
      cbn [queue store values maxlen getwaiters putwaiters q_length set_values].
      rewrite length_app. cbn [length].
      split; [|split; [lia|reflexivity]].
      split; [exact Hw|]. split; [right; split; [lia|split; [reflexivity|lia]]|].
      split; [intros H; contradiction|intros H; contradiction].
    + (* the producer waits *)
      eexists _, _. split; [reflexivity|].
      cbn [queue store values maxlen getwaiters putwaiters q_length set_putwaiters].
      rewrite length_app. cbn [length]. split; [|split; [lia|reflexivity]].
      split.
      { rewrite fmap_app. cbn [fmap list_fmap fst app].
        cbn [app] in Hw.
        pose proof (waiting_refs_new sto (pw.*1) []) as H.
        rewrite app_nil_r in H. exact (H Hw). }
      split; [exact Hb|].
      split; [intros H; contradiction|intros _; exact Hge].
  - (* a consumer waits *)
    destruct (Hg ltac:(discriminate)) as [-> ->].
    cbn [fmap list_fmap] in Hw. rewrite app_nil_r in Hw.
    destruct Hw as [Hnd Hall].
    destruct (Hall g ltac:(apply elem_of_cons; auto)) as (f & Hf & Hd & Hpl).
    match goal with |- context [onFuture ?i ?m ?s] =>
      destruct (onFuture_setResult s i f v Hf Hd Hpl) as (effs & f' & Hc) end.
    rewrite Hc. eexists _, _. split; [reflexivity|].
    cbn [queue store values maxlen getwaiters putwaiters q_length set_getwaiters
         length fmap list_fmap].
    split; [|split; [lia|reflexivity]].
    split.
    { rewrite app_nil_r. apply waiting_refs_insert.
      - apply (waiting_refs_sub sto (g :: gs)); [split; assumption|].
        apply sublist_cons. reflexivity.
      - apply NoDup_cons in Hnd. tauto. }
    split; [exact Hb|].
    split; [intros _; split; reflexivity|intros H; contradiction].
Qed.

Lemma get_inv (st : QState) :
  queue_inv st ->
  exists i st',
    get st = Ret i st' /\ queue_inv st'
    /\ (sumSize (queue st') = sumSize (queue st) - 1
        /\ q_length (queue st') = q_length (queue st)).
Proof.
  destruct st as [sto [vals ml gw pw ql] sch]. unfold queue_inv, sumSize.
  cbn [queue store values maxlen getwaiters putwaiters q_length].
  intros (Hw & Hb & Hg & Hp).
  assert (Hnew : (sto ++ [init ClsFuture]) !! length sto = Some (init ClsFuture)).
  { rewrite lookup_app_r by lia. rewrite Nat.sub_diag. reflexivity. }
  unfold get, mbind, qm_bind, getq, setq, mret, qm_ret, newFuture.
  cbn [queue store values maxlen getwaiters putwaiters q_length scheduled].
  destruct pw as [|[b pv] ps].
  - destruct vals as [|x vs].
    + (* the consumer waits *)
      eexists _, _. split; [reflexivity|].
      cbn [queue store values maxlen getwaiters putwaiters q_length set_getwaiters
           fmap list_fmap length].
      rewrite length_app. cbn [length]. split; [|split; [lia|reflexivity]].
      cbn [fmap list_fmap] in Hw. rewrite !app_nil_r in *.
      split.
      { pose proof (waiting_refs_new sto gw []) as H.
        rewrite app_nil_r in H. exact (H Hw). }
      split; [exact Hb|].
      split; [intros _; split; reflexivity|intros H; contradiction].
    + (* a buffered value *)
      assert (Hgw : gw = []).
      { destruct gw as [|g gw]; [reflexivity|].
        destruct (Hg ltac:(discriminate)) as [H _]. discriminate. }
      subst gw.
      match goal with |- context [onFuture ?i ?m ?s] =>
        destruct (onFuture_setResult s i (init ClsFuture) x Hnew eq_refl I)
          as (effs & f' & Hc) end.
      rewrite Hc. eexists _, _. split; [reflexivity|].
      cbn [queue store values maxlen getwaiters putwaiters q_length set_values
           fmap list_fmap length app].
      cbn [length] in Hb.
      split; [|split; [lia|reflexivity]].
      split; [apply waiting_refs_nil|].
      split; [destruct Hb as [Hb|(?&?&?)]; [left; exact Hb|right; repeat split; [lia|assumption|lia]]|].
      split; [intros H; contradiction|intros H; contradiction].
  - (* a producer waits *)
    assert (Hgw : gw = []).
    { destruct gw as [|g gw]; [reflexivity|].
      destruct (Hg ltac:(discriminate)) as [_ H]. discriminate. }
    subst gw. cbn [app fmap list_fmap fst] in Hw.
    specialize (Hp ltac:(discriminate)).
    pose proof Hw as [Hnd Hall].
    destruct (Hall b ltac:(apply elem_of_cons; auto)) as (f & Hf & Hd & Hpl).
    assert (Hbl : (b < length sto)%nat) by (eapply lookup_lt_Some, Hf).
    assert (Hb' : (sto ++ [init ClsFuture]) !! b = Some f)
      by (apply lookup_app_l_Some, Hf).
    assert (Hrefs : forall f1 f2,
      waiting_refs (<[length sto := f2]> (<[b := f1]> (sto ++ [init ClsFuture])))
                   (ps.*1)).
    { intros f1 f2. apply waiting_refs_insert.
      - apply waiting_refs_insert.
        + apply waiting_refs_alloc.
          apply (waiting_refs_sub sto (b :: ps.*1)); [exact Hw|].
          apply sublist_cons. reflexivity.
        + apply NoDup_cons in Hnd. tauto.
      - intros Hin.
        pose proof (waiting_refs_lt sto _ (length sto) Hw
                      ltac:(apply elem_of_cons; right; exact Hin)). lia. }
    destruct (Z.ltb_spec 0 ql) as [Hpos|Hnpos].
    + destruct Hb as [[-> _]|(H0 & -> & Hle)]; [lia|].
      destruct vals as [|x vs]; [cbn in Hp; lia|].
      cbn [length] in Hle, Hp.
      cbn [queue store values maxlen getwaiters putwaiters q_length scheduled
           set_putwaiters set_values].
      rewrite deque_append_room by lia.
      match goal with |- context [onFuture b ?m ?s] =>
        destruct (onFuture_setResult s b f VNone Hb' Hd Hpl) as (effs & f' & Hc) end.
      rewrite Hc.
      match goal with |- context [onFuture (length sto) ?m ?s] =>
        destruct (onFuture_setResult s (length sto) (init ClsFuture) pv)
          as (effs2 & f2 & Hc2) end.
      { cbn [store]. rewrite list_lookup_insert_ne by lia. exact Hnew. }
      { reflexivity. }
      { exact I. }
      rewrite Hc2. eexists _, _. split; [reflexivity|].
      cbn [queue store values maxlen getwaiters putwaiters q_length app length
           set_values set_putwaiters].
      rewrite !length_app. cbn [length].
      split; [|split; [lia|reflexivity]].
      split; [apply Hrefs|].
      split; [right; split; [lia|split; [reflexivity|lia]]|].
      split; [intros H; contradiction|intros _; lia].
    + cbn [queue store values maxlen getwaiters putwaiters q_length scheduled
           set_putwaiters].
      match goal with |- context [onFuture b ?m ?s] =>
        destruct (onFuture_setResult s b f VNone Hb' Hd Hpl) as (effs & f' & Hc) end.
      rewrite Hc.
      match goal with |- context [onFuture (length sto) ?m ?s] =>
        destruct (onFuture_setResult s (length sto) (init ClsFuture) pv)
          as (effs2 & f2 & Hc2) end.
      { cbn [store]. rewrite list_lookup_insert_ne by lia. exact Hnew. }
      { reflexivity. }
      { exact I. }
      rewrite Hc2. eexists _, _. split; [reflexivity|].
      cbn [queue store values maxlen getwaiters putwaiters q_length app length
           set_values set_putwaiters].
      split; [|split; [lia|reflexivity]].
      split; [apply Hrefs|].
      split; [exact Hb|].
      split; [intros H; contradiction|intros _; exact Hp].
Qed.

Lemma start_inv (n : Z) (q : Queue) : Queue_init n = inr q -> queue_inv (start q).
Proof.
  unfold Queue_init. intros H.
  destruct (Z.eqb_spec n (-1)) as [->|Hn].
  - inversion H; subst. unfold queue_inv. cbn.
    split; [apply waiting_refs_nil|]. split; [left; auto|].
    split; intros; contradiction.
  - destruct (Z.ltb_spec n 0); [discriminate|]. inversion H; subst.
    unfold queue_inv. cbn.
    split; [apply waiting_refs_nil|]. split; [right; repeat split; lia|].
    split; intros; contradiction.
Qed.

Lemma qexec_inv (ops : list qop) : forall st,
  queue_inv st ->
  exists st',
    qexec ops st = Ret tt st' /\ queue_inv st'
    /\ sumSize (queue st') = sumSize (queue st) + balance ops
    /\ q_length (queue st') = q_length (queue st).
Proof.
  induction ops as [|[v|] ops IH]; intros st Hinv; cbn [qexec balance].
  - exists st. split; [reflexivity|]. split; [exact Hinv|]. split; [lia|reflexivity].
  - destruct (put_inv st v Hinv) as (i & st1 & -> & Hinv1 & Hs1 & Hl1).
    destruct (IH st1 Hinv1) as (st' & -> & Hinv' & Hs' & Hl').
    exists st'. split; [reflexivity|]. split; [exact Hinv'|]. split; [lia|congruence].
  - destruct (get_inv st Hinv) as (i & st1 & -> & Hinv1 & Hs1 & Hl1).
    destruct (IH st1 Hinv1) as (st' & -> & Hinv' & Hs' & Hl').
    exists st'. split; [reflexivity|]. split; [exact Hinv'|]. split; [lia|congruence].
Qed.

Lemma Queue_init_start (n : Z) (q : Queue) :
  Queue_init n = inr q ->
  q_length (queue (start q)) = n /\ sumSize (queue (start q)) = 0.
Proof.
  unfold Queue_init. intros H.
  destruct (n =? -1); [inversion H; subst; split; reflexivity|].
  destruct (n <? 0); [discriminate|]. inversion H; subst. split; reflexivity.
Qed.

(** X8.  On a queue built by Queue(n), n >= -1, no sequence of put and
    get raises, and afterwards the virtual size sumSize is the number
    of puts minus the number of gets: positive while values or
    producers wait, negative while consumers wait.  The buffer never
    holds more than n values, consumers wait only at an empty queue,
    and producers only at a full buffer. *)
Theorem queue_sumSize_balance (n : Z) (q : Queue) (ops : list qop) :
  Queue_init n = inr q ->
  exists st,
    qexec ops (start q) = Ret tt st
    /\ sumSize (queue st) = balance ops
    /\ (0 <= n -> Z.of_nat (length (values (queue st))) <= n)
    /\ (getwaiters (queue st) <> [] ->
        values (queue st) = [] /\ putwaiters (queue st) = [])
    /\ (putwaiters (queue st) <> [] -> n <= Z.of_nat (length (values (queue st)))).
Proof.
  intros Hq.
  destruct (qexec_inv ops (start q) (start_inv n q Hq))
    as (st & Hr & Hinv & Hs & Hl).
  destruct (Queue_init_start n q Hq) as [Hn H0].
  exists st. split; [exact Hr|].
  destruct Hinv as (_ & Hb & Hg & Hp). rewrite Hl, Hn in *.
  split; [lia|].
  split; [intros Hpos; destruct Hb as [[? _]|(_ & _ & ?)]; lia|].
  split; assumption.
Qed.

Lemma queue_sumSize_balance_witness :
  exists st,
    qexec [Put (VInt 1); Get; Get; Get] (start (queue bounded2)) = Ret tt st
    /\ sumSize (queue st) = -2.
Proof.
  destruct (queue_sumSize_balance 2 (queue bounded2) [Put (VInt 1); Get; Get; Get]
              eq_refl) as (st & Hr & Hs & _).
  exists st. split; [exact Hr|exact Hs].
Defined.

End QueueRunFacts.
Section QueueFifoFacts.
Import Core PyQueue QueueVocab CoreMore QueueMore.

Lemma put_all_buffered (n : Z) (vs : list pyval) : forall sto buf sch,
  Z.of_nat (length buf) + Z.of_nat (length vs) <= n ->
  put_all vs (mkQState sto (mkQueue buf (Some n) [] [] n) sch)
  = Ret (replicate (length vs) doneFuture)
        (mkQState sto (mkQueue (buf ++ vs) (Some n) [] [] n) sch).
Proof.
  induction vs as [|v vs IH]; intros sto buf sch Hle; cbn [put_all].
  - rewrite app_nil_r. reflexivity.
  - cbn [length] in Hle.
    unfold mbind, qm_bind, mret, qm_ret.
    assert (Hput : put v (mkQState sto (mkQueue buf (Some n) [] [] n) sch)
                   = Ret doneFuture (mkQState sto (mkQueue (buf ++ [v]) (Some n) [] [] n) sch)).
    { unfold put, mbind, qm_bind, getq, setq, mret, qm_ret. cbn -[deque_append].
      destruct (Z.ltb_spec (Z.of_nat (length buf)) n); [|lia].
      rewrite deque_append_room by lia. reflexivity. }
    rewrite Hput. rewrite IH by (rewrite length_app; cbn; lia).
    rewrite <- app_assoc. reflexivity.
Qed.

Lemma get_n_buffered (vs : list pyval) : forall sto rest ml n sch,
  exists sto' sch',
    get_n (length vs) (mkQState sto (mkQueue (vs ++ rest) ml [] [] n) sch)
    = Ret (seq (length sto) (length vs))
          (mkQState sto' (mkQueue rest ml [] [] n) sch')
    /\ length sto' = (length sto + length vs)%nat
    /\ (forall i, (i < length sto)%nat -> sto' !! i = sto !! i)
    /\ (forall (k : nat) v, vs !! k = Some v ->
          result_at (length sto + k)%nat sto' = Some v).
Proof.
  induction vs as [|v vs IH]; intros sto rest ml n sch; cbn [get_n length].
  - exists sto, sch. split; [reflexivity|]. split; [lia|].
    split; [reflexivity|]. intros k v H. rewrite lookup_nil in H. discriminate.
  - assert (Hnew : (sto ++ [init ClsFuture]) !! length sto = Some (init ClsFuture)).
    { rewrite lookup_app_r by lia. rewrite Nat.sub_diag. reflexivity. }
    assert (Hget : exists f' effs,
              get (mkQState sto (mkQueue ((v :: vs) ++ rest) ml [] [] n) sch)
              = Ret (length sto)
                  (mkQState (<[length sto := f']> (sto ++ [init ClsFuture]))
                            (mkQueue (vs ++ rest) ml [] [] n) (sch ++ effs))
              /\ result f' = Some v).
    { destruct (call_on_setResult (sto ++ [init ClsFuture]) (length sto)
                  (init ClsFuture) v Hnew eq_refl I) as (effs & f' & Hc & _ & Hcb).
      exists f', effs. split; [|apply Hcb; reflexivity].
      unfold get, mbind, qm_bind, getq, setq, mret, qm_ret, newFuture, onFuture.
      cbn [queue store values maxlen getwaiters putwaiters q_length scheduled app
           set_values].
      rewrite Hc. reflexivity. }
    destruct Hget as (f' & effs & Hget & Hf').
    unfold mbind, qm_bind, mret, qm_ret. rewrite Hget.
    destruct (IH (<[length sto := f']> (sto ++ [init ClsFuture])) rest ml n (sch ++ effs))
      as (sto' & sch' & Hr & Hlen & Hold & Hres).
    rewrite length_insert, length_app in Hr, Hlen, Hold, Hres. cbn [length] in *.
    replace (length sto + 1)%nat with (S (length sto)) in * by lia.
    rewrite Hr. exists sto', sch'. split; [reflexivity|]. split; [lia|].
    split.
    + intros i Hi. rewrite Hold by lia.
      rewrite list_lookup_insert_ne by lia. apply lookup_app_l. exact Hi.
    + intros k w Hk. destruct k as [|k]; cbn in Hk.
      * inversion Hk; subst w. rewrite Nat.add_0_r.
        unfold result_at. rewrite Hold by lia.
        rewrite list_lookup_insert_eq by (rewrite length_app; cbn; lia).
        exact Hf'.
      * replace (length sto + S k)%nat with (S (length sto) + k)%nat by lia.
        apply Hres, Hk.
Qed.

Lemma map_seq_lookup (f : nat -> option pyval) (vs : list pyval) : forall base,
  (forall (k : nat) v, vs !! k = Some v -> f (base + k)%nat = Some v) ->
  map f (seq base (length vs)) = map Some vs.
Proof.
  induction vs as [|v vs IH]; intros base H; cbn; [reflexivity|].
  rewrite <- (Nat.add_0_r base) at 1. rewrite (H 0%nat v eq_refl).
  f_equal. apply IH. intros k w Hk.
  replace (S base + k)%nat with (base + S k)%nat by lia. apply H. exact Hk.
Qed.

(** X9.  Within its capacity a bounded queue is first-in first-out:
    on a fresh Queue(n), up to n puts all complete at once (each
    returns the shared done future), and as many gets then deliver the
    values in the order they were put. *)
Theorem queue_fifo_within_capacity (n : Z) (q : Queue) (vs : list pyval) :
  Queue_init n = inr q ->
  Z.of_nat (length vs) <= n ->
  exists st1 gs st2,
    put_all vs (start q) = Ret (replicate (length vs) doneFuture) st1
    /\ get_n (length vs) st1 = Ret gs st2
    /\ map (fun g => delivered g st2) gs = map Some vs
    /\ values (queue st2) = [].
Proof.
  intros Hq Hle. unfold Queue_init in Hq.
  destruct (Z.eqb_spec n (-1)) as [->|Hn]; [lia|].
  destruct (Z.ltb_spec n 0); [discriminate|]. inversion Hq; subst q. clear Hq.
  unfold start.
  rewrite (put_all_buffered n vs _ [] []) by (cbn; lia).
  cbn [app].
  destruct (get_n_buffered vs [state_of (setResult VNone (init ClsFuture))]
              [] (Some n) n []) as (sto' & sch' & Hr & Hlen & Hold & Hres).
  rewrite app_nil_r in Hr.
  eexists _, _, _. split; [reflexivity|]. split; [exact Hr|].
  split; [|reflexivity].
  apply map_seq_lookup. intros k v Hk.
  unfold delivered. cbn [store].
  pose proof (Hres k v Hk) as H'. unfold result_at in H'. exact H'.
Qed.

Lemma queue_fifo_within_capacity_witness :
  exists st1 gs st2,
    put_all [VInt 1; VInt 2] (start (queue bounded2)) = Ret [doneFuture; doneFuture] st1
    /\ get_n 2 st1 = Ret gs st2
    /\ map (fun g => delivered g st2) gs = [Some (VInt 1); Some (VInt 2)].
Proof.
  destruct (queue_fifo_within_capacity 2 (queue bounded2) [VInt 1; VInt 2] eq_refl)
    as (st1 & gs & st2 & H1 & H2 & H3 & _); [cbn; lia|].
  exists st1, gs, st2. auto.
Defined.

End QueueFifoFacts.

(** ** aux.py: RoundRobin and RecurringEvent *)
Section RoundRobinFacts.
Import Core Runtime Aux CoreMore AuxMore.

Lemma rt_onFuture_setResult {T} (st : Env T) (i : fid) (f : Future) (v : pyval) :
  store st !! i = Some f -> isDone f = false -> plain f ->
  exists effs f',
    Runtime.onFuture i (setResult v) st
    = Ret tt (mkEnv (<[i := f']> (store st)) (dispatcher st) (self st)
                    (scheduled st ++ effs))
    /\ isDone f' = true
    /\ (cb f = CbNone -> result f' = Some v).
Proof.
  intros Hf Hd Hp. unfold Runtime.onFuture.
  destruct (call_on_setResult (store st) i f v Hf Hd Hp) as (effs & f' & Hc & Hd' & Hr).
  rewrite Hc. exists effs, f'. split; [reflexivity|]. split; [exact Hd'|].
  intros H. apply Hr, H.
Qed.

Lemma waiting_refs_snoc (sto : list Future) (l : list fid) :
  waiting_refs sto l -> waiting_refs (sto ++ [init ClsFuture]) (l ++ [length sto]).
Proof.
  intros H. apply (waiting_refs_new sto l []). rewrite app_nil_r. exact H.
Qed.

Lemma waiting_refs_pop (sto : list Future) (i : fid) (l : list fid) (f' : Future) :
  waiting_refs sto (i :: l) -> waiting_refs (<[i := f']> sto) l.
Proof.
  intros H. apply waiting_refs_insert.
  - apply (waiting_refs_sub sto (i :: l)); [exact H|]. apply sublist_cons. reflexivity.
  - destruct H as [Hnd _]. apply NoDup_cons in Hnd. tauto.
Qed.

Lemma swap_inv (v : pyval) (st : Env RoundRobin) :
  rr_inv st ->
  exists m st', swap v st = Ret m st' /\ rr_inv st'
                /\ count (self st') = count (self st).
Proof.
  destruct st as [sto d [ws c] sch]. unfold rr_inv.
  cbn [store self waiting count]. intros [Hw Hc].
  pose proof (waiting_refs_snoc sto ws Hw) as Hw'.
  unfold swap, mbind, om_bind, mret, om_ret, get_self, set_self, new.
  cbn [store self waiting count dispatcher scheduled].
  rewrite length_app. cbn [length].
  destruct (Z.eqb_spec (Z.of_nat (length ws + 1)) c) as [E|E].
  - destruct (ws ++ [length sto]) as [|first rest] eqn:Hws.
    { destruct ws; discriminate. }
    destruct Hw' as [Hnd Hall].
    destruct (Hall first ltac:(apply elem_of_cons; auto)) as (f & Hf & Hd & Hp).
    pose proof (Hws : @app fid ws (@cons fid (length sto) (@nil fid)) = first :: rest)
      as Hws'.
    rewrite Hws'. cbn [store self waiting count dispatcher scheduled].
    match goal with |- context [Runtime.onFuture ?i ?m ?s] =>
      destruct (rt_onFuture_setResult s i f v Hf Hd Hp) as (effs & f' & Hr & _) end.
    rewrite Hr. eexists _, _. split; [reflexivity|].
    cbn [store self waiting count]. split; [|reflexivity].
    split; [apply waiting_refs_pop; split; assumption|].
    intros _. apply (f_equal length) in Hws. rewrite length_app in Hws.
    cbn [length] in Hws. lia.
  - eexists _, _. split; [reflexivity|].
    cbn [store self waiting count]. split; [|reflexivity].
    split; [exact Hw'|]. intros H1. specialize (Hc H1).
    rewrite length_app. cbn [length]. lia.
Qed.

Lemma done_inv (v : pyval) (st : Env RoundRobin) :
  rr_inv st ->
  exists st', done v st = Ret tt st' /\ rr_inv st'
              /\ count (self st') = count (self st) - 1.
Proof.
  destruct st as [sto d [ws c] sch]. unfold rr_inv.
  cbn [store self waiting count]. intros [Hw Hc].
  unfold done, mbind, om_bind, mret, om_ret, get_self, set_self.
  cbn [store self waiting count dispatcher scheduled].
  destruct (Z.ltb_spec 0 (c - 1)) as [Hpos|Hnp]; cbn [andb].
  - destruct (Z.eqb_spec (Z.of_nat (length ws)) (c - 1)) as [E|E].
    + destruct ws as [|first rest]; [cbn in E; lia|].
      destruct Hw as [Hnd Hall].
      destruct (Hall first ltac:(apply elem_of_cons; auto)) as (f & Hf & Hd & Hp).
      match goal with |- context [Runtime.onFuture ?i ?m ?s] =>
        destruct (rt_onFuture_setResult s i f v Hf Hd Hp) as (effs & f' & Hr & _) end.
      rewrite Hr. eexists. split; [reflexivity|].
      cbn [store self waiting count]. split; [|reflexivity].
      split; [apply waiting_refs_pop; split; assumption|].
      intros _. cbn [length] in E. lia.
    + eexists. split; [reflexivity|].
      cbn [store self waiting count]. split; [|reflexivity].
      split; [exact Hw|]. intros _. specialize (Hc ltac:(lia)). lia.
  - eexists. split; [reflexivity|].
    cbn [store self waiting count]. split; [|reflexivity].
    split; [exact Hw|]. intros H1. lia.
Qed.

Lemma rrrun_inv (ops : list rrop) : forall st,
  rr_inv st -> exists st', rrrun ops st = Ret tt st' /\ rr_inv st'.
Proof.
  induction ops as [|[v|v] ops IH]; intros st Hinv; cbn [rrrun rrstep].
  - exists st. auto.
  - destruct (swap_inv v st Hinv) as (m & st1 & -> & Hinv1 & _). apply IH, Hinv1.
  - destruct (done_inv v st Hinv) as (st1 & -> & Hinv1 & _). apply IH, Hinv1.
Qed.

(** X10.  RoundRobin.  From RoundRobin(n), no sequence of swap and done
    raises, every waiter still held is a distinct pending future, and
    while the count is at least 1 fewer than count callers wait. *)
Theorem roundrobin_waiters_below_count (n : Z) (ops : list rrop) :
  exists st,
    rrrun ops (RoundRobin_init n) = Ret tt st
    /\ waiting_refs (store st) (waiting (self st))
    /\ (1 <= count (self st) ->
        Z.of_nat (length (waiting (self st))) < count (self st)).
Proof.
  destruct (rrrun_inv ops (RoundRobin_init n)) as (st & Hr & Hw & Hc).
  { split; [apply waiting_refs_nil|]. cbn. lia. }
  exists st. auto.
Qed.



End RoundRobinFacts.

Section RecurringEventFacts.
Import Core Runtime Aux CoreMore AuxMore.

Lemma timers_of_cons (h : Events.handle) (y : Z * Events.entry)
    (hp : list (Z * Events.entry)) :
  timers_of h (y :: hp)
  = ((if (y.2.1 =? h)%nat then 1 else 0) + timers_of h hp)%nat.
Proof.
  unfold timers_of. rewrite filter_cons.
  destruct (Nat.eqb_spec (y.2.1) h) as [E|E]; case_decide; try contradiction;
    reflexivity.
Qed.

Lemma timers_of_heappush (h : Events.handle) (x : Z * Events.entry)
    (hp : list (Z * Events.entry)) :
  timers_of h (Events.heappush x hp)
  = (timers_of h hp + (if (x.2.1 =? h)%nat then 1 else 0))%nat.
Proof.
  induction hp as [|y hp IH]; cbn [Events.heappush].
  - rewrite timers_of_cons. unfold timers_of. rewrite filter_nil. cbn [length]. lia.
  - destruct (x.1 <? y.1).
    + rewrite (timers_of_cons h x). lia.
    + rewrite !(timers_of_cons h y), IH. lia.
Qed.

Lemma take_timer_Some (h : Events.handle) (hp hp' : list (Z * Events.entry)) :
  take_timer h hp = Some hp' -> timers_of h hp = S (timers_of h hp').
Proof.
  revert hp'.
  induction hp as [|[key [h' args]] hp IH]; intros hp'; cbn [take_timer]; [discriminate|].
  rewrite timers_of_cons. cbn [snd fst].
  destruct (h' =? h)%nat eqn:E.
  - intros [= <-]. reflexivity.
  - destruct (take_timer h hp) as [r|]; [|discriminate].
    intros [= <-]. rewrite timers_of_cons. cbn [snd fst]. rewrite E.
    cbn [Nat.add]. apply IH. reflexivity.
Qed.

Lemma take_timer_None (h : Events.handle) (hp : list (Z * Events.entry)) :
  take_timer h hp = None -> timers_of h hp = 0%nat.
Proof.
  induction hp as [|[key [h' args]] hp IH]; cbn [take_timer]; [reflexivity|].
  rewrite timers_of_cons. cbn [snd fst].
  destruct (h' =? h)%nat eqn:E; [discriminate|].
  destruct (take_timer h hp) as [r|]; [discriminate|]. intros _. apply IH. reflexivity.
Qed.

Lemma schedule_timers (w : Events.World) (st : Env RecurringEvent) :
  exists st',
    schedule w st = Ret tt st'
    /\ self st' = self st
    /\ timers_of (self_id (self st)) (Events.heap (dispatcher st'))
       = S (timers_of (self_id (self st)) (Events.heap (dispatcher st))).
Proof.
  destruct st as [sto d r sch].
  unfold schedule, mbind, om_bind, get_self, onDispatcher.
  cbn [store self dispatcher scheduled].
  eexists. split; [reflexivity|]. cbn [self dispatcher]. split; [reflexivity|].
  unfold Events.scheduleHandleByTime. cbn [Events.heap Events.set_heap Events.set_clockReads].
  rewrite timers_of_heappush. cbn [snd fst]. rewrite Nat.eqb_refl. lia.
Qed.

(** One call of begin or stop, described by what it does to the number
    of timers and to the two flags. *)
Lemma evstep_cases (w : Events.World) (c : evcall) (st : Env RecurringEvent) :
  let h := self_id (self st) in
  let t := timers_of h (Events.heap (dispatcher st)) in
  let st' := evstep w c st in
  let t' := timers_of h (Events.heap (dispatcher st')) in
  self_id (self st') = h
  /\ called (self st') = called (self st)
  /\ match c with
     | CallBegin =>
         if stopping (self st)
         then t' = t /\ running (self st') = running (self st)
              /\ stopping (self st') = false
         else if running (self st)
              then t' = t /\ running (self st') = true /\ stopping (self st') = false
              else t' = S t /\ running (self st') = true /\ stopping (self st') = false
     | CallStop =>
         t' = t /\ running (self st') = running (self st)
         /\ stopping (self st') = (if running (self st) then true else stopping (self st))
     end.
Proof.
  cbv zeta. unfold evstep. destruct st as [sto d [iv run stp h n] sch].
  cbn [self dispatcher self_id running stopping called].
  destruct c.
  - unfold begin, mbind, om_bind, get_self, set_self, raise.
    cbn [store self dispatcher scheduled self_id running stopping interval called].
    destruct stp; [cbn; auto|].
    destruct run; [cbn; auto|].
    match goal with |- context [schedule w ?s] =>
      destruct (schedule_timers w s) as (st' & Hr & Hself & Htim) end.
    rewrite Hr. cbn [state_of]. rewrite Hself.
    cbn [self self_id running stopping called dispatcher] in *. auto.
  - unfold stop, mbind, om_bind, get_self, set_self, raise.
    cbn [store self dispatcher scheduled self_id running stopping interval called].
    destruct run; cbn; auto.
Qed.

Lemma inside_self_id (w : Events.World) (inside : list evcall) :
  forall st : Env RecurringEvent,
    self_id (self (fold_left (fun st c => evstep w c st) inside st))
    = self_id (self st).
Proof.
  induction inside as [|c inside IH]; intros st; cbn [fold_left]; [reflexivity|].
  rewrite IH. apply (evstep_cases w c st).
Qed.

(** The calls a callback makes on its running event leave it running
    and set no timer. *)
Lemma inside_running (w : Events.World) (inside : list evcall) :
  forall st : Env RecurringEvent,
    running (self st) = true ->
    let st' := fold_left (fun st c => evstep w c st) inside st in
    self_id (self st') = self_id (self st)
    /\ called (self st') = called (self st)
    /\ timers_of (self_id (self st)) (Events.heap (dispatcher st'))
       = timers_of (self_id (self st)) (Events.heap (dispatcher st))
    /\ running (self st') = true.
Proof.
  induction inside as [|c inside IH]; intros st Hrun; cbn [fold_left].
  - auto.
  - pose proof (evstep_cases w c st) as Hc. cbv zeta in Hc.
    destruct Hc as (Hid & Hcalled & Hc). rewrite Hrun in Hc.
    assert (Hstep : timers_of (self_id (self st)) (Events.heap (dispatcher (evstep w c st)))
                    = timers_of (self_id (self st)) (Events.heap (dispatcher st))
                    /\ running (self (evstep w c st)) = true).
    { destruct c.
      - destruct (stopping (self st)); destruct Hc as (-> & -> & _); auto.
      - destruct Hc as (-> & -> & _). auto. }
    destruct Hstep as [Ht Hr].
    specialize (IH (evstep w c st) Hr). cbv zeta in IH.
    rewrite Hid, Hcalled, Ht in IH. exact IH.
Qed.

(** One step, described by what it does to the number of timers and
    to the two flags; [s] is the stopping flag as the callback leaves
    it. *)
Lemma restep_cases (w : Events.World) (o : reop) (st : Env RecurringEvent) :
  let h := self_id (self st) in
  let t := timers_of h (Events.heap (dispatcher st)) in
  let st' := restep w o st in
  let t' := timers_of h (Events.heap (dispatcher st')) in
  self_id (self st') = h
  /\ match o with
     | Begin =>
         if stopping (self st)
         then t' = t /\ running (self st') = running (self st)
              /\ stopping (self st') = false
         else if running (self st)
              then t' = t /\ running (self st') = true /\ stopping (self st') = false
              else t' = S t /\ running (self st') = true /\ stopping (self st') = false
     | Stop =>
         t' = t /\ running (self st') = running (self st)
         /\ stopping (self st') = (if running (self st) then true else stopping (self st))
     | Fire inside outcome =>
         match t with
         | O => t' = t /\ self st' = self st
         | S t0 =>
             running (self st) = true ->
             called (self st') = S (called (self st))
             /\ exists s : bool,
                  (inside = [] -> s = stopping (self st))
                  /\ match outcome with
                     | Some _ =>
                         t' = t0 /\ running (self st') = true /\ stopping (self st') = s
                     | None =>
                         if s
                         then t' = t0 /\ running (self st') = false
                              /\ stopping (self st') = false
                         else t' = S t0 /\ running (self st') = true
                              /\ stopping (self st') = false
                     end
         end
     end.
Proof.
  cbv zeta. destruct o as [| |inside outcome].
  - destruct (evstep_cases w CallBegin st) as (H1 & _ & H2). split; assumption.
  - destruct (evstep_cases w CallStop st) as (H1 & _ & H2). split; assumption.
  - unfold restep, fire. destruct st as [sto d [iv run stp h n] sch].
    cbn [store self dispatcher scheduled self_id running stopping called].
    destruct (take_timer h (Events.heap d)) as [hp|] eqn:Htake.
    + rewrite (take_timer_Some _ _ _ Htake).
      unfold call, mbind, om_bind, get_self, set_self.
      cbn [store self dispatcher scheduled self_id running stopping interval called].
      pose proof (inside_self_id w inside
                    (mkEnv sto (Events.set_heap hp d)
                           (mkRecurringEvent iv run stp h (S n)) sch)) as F1.
      pose proof (inside_running w inside
                    (mkEnv sto (Events.set_heap hp d)
                           (mkRecurringEvent iv run stp h (S n)) sch)) as F2.
      cbv zeta in F2.
      cbn [self dispatcher self_id running called Events.heap Events.set_heap] in F1, F2.
      assert (F3 : inside = [] ->
                stopping (self (fold_left (fun st c => evstep w c st) inside
                                  (mkEnv sto (Events.set_heap hp d)
                                     (mkRecurringEvent iv run stp h (S n)) sch)))
                = stp).
      { intros ->. reflexivity. }
      destruct (fold_left (fun st c => evstep w c st) inside
                  (mkEnv sto (Events.set_heap hp d)
                         (mkRecurringEvent iv run stp h (S n)) sch))
        as [sto1 d1 [iv1 run1 stp1 h1 n1] sch1].
      cbn [self dispatcher self_id running stopping called] in F1, F2, F3.
      subst h1.
      destruct outcome as [e|].
      * unfold raise. cbn [state_of self self_id dispatcher called running stopping].
        split; [reflexivity|]. intros Hr. destruct (F2 Hr) as (_ & -> & Ht & ->).
        split; [reflexivity|]. exists stp1.
        split; [intros Hi; exact (F3 Hi)|]. auto.
      * cbn [store self dispatcher scheduled self_id running stopping interval called].
        destruct stp1.
        -- cbn [state_of self self_id dispatcher called running stopping].
           split; [reflexivity|]. intros Hr. destruct (F2 Hr) as (_ & -> & Ht & ->).
           split; [reflexivity|]. exists true.
           split; [intros Hi; exact (F3 Hi)|]. auto.
        -- match goal with |- context [schedule w ?s] =>
             destruct (schedule_timers w s) as (st' & Hs & Hself & Htim) end.
           rewrite Hs. cbn [state_of]. rewrite Hself.
           cbn [self self_id running stopping dispatcher called] in *.
           split; [reflexivity|]. intros Hr. destruct (F2 Hr) as (_ & -> & Ht & ->).
           split; [reflexivity|]. exists false.
           split; [intros Hi; exact (F3 Hi)|].
           rewrite Htim, Ht. auto.
    + pose proof (take_timer_None _ _ Htake) as H0. rewrite H0. cbn. auto.
Qed.







(** X13.  RecurringEvent.stop and __call__.  After stop on a running
    event (not stopping, its one timer set) the timer still calls the
    callback once more when it expires, and no timer of the event
    remains.  For a callback that makes no call on the event: if it
    returns, the event leaves the running state; if it raises, the
    event stays running and stopping, with no timer to end that. *)
Theorem recurring_event_stop_calls_once_more (w : Events.World)
    (st : Env RecurringEvent) (outcome : option exn) :
  running (self st) = true -> stopping (self st) = false ->
  timers_of (self_id (self st)) (Events.heap (dispatcher st)) = 1%nat ->
  let st' := rerun w [Stop; Fire [] outcome] st in
  called (self st') = S (called (self st))
  /\ timers_of (self_id (self st)) (Events.heap (dispatcher st')) = 0%nat
  /\ match outcome with
     | None => running (self st') = false /\ stopping (self st') = false
     | Some _ => running (self st') = true /\ stopping (self st') = true
     end.
Proof.
  intros Hr Hs Ht. cbv zeta. unfold rerun. cbn [fold_left].
  pose proof (restep_cases w Stop st) as H1. cbv zeta in H1.
  rewrite Hr in H1. cbv iota in H1. destruct H1 as (Hid1 & Ht1 & Hr1 & Hs1).
  pose proof (restep_cases w (Fire [] outcome) (restep w Stop st)) as H2.
  cbv zeta in H2.
  rewrite Hid1, Ht1, Ht in H2. destruct H2 as (Hid2 & H2).
  destruct (H2 Hr1) as (Hc & s & Hnil & Hm).
  specialize (Hnil eq_refl). rewrite Hs1 in Hnil. subst s.
  assert (Hcalled : called (self (restep w Stop st)) = called (self st)).
  { destruct st as [sto d [iv run stp h n] sch]. cbn in Hr. subst run. reflexivity. }
  rewrite Hcalled in Hc. split; [exact Hc|].
  destruct outcome as [e|].
  - destruct Hm as (H3 & H4 & H5). split; [exact H3|]. auto.
  - destruct Hm as (H3 & H4 & H5). split; [exact H3|]. auto.
Qed.

Lemma recurring_event_stop_calls_once_more_witness :
  let st := rerun EventsMore.world100 [Begin]
              (mkEnv [] Events.init (RecurringEvent_init 5 7%nat) []) in
  let st' := rerun EventsMore.world100 [Stop; Fire [] (Some ValueError)] st in
  called (self st') = 1%nat /\ running (self st') = true /\ stopping (self st') = true.
Proof.
  cbv zeta.
  destruct (recurring_event_stop_calls_once_more EventsMore.world100
              (rerun EventsMore.world100 [Begin]
                 (mkEnv [] Events.init (RecurringEvent_init 5 7%nat) []))
              (Some ValueError))
    as (H1 & _ & H2 & H3); try reflexivity.
  split; [exact H1|]. split; [exact H2|exact H3].
Defined.

End RecurringEventFacts.

(** ** aux.py: EventQueue *)
Section EventQueueFacts.
Import Core Runtime Aux CoreMore AuxMore EventsMore.

Lemma lookup_snoc_last {A} (l : list A) (x : A) : (l ++ [x]) !! length l = Some x.
Proof. rewrite lookup_app_r by lia. rewrite Nat.sub_diag. reflexivity. Qed.

Lemma insert_snoc_last {A} (l : list A) (x y : A) :
  <[length l := y]> (l ++ [x]) = l ++ [y].
Proof.
  rewrite insert_app_r_alt by lia. rewrite Nat.sub_diag. reflexivity.
Qed.






Lemma awaited_barrier_cb (waiters : list cbref) : forall b : Future,
  match cb b with CbOne _ => False | _ => True end ->
  isDone (awaited_barrier waiters b) = isDone b
  /\ cb (awaited_barrier waiters b)
     = match waiters with
       | [] => cb b
       | _ => CbList (match cb b with CbList l => l | _ => [] end ++ waiters)
       end.
Proof.
  unfold awaited_barrier.
  induction waiters as [|c cs IH]; intros b Hb; cbn [fold_left]; [auto|].
  destruct b as [k dn cbs e r a]. cbn [cb isDone] in *.
  destruct cbs as [|c0|l]; [|contradiction|].
  - change (state_of (Barrier_setCallback c (mkFuture k dn CbNone e r a)))
      with (mkFuture k dn (CbList [c]) e r a).
    destruct (IH (mkFuture k dn (CbList [c]) e r a) I) as [H1 H2].
    cbn [cb isDone] in H1, H2.
    split; [exact H1|]. rewrite H2. destruct cs; reflexivity.
  - change (state_of (Barrier_setCallback c (mkFuture k dn (CbList l) e r a)))
      with (mkFuture k dn (CbList (l ++ [c])) e r a).
    destruct (IH (mkFuture k dn (CbList (l ++ [c])) e r a) I) as [H1 H2].
    cbn [cb isDone] in H1, H2.
    split; [exact H1|]. rewrite H2.
    destruct cs; [reflexivity|]. rewrite <- app_assoc. reflexivity.
Qed.

Lemma attach_barrier_at {T} (d : Events.Dispatcher) (s : T) (sch : list effect)
    (waiters : list cbref) (i : fid) : forall (sto : list Future) (b : Future),
  sto !! i = Some b ->
  match cb b with CbOne _ => False | _ => True end ->
  attach_barrier waiters i (mkEnv sto d s sch)
  = Ret tt (mkEnv (<[i := awaited_barrier waiters b]> sto) d s sch).
Proof.
  induction waiters as [|c cs IH]; intros sto b Hb Hc.
  - cbn. unfold mret, om_ret. f_equal. f_equal. symmetry. apply list_insert_id, Hb.
  - cbn [attach_barrier]. unfold mbind, om_bind.
    assert (Hset : onFuture (T := T) i (Barrier_setCallback c) (mkEnv sto d s sch)
                   = Ret tt (mkEnv (<[i := state_of (Barrier_setCallback c b)]> sto)
                               d s sch)).
    { unfold onFuture, call_on. cbn [store]. rewrite Hb.
      unfold Barrier_setCallback.
      destruct (cb b); [|contradiction|]; cbn; rewrite app_nil_r; reflexivity. }
    rewrite Hset.
    rewrite (IH _ (state_of (Barrier_setCallback c b))).
    + rewrite list_insert_insert_eq. reflexivity.
    + apply list_lookup_insert_eq. eapply lookup_lt_Some, Hb.
    + unfold Barrier_setCallback. destruct (cb b); [|contradiction|]; exact I.
Qed.

Lemma release_wakes (how : Core.call -> effect) (waiters : list cbref) :
  wakes_release how (awaited_barrier waiters (init ClsBarrier))
  = map (fun c => how (Send c VNone)) waiters.
Proof.
  unfold wakes_release.
  rewrite (proj2 (awaited_barrier_cb waiters (init ClsBarrier) I)).
  destruct waiters; reflexivity.
Qed.

Lemma awaited_barrier_pending (waiters : list cbref) :
  isDone (awaited_barrier waiters (init ClsBarrier)) = false
  /\ match cb (awaited_barrier waiters (init ClsBarrier)) with
     | CbOne _ => False
     | _ => True
     end.
Proof.
  destruct (awaited_barrier_cb waiters (init ClsBarrier) I) as [H1 H2].
  rewrite H1, H2. split; [reflexivity|]. destruct waiters; exact I.
Qed.


Lemma handle_resolves (sto : list Future) (d : Events.Dispatcher) (q : EventQueue)
    (sch : list effect) (fut : fid) (rest : list fid) (f : Future)
    (inner : exn + pyval) :
  queue q = fut :: rest ->
  sto !! fut = Some f -> isDone f = false -> plain f ->
  inner <> inl IOEventAbort ->
  EventQueue_handle inner (mkEnv sto d q sch)
  = after_try (mkEnv (<[fut := settle inner f]> sto) d (set_queue rest q)
                 (sch ++ wakes inner f)).
Proof.
  intros Hq Hf Hd Hp Hin.
  unfold EventQueue_handle, after_try, mbind, om_bind, get_self, try_except.
  cbn [self]. rewrite Hq.
  unfold set_self, mret, om_ret. cbn [store dispatcher self scheduled].
  destruct inner as [e|v]; cbn [settle wakes].
  - unfold raise.
    destruct (rt_setError sto d (set_queue rest q) sch fut f e Hf Hd) as [He _].
    destruct e; try (exfalso; apply Hin; reflexivity); rewrite He; reflexivity.
  - destruct (rt_setResult sto d (set_queue rest q) sch fut f v Hf Hd Hp) as [He _].
    rewrite He. reflexivity.
Qed.

Lemma settle_done (inner : exn + pyval) (f : Future) :
  isDone f = false -> plain f -> isDone (settle inner f) = true.
Proof.
  intros Hd Hp. destruct f as [k dn c e r a]. cbn in Hd. subst dn.
  unfold plain in Hp. cbn in Hp.
  destruct inner, c; try contradiction; reflexivity.
Qed.

Lemma settle_stored (inner : exn + pyval) (f : Future) :
  isDone f = false -> cb f = CbNone ->
  match inner with
  | inr v => result (settle inner f) = Some v
  | inl e => error (settle inner f) = Some e
  end.
Proof.
  intros Hd Hc. destruct f as [k dn c e r a]. cbn in Hd, Hc. subst dn c.
  destruct inner; reflexivity.
Qed.



(** X15.  EventQueue.__handle with several waiters, and an inner
    handle that returns a value or raises an exception other than
    IOEventAbort.  The oldest waiter, a pending Future that its caller
    waits on or not, is the only one served: it is done, holds the value or the exception when
    nobody waits on it, and otherwise the send or __cbError for its
    callback is scheduled at high priority.  The other futures and
    the barrier are untouched, the remaining waiters keep their order,
    and the handle stays registered: handle table and poller do not
    change. *)
Theorem eventqueue_handle_oldest_first (st : Env EventQueue) (fut nxt : fid)
    (rest : list fid) (f : Future) (inner : exn + pyval) :
  queue (self st) = fut :: nxt :: rest ->
  store st !! fut = Some f -> isDone f = false -> plain f ->
  inner <> inl IOEventAbort ->
  exists st',
    EventQueue_handle inner st = Ret tt st'
    /\ done_at fut (store st') = true
    /\ (cb f = CbNone ->
        match inner with
        | inr v => result_at fut (store st') = Some v
        | inl e => error_at fut (store st') = Some e
        end)
    /\ scheduled st'
       = scheduled st
         ++ match cb f, inner with
            | CbOne c, inr v => [SchedHigh (Send c v)]
            | CbOne _, inl e => [SchedHigh (CbError e)]
            | _, _ => []
            end
    /\ queue (self st') = nxt :: rest
    /\ (forall j, j <> fut -> store st' !! j = store st !! j)
    /\ Events.handles (dispatcher st') = Events.handles (dispatcher st)
    /\ Events.pollingObject (dispatcher st') = Events.pollingObject (dispatcher st).
Proof.
  destruct st as [sto d q sch]. cbn [self store dispatcher scheduled].
  intros Hq Hf Hd Hp Hin.
  rewrite (handle_resolves sto d q sch fut (nxt :: rest) f inner Hq Hf Hd Hp Hin).
  unfold after_try, mbind, om_bind, get_self, mret, om_ret.
  cbn [self queue set_queue length Nat.eqb].
  eexists. split; [reflexivity|]. cbn [store self dispatcher scheduled queue set_queue].
  pose proof (lookup_lt_Some _ _ _ Hf) as Hlt.
  unfold result_at, error_at, done_at. rewrite list_lookup_insert_eq by exact Hlt.
  cbn [mbind option_bind].
  split; [apply settle_done; assumption|].
  split; [intros Hc; apply settle_stored; assumption|].
  split.
  { f_equal. unfold wakes, wakes_result, wakes_error, plain in *.
    destruct (cb f), inner; try contradiction; reflexivity. }
  split; [reflexivity|].
  split; [|split; reflexivity]. intros j Hj. apply list_lookup_insert_ne. congruence.
Qed.

Lemma eventqueue_handle_oldest_first_witness :
  let st := mkEnv [init ClsBarrier; set_cb (CbOne 4%nat) (init ClsFuture); init ClsFuture]
                  Events.init
                  (mkEventQueue [1; 2]%nat 0%nat 5 Events.EPOLLIN false 9%nat) [] in
  exists st',
    EventQueue_handle (inl ValueError) st = Ret tt st'
    /\ done_at 1%nat (store st') = true
    /\ scheduled st' = [SchedHigh (CbError ValueError)]
    /\ queue (self st') = [2%nat].
Proof.
  cbv zeta.
  destruct (eventqueue_handle_oldest_first
              (mkEnv [init ClsBarrier; set_cb (CbOne 4%nat) (init ClsFuture);
                      init ClsFuture] Events.init
                     (mkEventQueue [1; 2]%nat 0%nat 5 Events.EPOLLIN false 9%nat) [])
              1%nat 2%nat [] (set_cb (CbOne 4%nat) (init ClsFuture)) (inl ValueError))
    as (st' & H1 & H2 & _ & H3 & H4 & _); try reflexivity; try discriminate;
    try exact I.
  exists st'. auto.
Defined.

Lemma release_fresh_barrier {T} (sto : list Future) (d : Events.Dispatcher) (s : T)
    (sch : list effect) (i : fid) (b : Future) :
  sto !! i = Some b -> isDone b = false -> cb b = CbNone ->
  onFuture i release (mkEnv sto d s sch)
  = Ret tt (mkEnv (<[i := set_isDone true b]> sto) d s sch).
Proof.
  intros Hb Hd Hcb. destruct b as [k dn c e r a]. cbn in Hd, Hcb. subst dn c.
  unfold onFuture, call_on. cbn [store]. rewrite Hb. cbn. rewrite app_nil_r.
  reflexivity.
Qed.

Lemma release_done_barrier {T} (sto : list Future) (d : Events.Dispatcher) (s : T)
    (sch : list effect) (i : fid) (b : Future) :
  sto !! i = Some b -> isDone b = true ->
  onFuture i release (mkEnv sto d s sch) = Raise AssertionError (mkEnv sto d s sch).
Proof.
  intros Hb Hd. destruct b as [k dn c e r a]. cbn in Hd. subst dn.
  unfold onFuture, call_on. cbn [store]. rewrite Hb. cbn.
  f_equal. f_equal. apply list_insert_id, Hb.
Qed.

Lemma done_at_lookup (sto : list Future) (i : fid) (f : Future) :
  sto !! i = Some f -> done_at i sto = isDone f.
Proof. unfold done_at. intros ->. reflexivity. Qed.

Lemma result_at_lookup (sto : list Future) (i : fid) (f : Future) :
  sto !! i = Some f -> result_at i sto = result f.
Proof. unfold result_at. intros ->. reflexivity. Qed.

Lemma error_at_lookup (sto : list Future) (i : fid) (f : Future) :
  sto !! i = Some f -> error_at i sto = error f.
Proof. unfold error_at. intros ->. reflexivity. Qed.

Lemma setError_pending {T} (sto : list Future) (d : Events.Dispatcher) (s : T)
    (sch : list effect) (i : fid) (f : Future) (e : exn) :
  sto !! i = Some f -> isDone f = false -> cb f = CbNone ->
  onFuture i (setError e) (mkEnv sto d s sch)
  = Ret tt (mkEnv (<[i := resolved (inl e) f]> sto) d s sch).
Proof.
  intros Hf Hd Hcb. destruct f as [k dn c e0 r a]. cbn in Hd, Hcb. subst dn c.
  unfold onFuture, call_on. cbn [store]. rewrite Hf. cbn. rewrite app_nil_r.
  reflexivity.
Qed.

(** X16.  EventQueue.close on a queue nobody waits on.  The barrier is
    released at once.  From then on a get returns a future that
    already carries the error "EventQueue is closed" and registers
    nothing; a second close raises AttributeError, for the attribute
    name closeBarrie; and forceClose raises AssertionError, because
    it releases the barrier a second time. *)
Theorem eventqueue_close_idle (sto : list Future) (d : Events.Dispatcher)
    (fd mk : Z) (h : Events.handle) :
  exists st1,
    EventQueue_close (EventQueue_init sto d fd mk h) = Ret (length sto) st1
    /\ done_at (length sto) (store st1) = true
    /\ (exists st2,
          EventQueue_get st1 = Ret (S (length sto)) st2
          /\ error_at (S (length sto)) (store st2)
             = Some (PlainException "EventQueue is closed")
          /\ queue (self st2) = []
          /\ dispatcher st2 = d)
    /\ EventQueue_close st1 = Raise (AttributeError "closeBarrie") st1
    /\ EventQueue_forceClose st1 = Raise AssertionError st1.
Proof.
  unfold EventQueue_init.
  exists (mkEnv (sto ++ [set_isDone true (init ClsBarrier)]) d
                (mkEventQueue [] (length sto) fd mk true h) []).
  split.
  { unfold EventQueue_close, mbind, om_bind, get_self, set_self, mret, om_ret.
    cbn [self closing store dispatcher scheduled set_closing queue closeBarrier
         fileNumber mask handle_id length Nat.eqb].
    rewrite (release_fresh_barrier _ _ _ _ _ (init ClsBarrier)
               (lookup_snoc_last sto _) eq_refl eq_refl).
    rewrite insert_snoc_last. reflexivity. }
  cbn [store]. split.
  { unfold done_at. rewrite lookup_snoc_last. reflexivity. }
  split.
  { unfold EventQueue_get, mbind, om_bind, new, get_self, set_self, mret, om_ret.
    cbn [self closing store dispatcher scheduled].
    rewrite (setError_pending _ _ _ _ _ (init ClsFuture) _
               (lookup_snoc_last _ _) eq_refl eq_refl).
    rewrite insert_snoc_last.
    assert (Hlen : length (sto ++ [set_isDone true (init ClsBarrier)]) = S (length sto)).
    { rewrite length_app. cbn. lia. }
    rewrite Hlen. eexists. split; [reflexivity|].
    cbn [store self dispatcher queue]. split; [|split; reflexivity].
    unfold error_at. rewrite <- Hlen, lookup_snoc_last. reflexivity. }
  split.
  { reflexivity. }
  unfold EventQueue_forceClose, mbind, om_bind, get_self, set_self, mret, om_ret.
  cbn [self closing store dispatcher scheduled set_closing queue closeBarrier
       fileNumber mask handle_id length Nat.ltb Nat.leb].
  rewrite (release_done_barrier _ _ _ _ _ (set_isDone true (init ClsBarrier))
             (lookup_snoc_last sto _) eq_refl).
  reflexivity.
Qed.



(** X18.  EventQueue.forceClose with callers waiting.  The handle is
    unregistered, the queue marked closing, the barrier released, and
    the waiting futures are handed out oldest first and left as they
    are: none of them is resolved by forceClose itself. *)
Theorem eventqueue_forceClose_yields_waiters (st : Env EventQueue)
    (fut : fid) (rest : list fid) (b : Future) (d' : Events.Dispatcher) :
  queue (self st) = fut :: rest ->
  store st !! closeBarrier (self st) = Some b -> isDone b = false -> cb b = CbNone ->
  Events.unregisterFileEvent (fileNumber (self st)) (mask (self st)) (dispatcher st)
  = Ret tt d' ->
  exists st',
    EventQueue_forceClose st = Ret (fut :: rest) st'
    /\ queue (self st') = [] /\ closing (self st') = true
    /\ done_at (closeBarrier (self st)) (store st') = true
    /\ dispatcher st' = d'
    /\ (forall j, j <> closeBarrier (self st) -> store st' !! j = store st !! j).
Proof.
  destruct st as [sto d [qu cbid fd mk cl h] sch].
  cbn [self store dispatcher queue closing fileNumber mask handle_id closeBarrier].
  intros -> Hb Hd Hcb Hun.
  unfold EventQueue_forceClose, mbind, om_bind, get_self, set_self, mret, om_ret,
    onDispatcher.
  cbn [self closing store dispatcher scheduled set_closing queue closeBarrier
       fileNumber mask handle_id length Nat.ltb Nat.leb].
  rewrite Hun.
  cbn [self closing store dispatcher scheduled set_closing queue closeBarrier
       fileNumber mask handle_id].
  rewrite (release_fresh_barrier _ _ _ _ _ b Hb Hd Hcb).
  eexists. split; [reflexivity|].
  cbn [self store dispatcher queue closing set_queue].
  pose proof (lookup_lt_Some _ _ _ Hb) as Hl.
  unfold done_at. rewrite list_lookup_insert_eq by exact Hl.
  repeat split. intros j Hj. apply list_lookup_insert_ne. congruence.
Qed.

Lemma eventqueue_forceClose_yields_waiters_witness :
  let st := state_of (EventQueue_get
                        (EventQueue_init [] Events.init 5 Events.EPOLLIN 9%nat)) in
  exists st',
    EventQueue_forceClose st = Ret [1%nat] st'
    /\ done_at 0%nat (store st') = true
    /\ done_at 1%nat (store st') = false.
Proof.
  cbv zeta.
  destruct (eventqueue_forceClose_yields_waiters
              (state_of (EventQueue_get
                           (EventQueue_init [] Events.init 5 Events.EPOLLIN 9%nat)))
              1%nat [] (init ClsBarrier) Events.init)
    as (st' & H1 & _ & _ & H2 & _ & H3); try reflexivity.
  exists st'. split; [exact H1|]. split; [exact H2|].
  unfold done_at. rewrite H3 by discriminate. reflexivity.
Defined.

End EventQueueFacts.

(** ** streams.py: WriteWrapper *)
Section WriteWrapperFacts.
Import Core Runtime Streams CoreMore StreamsMore EventsMore.

Lemma pending_size_app (l1 l2 : list waiter) :
  pending_size (l1 ++ l2) = pending_size l1 + pending_size l2.
Proof.
  unfold pending_size. induction l1 as [|x l1 IH]; cbn [app foldr]; [reflexivity|].
  rewrite IH. lia.
Qed.

Lemma pending_size_nonneg (l : list waiter) : 0 <= pending_size l.
Proof.
  unfold pending_size. induction l as [|x l IH]; cbn [foldr]; lia.
Qed.

Lemma pending_size_zero (l : list waiter) :
  Forall (fun w : waiter => w.1.2 <> []) l -> pending_size l = 0 -> l = [].
Proof.
  intros Hne Hz. destruct l as [|[[f b] t] l]; [reflexivity|].
  apply Forall_cons in Hne. destruct Hne as [Hb _]. cbn in Hb.
  pose proof (pending_size_nonneg l) as Hl.
  unfold pending_size in *. cbn [foldr fst snd] in Hz.
  destruct b; [contradiction|]. cbn [length] in Hz. lia.
Qed.

Lemma same_waiters_refl (l : list waiter) : same_waiters l l.
Proof. apply Forall_Forall2_diag, Forall_forall. intros; split; reflexivity. Qed.

Lemma drainLoop_progress (fo : FileObject) (Hfo : accepts_part fo) :
  forall (post pre : list waiter) (fuel k : nat) (sto : list Future)
         (d : Events.Dispatcher) (w : WriteWrapper) (sch : list effect),
    writeWaiters w = pre ++ post ->
    writeWaitingSize w = pending_size post ->
    Forall (fun x : waiter => x.1.2 <> []) post ->
    (length post < fuel)%nat ->
    exists (j : nat) (post' : list waiter),
      drain_plan fo k post = (j, post')
      /\ drainLoop fo fuel (length pre) k (mkEnv sto d w sch)
         = ((length pre + j)%nat,
            Ret tt (mkEnv sto d
                      (set_writeWaiters (pre ++ take j post ++ post')
                         (set_writeWaitingSize (pending_size post') w)) sch))
      /\ (j <= length post)%nat
      /\ same_waiters post' (drop j post)
      /\ Forall (fun x : waiter => x.1.2 <> []) post'
      /\ ((forall k b, os_write fo k b = inr (Z.of_nat (length b))) -> post' = []).
Proof.
  destruct Hfo as [Hw _].
  induction post as [|[[f b] t] post IH]; intros pre fuel k sto d w sch Hws Hsz Hne Hfuel.
  - exists 0%nat, []. destruct w as [ws sz cl fn hd]. cbn in Hws, Hsz. subst ws sz.
    split; [reflexivity|].
    split; [|split; [cbn; lia|split; [constructor|split; [constructor|reflexivity]]]].
    rewrite Nat.add_0_r. destruct fuel; reflexivity.
  - apply Forall_cons in Hne. destruct Hne as [Hb Hne]. cbn [fst snd] in Hb.
    destruct fuel as [|fuel]; [cbn in Hfuel; lia|].
    destruct w as [ws sz cl fn hd]. cbn [writeWaiters writeWaitingSize] in Hws, Hsz.
    subst ws sz.
    pose proof (pending_size_nonneg post) as Hpn.
    assert (Hblen : 0 < Z.of_nat (length b)) by (destruct b; [contradiction|cbn; lia]).
    change (pending_size ((f, b, t) :: post))
      with (Z.of_nat (length b) + pending_size post).
    cbn [drainLoop self writeWaiters writeWaitingSize store dispatcher scheduled].
    destruct (Z.leb_spec (Z.of_nat (length b) + pending_size post) 0) as [Hle|_]; [lia|].
    match goal with |- context [?l !! ?i] =>
      assert (Hlk : l !! i = Some (f, b, t))
        by (apply list_lookup_middle; reflexivity) end.
    rewrite Hlk.
    destruct (Hw k b) as (n & Hn & Hrange). rewrite Hn.
    destruct (Z.ltb_spec n (Z.of_nat (length b))) as [Hlt|Hge].
    + exists 0%nat, ((f, drop (Z.to_nat n) b, t) :: post).
      split.
      { cbn [drain_plan]. rewrite Hn, (proj2 (Z.ltb_lt _ _) Hlt). reflexivity. }
      split; [|split; [cbn; lia|split; [|split]]].
      * rewrite Nat.add_0_r. unfold set_writeWaiters, set_writeWaitingSize.
        cbn [writeWaiters writeWaitingSize writeClosing fileno handle_id take app].
        f_equal. f_equal. f_equal. f_equal.
        -- rewrite insert_app_r_alt by (unfold waiter; lia).
           unfold waiter. rewrite Nat.sub_diag. reflexivity.
        -- change (pending_size ((f, drop (Z.to_nat n) b, t) :: post))
             with (Z.of_nat (length (drop (Z.to_nat n) b)) + pending_size post).
           rewrite length_drop. lia.
      * cbn [drop]. constructor; [split; reflexivity|apply same_waiters_refl].
      * constructor; [|exact Hne]. cbn [fst snd]. intros Hd.
        apply (f_equal length) in Hd. rewrite length_drop in Hd. cbn in Hd. lia.
      * intros Hall. rewrite Hall in Hn. injection Hn as Hn. lia.
    + assert (n = Z.of_nat (length b)) by lia. subst n.
      destruct (IH (pre ++ [(f, b, t)]) fuel (S k) sto d
                  (mkWriteWrapper (pre ++ (f, b, t) :: post)
                     (Z.of_nat (length b) + pending_size post - Z.of_nat (length b))
                     cl fn hd) sch)
        as (j & post' & Hplan & Hr & Hj & Hsame & Hne' & Hall).
      { cbn. rewrite <- app_assoc. reflexivity. }
      { cbn. lia. }
      { exact Hne. }
      { cbn in Hfuel. lia. }
      exists (S j), post'.
      split.
      { cbn [drain_plan]. rewrite Hn, Z.ltb_irrefl, Hplan. reflexivity. }
      split; [|split; [cbn; lia|split; [exact Hsame|split; [exact Hne'|exact Hall]]]].
      rewrite length_app in Hr. cbn [length] in Hr.
      replace (length pre + 1)%nat with (S (length pre)) in Hr by lia.
      etransitivity; [exact Hr|].
      replace (S (length pre) + j)%nat with (length pre + S j)%nat by lia.
      unfold set_writeWaiters, set_writeWaitingSize.
      cbn [writeWaiters writeWaitingSize writeClosing fileno handle_id take].
      rewrite <- app_assoc. reflexivity.
Qed.

Lemma fut_elem_of (x : waiter) (ws : list waiter) :
  x ∈ ws -> x.1.1 ∈ map (fun y : waiter => y.1.1) ws.
Proof.
  intros Hx. apply list_elem_of_In. apply (in_map (fun y : waiter => y.1.1) ws x).
  apply list_elem_of_In, Hx.
Qed.

Lemma wakes_all_ext (sto sto' : list Future) (ws : list waiter) :
  (forall i : fid, i ∈ map (fun x : waiter => x.1.1) ws -> sto' !! i = sto !! i) ->
  wakes_all sto' ws = wakes_all sto ws.
Proof.
  unfold wakes_all. induction ws as [|x ws IH]; intros H; [reflexivity|].
  cbn [flat_map map] in *.
  rewrite (H x.1.1) by (apply elem_of_cons; left; reflexivity).
  rewrite IH; [reflexivity|]. intros i Hi. apply H. apply elem_of_cons. right. exact Hi.
Qed.

Lemma fails_all_ext (e : exn) (sto sto' : list Future) (ws : list waiter) :
  (forall i : fid, i ∈ map (fun x : waiter => x.1.1) ws -> sto' !! i = sto !! i) ->
  fails_all e sto' ws = fails_all e sto ws.
Proof.
  unfold fails_all. induction ws as [|x ws IH]; intros H; [reflexivity|].
  cbn [flat_map map] in *.
  rewrite (H x.1.1) by (apply elem_of_cons; left; reflexivity).
  rewrite IH; [reflexivity|]. intros i Hi. apply H. apply elem_of_cons. right. exact Hi.
Qed.

Lemma resolveDone_all :
  forall (done rest : list waiter) (sto : list Future) (d : Events.Dispatcher)
         (w : WriteWrapper) (sch : list effect),
    writeWaiters w = done ++ rest ->
    NoDup (map (fun x : waiter => x.1.1) done) ->
    Forall (fun x : waiter =>
              exists f, sto !! x.1.1 = Some f /\ isDone f = false /\ plain f)
           done ->
    exists sto',
      resolveDone (length done) (mkEnv sto d w sch)
      = (0%nat, Ret tt (mkEnv sto' d (set_writeWaiters rest w)
                          (sch ++ wakes_all sto done)))
      /\ Forall (served sto sto') done
      /\ (forall i : fid, i ∉ map (fun x : waiter => x.1.1) done ->
                          sto' !! i = sto !! i).
Proof.
  induction done as [|[[f b] t] done IH]; intros rest sto d w sch Hws Hnd Hp.
  - exists sto. destruct w as [ws sz cl fn hd]. cbn in Hws. subst ws.
    split; [cbn; rewrite app_nil_r; reflexivity|].
    split; [constructor|reflexivity].
  - destruct w as [ws sz cl fn hd]. cbn [writeWaiters] in Hws. subst ws.
    cbn [map fst snd] in Hnd. apply NoDup_cons in Hnd. destruct Hnd as [Hnin Hnd].
    apply Forall_cons in Hp. destruct Hp as [(fu & Hfu & Hdn & Hpl) Hp].
    cbn [fst snd] in Hfu.
    destruct (rt_setResult sto d
                (set_writeWaiters (done ++ rest)
                   (mkWriteWrapper ((f, b, t) :: done ++ rest) sz cl fn hd))
                sch f fu (VInt t) Hfu Hdn Hpl) as (Hset & Hdone & Hres).
    assert (Hother : forall i : fid, i ∈ map (fun x : waiter => x.1.1) done ->
                       (<[f := state_of (setResult (VInt t) fu)]> sto) !! i = sto !! i).
    { intros i Hi. apply list_lookup_insert_ne. intros ->. exact (Hnin Hi). }
    destruct (IH rest
                (<[f := state_of (setResult (VInt t) fu)]> sto) d
                (set_writeWaiters (done ++ rest)
                                  (mkWriteWrapper ((f, b, t) :: done ++ rest) sz cl fn hd))
                (sch ++ wakes_result fu (VInt t)) eq_refl Hnd)
      as (sto' & Hr & Hres' & Hsame).
    { apply Forall_forall. intros x Hx.
      rewrite Forall_forall in Hp. destruct (Hp x Hx) as (fx & Hfx & Hrest).
      exists fx. split; [|exact Hrest].
      rewrite (Hother _ (fut_elem_of _ _ Hx)). exact Hfx. }
    exists sto'. split; [|split].
    + cbn [length resolveDone self writeWaiters app].
      unfold mbind, om_bind, set_self.
      cbn [store dispatcher self scheduled].
      match goal with |- context [onFuture f ?m ?s] =>
        replace (onFuture f m s) with
          (@Ret (Env WriteWrapper) unit tt
             (mkEnv (<[f := state_of (setResult (VInt t) fu)]> sto) d
                (set_writeWaiters (done ++ rest)
                   (mkWriteWrapper ((f, b, t) :: done ++ rest) sz cl fn hd))
                (sch ++ wakes_result fu (VInt t))))
          by (symmetry; exact Hset) end.
      etransitivity; [exact Hr|].
      rewrite (wakes_all_ext sto _ done Hother).
      unfold wakes_all at 2. cbn [flat_map fst snd]. rewrite Hfu.
      rewrite <- app_assoc. reflexivity.
    + constructor.
      * unfold served, done_at, result_at. cbn [fst snd].
        rewrite (Hsame f Hnin).
        rewrite list_lookup_insert_eq by (eapply lookup_lt_Some, Hfu).
        split; [exact Hdone|]. intros f0 Hf0 Hc.
        assert (f0 = fu) by congruence. subst f0. exact (Hres Hc).
      * apply Forall_forall. intros x Hx. rewrite Forall_forall in Hres'.
        destruct (Hres' x Hx) as [H1 H2]. split; [exact H1|].
        intros f0 Hf0 Hc. apply (H2 f0); [|exact Hc].
        rewrite (Hother _ (fut_elem_of _ _ Hx)). exact Hf0.
    + intros i Hi. cbn [map fst snd] in Hi. apply not_elem_of_cons in Hi.
      destruct Hi as [Hne Hi]. rewrite (Hsame i Hi).
      apply list_lookup_insert_ne. congruence.
Qed.

Lemma same_waiters_futs (l1 l2 : list waiter) :
  same_waiters l1 l2 ->
  map (fun x : waiter => x.1.1) l1 = map (fun x : waiter => x.1.1) l2.
Proof.
  induction 1 as [|x y l1 l2 [Hf _] _ IH]; cbn [map]; [reflexivity|].
  rewrite Hf, IH. reflexivity.
Qed.

Lemma NoDup_futs_split (j : nat) (ws : list waiter) :
  NoDup (map (fun x : waiter => x.1.1) ws) ->
  NoDup (map (fun x : waiter => x.1.1) (take j ws))
  /\ NoDup (map (fun x : waiter => x.1.1) (drop j ws))
  /\ (forall i : fid, i ∈ map (fun x : waiter => x.1.1) (drop j ws) ->
                      i ∉ map (fun x : waiter => x.1.1) (take j ws)).
Proof.
  intros Hnd. rewrite <- (take_drop j ws), map_app in Hnd.
  apply NoDup_app in Hnd. destruct Hnd as (H1 & H12 & H2).
  split; [exact H1|]. split; [exact H2|]. intros i Hi Hi'. exact (H12 i Hi' Hi).
Qed.

Lemma handleWriteFrom_tail (fo : FileObject) (mask : Z) (st st1 : Env WriteWrapper)
    (n : nat) :
  handleWriteFrom_try fo mask st = (n, Ret tt st1) ->
  handleWriteFrom fo mask st = after_write (writeWaitingSize (self st)) st1.
Proof.
  intros Htry. unfold handleWriteFrom, after_write, mbind, om_bind, get_self.
  rewrite Htry. reflexivity.
Qed.

Lemma ww_inv_ok (st : Env WriteWrapper) : ww_inv st -> ww_ok st.
Proof.
  unfold ww_inv, ww_ok. intros (H1 & H2 & H3 & H4).
  split; [exact H1|]. split; [exact H2|]. split; [exact H3|].
  eapply Forall_impl; [exact H4|]. intros x (f & Hf & Hd & Hc).
  exists f. split; [exact Hf|]. split; [exact Hd|]. unfold plain. rewrite Hc. exact I.
Qed.

Lemma ww_ok_alloc (sto : list Future) (d d0 : Events.Dispatcher) (w : WriteWrapper)
    (sch sch0 : list effect) (f : Future) :
  ww_ok (mkEnv sto d w sch) -> ww_ok (mkEnv (sto ++ [f]) d0 w sch0).
Proof.
  unfold ww_ok. cbn [self store]. intros (H1 & H2 & H3 & H4).
  split; [exact H1|]. split; [exact H2|]. split; [exact H3|].
  eapply Forall_impl; [exact H4|]. intros x (fx & Hfx & Hr).
  exists fx. split; [apply lookup_app_l_Some, Hfx|exact Hr].
Qed.

Lemma futs_below (sto : list Future) (ws : list waiter) :
  Forall (fun x : waiter =>
            exists f, sto !! x.1.1 = Some f /\ isDone f = false /\ plain f) ws ->
  forall i : fid, i ∈ map (fun x : waiter => x.1.1) ws -> (i < length sto)%nat.
Proof.
  intros Hp i Hin. apply list_elem_of_In, in_map_iff in Hin.
  destruct Hin as (y & Hy & Hin). apply list_elem_of_In in Hin.
  rewrite Forall_forall in Hp. destruct (Hp y Hin) as (fy & Hfy & _).
  apply lookup_lt_Some in Hfy. subst i. exact Hfy.
Qed.

(** The try block of one readiness callback on a well-formed wrapper
    whose file object takes part of what it is given: the waiters and
    the counter become what [drain_plan] reads off the answers of the
    file, the first [j] waiters are served and leave the deque, the
    others stay. *)
Lemma handleWriteFrom_try_progress (fo : FileObject) (mask : Z)
    (sto : list Future) (d : Events.Dispatcher) (w : WriteWrapper)
    (sch : list effect) :
  accepts_part fo ->
  Z.land mask Events.errorCheckingMask = 0 ->
  ww_ok (mkEnv sto d w sch) ->
  exists (j : nat) (rest' : list waiter) (sto' : list Future),
    drain_plan fo 0 (writeWaiters w) = (j, rest')
    /\ handleWriteFrom_try fo mask (mkEnv sto d w sch)
       = (0%nat,
          Ret tt (mkEnv sto' d
                    (set_writeWaiters rest' (set_writeWaitingSize (pending_size rest') w))
                    (sch ++ wakes_all sto (take j (writeWaiters w)))))
    /\ (j <= length (writeWaiters w))%nat
    /\ same_waiters rest' (drop j (writeWaiters w))
    /\ Forall (fun x : waiter => x.1.2 <> []) rest'
    /\ Forall (served sto sto') (take j (writeWaiters w))
    /\ (forall i : fid, i ∉ map (fun x : waiter => x.1.1) (take j (writeWaiters w)) ->
                        sto' !! i = sto !! i)
    /\ ((forall k b, os_write fo k b = inr (Z.of_nat (length b))) -> rest' = []).
Proof.
  intros Hfo Hmask Hinv.
  destruct w as [ws sz cl fn hd].
  unfold ww_ok in Hinv.
  cbn [self store writeWaiters writeWaitingSize writeClosing fileno] in *.
  destruct Hinv as (Hsz & Hne & Hnd & Hp).
  destruct (drainLoop_progress fo Hfo ws [] (S (length ws)) 0%nat sto d
              (mkWriteWrapper ws sz cl fn hd) sch eq_refl Hsz Hne (Nat.lt_succ_diag_r _))
    as (j & rest' & Hplan & Hdr & Hj & Hsame & Hne' & Hall).
  cbn [length Nat.add app] in Hdr.
  destruct (NoDup_futs_split j ws Hnd) as (Hnd1 & Hnd2 & Hdisj).
  destruct (resolveDone_all (take j ws) rest' sto d
              (set_writeWaiters (take j ws ++ rest')
                 (set_writeWaitingSize (pending_size rest')
                    (mkWriteWrapper ws sz cl fn hd))) sch eq_refl Hnd1
              (Forall_take _ _ _ Hp))
    as (sto' & Hres & Hvals & Hkeep).
  rewrite length_take_le in Hres by exact Hj.
  exists j, rest', sto'.
  split; [exact Hplan|].
  split; [|split; [exact Hj|split; [exact Hsame|split; [exact Hne'|
            split; [exact Hvals|split; [exact Hkeep|exact Hall]]]]]].
  destruct Hfo as [_ Hflush].
  unfold handleWriteFrom_try.
  cbn [self writeWaiters writeWaitingSize].
  rewrite Hmask. cbn [Z.eqb negb].
  match goal with |- context [drainLoop ?a ?b ?c ?e ?s] =>
    replace (drainLoop a b c e s) with
      (j, @Ret (Env WriteWrapper) unit tt
            (mkEnv sto d
               (set_writeWaiters (take j ws ++ rest')
                  (set_writeWaitingSize (pending_size rest')
                     (mkWriteWrapper ws sz cl fn hd))) sch))
      by (symmetry; exact Hdr) end.
  rewrite Hflush. exact Hres.
Qed.

Lemma pending_size_pos (ws : list waiter) :
  Forall (fun w : waiter => w.1.2 <> []) ws -> ws <> [] -> 0 < pending_size ws.
Proof.
  intros Hne Hws. pose proof (pending_size_nonneg ws) as H0.
  destruct (Z.eq_dec (pending_size ws) 0) as [E|E]; [|lia].
  exfalso. apply Hws. apply pending_size_zero; assumption.
Qed.

(** One readiness callback on a wrapper that was not released. *)
Lemma handleWriteFrom_open (fo : FileObject) (mask : Z) (st : Env WriteWrapper)
    (d' : Events.Dispatcher) :
  accepts_part fo ->
  Z.land mask Events.errorCheckingMask = 0 ->
  ww_ok st ->
  writeClosing (self st) = None ->
  Events.unregisterFileEvent (fileno (self st)) Events.EPOLLOUT (dispatcher st)
  = Ret tt d' ->
  exists (j : nat) (rest : list waiter) (st' : Env WriteWrapper),
    drain_plan fo 0 (writeWaiters (self st)) = (j, rest)
    /\ handleWriteFrom fo mask st = Ret tt st'
    /\ writeWaiters (self st') = rest
    /\ writeWaitingSize (self st') = pending_size rest
    /\ ww_ok st'
    /\ (j <= length (writeWaiters (self st)))%nat
    /\ same_waiters rest (drop j (writeWaiters (self st)))
    /\ Forall (served (store st) (store st')) (take j (writeWaiters (self st)))
    /\ scheduled st' = scheduled st ++ wakes_all (store st) (take j (writeWaiters (self st)))
    /\ (rest <> [] -> dispatcher st' = dispatcher st)
    /\ (rest = [] -> writeWaiters (self st) <> [] -> dispatcher st' = d')
    /\ ((forall k b, os_write fo k b = inr (Z.of_nat (length b))) -> rest = []).
Proof.
  intros Hfo Hmask Hinv Hcl Hun.
  destruct st as [sto d w sch]. cbn [self dispatcher store scheduled] in *.
  destruct (handleWriteFrom_try_progress fo mask sto d w sch Hfo Hmask Hinv)
    as (j & rest' & sto' & Hplan & Htry & Hj & Hsame & Hne' & Hvals & Hkeep & Hall).
  rewrite (handleWriteFrom_tail _ _ _ _ _ Htry).
  destruct Hinv as (Hsz & Hne & Hnd & Hp). cbn [self store] in Hsz, Hne, Hnd, Hp.
  destruct w as [ws sz cl fn hd].
  cbn [self writeWaiters writeWaitingSize writeClosing fileno] in *. subst cl.
  destruct (NoDup_futs_split j ws Hnd) as (Hnd1 & Hnd2 & Hdisj).
  assert (Hinv' : forall d0 sch0,
             ww_ok (mkEnv sto' d0 (mkWriteWrapper rest' (pending_size rest') None fn hd)
                          sch0)).
  { intros d0 sch0. unfold ww_ok. cbn [self store writeWaiters writeWaitingSize].
    split; [reflexivity|]. split; [exact Hne'|].
    rewrite (same_waiters_futs _ _ Hsame). split; [exact Hnd2|].
    apply Forall_forall. intros x Hx.
    assert (Hin : x.1.1 ∈ map (fun y : waiter => y.1.1) (drop j ws)).
    { rewrite <- (same_waiters_futs _ _ Hsame). apply fut_elem_of, Hx. }
    rewrite (Hkeep _ (Hdisj _ Hin)).
    apply list_elem_of_In, in_map_iff in Hin. destruct Hin as (y & Hy & Hin).
    apply list_elem_of_In in Hin.
    pose proof (Forall_drop _ j _ Hp) as Hp'. rewrite Forall_forall in Hp'.
    rewrite <- Hy. apply Hp', Hin. }
  exists j, rest'.
  unfold after_write, unregisterWriter, onDispatcher, mbind, om_bind, get_self,
    mret, om_ret, set_writeWaiters, set_writeWaitingSize.
  cbn [self dispatcher store scheduled fileno writeClosing writeWaiters
       writeWaitingSize handle_id].
  destruct (Z.eqb_spec (pending_size rest') 0) as [Hz|Hnz]; cbn [andb].
  - assert (Hnil : rest' = []) by (apply pending_size_zero; assumption).
    destruct (Z.ltb_spec 0 sz) as [Hpos|Hle].
    + cbn [self dispatcher store scheduled fileno writeClosing].
      rewrite Hun. eexists. split; [exact Hplan|]. split; [reflexivity|].
      cbn [self dispatcher store scheduled writeWaiters writeWaitingSize].
      split; [reflexivity|]. split; [reflexivity|].
      split; [apply Hinv'|]. split; [exact Hj|]. split; [exact Hsame|].
      split; [exact Hvals|]. split; [reflexivity|].
      split; [intros Hr; contradiction|]. split; [reflexivity|exact Hall].
    + eexists. split; [exact Hplan|]. split; [reflexivity|].
      cbn [self dispatcher store scheduled writeWaiters writeWaitingSize].
      split; [reflexivity|]. split; [reflexivity|].
      split; [apply Hinv'|]. split; [exact Hj|]. split; [exact Hsame|].
      split; [exact Hvals|]. split; [reflexivity|].
      split; [reflexivity|]. split; [|exact Hall].
      intros _ Hws. pose proof (pending_size_pos _ Hne Hws). lia.
  - eexists. split; [exact Hplan|]. split; [reflexivity|].
    cbn [self dispatcher store scheduled writeWaiters writeWaitingSize].
    split; [reflexivity|]. split; [reflexivity|].
    split; [apply Hinv'|]. split; [exact Hj|]. split; [exact Hsame|].
    split; [exact Hvals|]. split; [reflexivity|].
    split; [reflexivity|]. split; [|exact Hall].
    intros Hr. subst rest'. exfalso. apply Hnz. reflexivity.
Qed.

(** X19.  WriteWrapper.__handleWriteFrom when the file takes
    everything.  On a wrapper that was not released, whose counter
    matches the bytes its waiters hold, whose waiters are distinct
    pending futures (waited on or not) with non-empty buffers, and
    whose writer can be unregistered, one readiness callback without
    error bits serves every waiting future: each is done, holds the
    total length of its write when nobody waits on it, and otherwise
    the send of that length to its callback is scheduled at high
    priority, in the order of the deque.  The deque is emptied, the
    counter is 0, and the writer is unregistered. *)
Theorem writewrapper_drain_all (fo : FileObject) (mask : Z) (st : Env WriteWrapper)
    (d' : Events.Dispatcher) :
  accepts_all fo ->
  Z.land mask Events.errorCheckingMask = 0 ->
  ww_ok st ->
  writeWaiters (self st) <> [] ->
  writeClosing (self st) = None ->
  Events.unregisterFileEvent (fileno (self st)) Events.EPOLLOUT (dispatcher st)
  = Ret tt d' ->
  exists st',
    handleWriteFrom fo mask st = Ret tt st'
    /\ writeWaiters (self st') = []
    /\ writeWaitingSize (self st') = 0
    /\ Events.handles (dispatcher st') = Events.handles d'
    /\ Events.pollingObject (dispatcher st') = Events.pollingObject d'
    /\ Forall (served (store st) (store st')) (writeWaiters (self st))
    /\ scheduled st' = scheduled st ++ wakes_all (store st) (writeWaiters (self st)).
Proof.
  intros [Hall Hflush] Hmask Hinv Hws Hcl Hun.
  assert (Hpart : accepts_part fo).
  { split; [|exact Hflush]. intros k b. exists (Z.of_nat (length b)).
    split; [apply Hall|lia]. }
  destruct (handleWriteFrom_open fo mask st d' Hpart Hmask Hinv Hcl Hun)
    as (j & rest & st' & _ & Hr & Hw & Hsz & _ & Hj & Hsame & Hvals & Hsch & _ & Hd
        & Hnil).
  specialize (Hnil Hall). specialize (Hd Hnil Hws). rewrite Hnil in Hw, Hsz, Hsame.
  assert (Hjl : take j (writeWaiters (self st)) = writeWaiters (self st)).
  { apply Forall2_length in Hsame. cbn [length] in Hsame.
    rewrite length_drop in Hsame. apply take_ge. lia. }
  rewrite Hjl in Hvals, Hsch.
  exists st'. rewrite Hd. repeat split; assumption.
Qed.

Lemma writewrapper_drain_all_witness :
  let st := state_of (AuxMore.attach (Some 4%nat) 0%nat
              (state_of (write_all [[x01; x02]; [x03]]
                           (mkEnv [] Events.init (WriteWrapper_init 5 9%nat) [])))) in
  exists st',
    handleWriteFrom greedy_file Events.EPOLLOUT st = Ret tt st'
    /\ writeWaiters (self st') = []
    /\ Events.handles (dispatcher st') = ∅
    /\ scheduled st' = [SchedHigh (Send 4%nat (VInt 2))]
    /\ result_at 1%nat (store st') = Some (VInt 1).
Proof.
  cbv zeta.
  destruct (writewrapper_drain_all greedy_file Events.EPOLLOUT
              (state_of (AuxMore.attach (Some 4%nat) 0%nat
                 (state_of (write_all [[x01; x02]; [x03]]
                              (mkEnv [] Events.init (WriteWrapper_init 5 9%nat) [])))))
              Events.init)
    as (st' & H1 & H2 & _ & H3 & _ & H4 & H5).
  - split; [intros k b; reflexivity|reflexivity].
  - reflexivity.
  - vm_compute. split; [reflexivity|]. split.
    + repeat constructor; discriminate.
    + split.
      * repeat constructor; cbn; intros H; repeat (apply elem_of_cons in H; destruct H as [H|H]; [discriminate|]); inversion H.
      * repeat constructor; eexists; (split; [reflexivity|split; [reflexivity|exact I]]).
  - discriminate.
  - reflexivity.
  - reflexivity.
  - exists st'. split; [exact H1|]. split; [exact H2|]. split; [exact H3|].
    split; [exact H5|].
    apply Forall_cons in H4. destruct H4 as [_ H4].
    apply Forall_cons in H4. destruct H4 as [[_ Hb] _].
    apply (Hb (init ClsFuture)); reflexivity.
Defined.

(** X20.  WriteWrapper.__handleWriteFrom when the file takes only part
    of what it is offered (every write returns between 0 and the
    length of the buffer, and flush succeeds), on a wrapper that was
    not released, whose counter matches the bytes its waiters hold,
    whose waiters are distinct pending futures (waited on or not) with
    non-empty buffers, and whose writer can be unregistered.  After a
    callback without error bits the deque is exactly what the answers
    of the file leave: the waiters whose buffers went out whole, a
    prefix, are served and removed; the next one keeps the bytes not
    yet written; the others are unchanged.  The counter again equals
    the bytes still held, so the wrapper is well formed for the next
    callback, and handle table and poller are untouched as long as a
    waiter is left. *)
Theorem writewrapper_partial_progress (fo : FileObject) (mask : Z)
    (st : Env WriteWrapper) (d' : Events.Dispatcher) :
  accepts_part fo ->
  Z.land mask Events.errorCheckingMask = 0 ->
  ww_ok st ->
  writeClosing (self st) = None ->
  Events.unregisterFileEvent (fileno (self st)) Events.EPOLLOUT (dispatcher st)
  = Ret tt d' ->
  let ws := writeWaiters (self st) in
  let j := (drain_plan fo 0 ws).1 in
  let rest := (drain_plan fo 0 ws).2 in
  exists st' : Env WriteWrapper,
    handleWriteFrom fo mask st = Ret tt st'
    /\ writeWaiters (self st') = rest
    /\ writeWaitingSize (self st') = pending_size rest
    /\ ww_ok st'
    /\ (j <= length ws)%nat
    /\ same_waiters rest (drop j ws)
    /\ Forall (served (store st) (store st')) (take j ws)
    /\ scheduled st' = scheduled st ++ wakes_all (store st) (take j ws)
    /\ (rest <> [] ->
        Events.handles (dispatcher st') = Events.handles (dispatcher st)
        /\ Events.pollingObject (dispatcher st') = Events.pollingObject (dispatcher st))
    /\ (rest = [] -> ws <> [] ->
        Events.handles (dispatcher st') = Events.handles d'
        /\ Events.pollingObject (dispatcher st') = Events.pollingObject d').
Proof.
  intros Hfo Hmask Hinv Hcl Hun. cbv zeta.
  destruct (handleWriteFrom_open fo mask st d' Hfo Hmask Hinv Hcl Hun)
    as (j & rest & st' & Hplan & Hr & Hw & Hsz & Hok & Hj & Hsame & Hvals & Hsch & Hd1
        & Hd2 & _).
  rewrite Hplan. cbn [fst snd].
  exists st'. split; [exact Hr|]. split; [exact Hw|]. split; [exact Hsz|].
  split; [exact Hok|]. split; [exact Hj|]. split; [exact Hsame|].
  split; [exact Hvals|]. split; [exact Hsch|]. split.
  - intros Hne. rewrite (Hd1 Hne). split; reflexivity.
  - intros He Hne. rewrite (Hd2 He Hne). split; reflexivity.
Qed.

Lemma writewrapper_partial_progress_witness :
  let st := state_of (write_all [[x01; x02]; [x03]]
                        (mkEnv [] Events.init (WriteWrapper_init 5 9%nat) [])) in
  exists st',
    handleWriteFrom one_byte_file Events.EPOLLOUT st = Ret tt st'
    /\ writeWaiters (self st') = [(0%nat, [x02], 2); (1%nat, [x03], 1)]
    /\ writeWaitingSize (self st') = 2
    /\ ww_ok st'.
Proof.
  cbv zeta.
  destruct (writewrapper_partial_progress one_byte_file Events.EPOLLOUT
              (state_of (write_all [[x01; x02]; [x03]]
                           (mkEnv [] Events.init (WriteWrapper_init 5 9%nat) [])))
              Events.init)
    as (st' & H1 & H2 & H3 & H4 & _).
  - split; [|reflexivity]. intros k b. exists (Z.min 1 (Z.of_nat (length b))).
    split; [reflexivity|lia].
  - reflexivity.
  - vm_compute. split; [reflexivity|]. split.
    + repeat constructor; discriminate.
    + split.
      * repeat constructor; cbn; intros H; repeat (apply elem_of_cons in H; destruct H as [H|H]; [discriminate|]); inversion H.
      * repeat constructor; eexists; (split; [reflexivity|split; [reflexivity|exact I]]).
  - reflexivity.
  - reflexivity.
  - exists st'. split; [exact H1|]. split; [exact H2|]. split; [exact H3|exact H4].
Defined.

Lemma setResult_pending {T} (sto : list Future) (d : Events.Dispatcher) (s : T)
    (sch : list effect) (i : fid) (f : Future) (v : pyval) :
  sto !! i = Some f -> isDone f = false -> cb f = CbNone ->
  onFuture i (setResult v) (mkEnv sto d s sch)
  = Ret tt (mkEnv (<[i := set_result v (set_isDone true f)]> sto) d s sch).
Proof.
  intros Hf Hd Hcb. destruct f as [k dn c e0 r a]. cbn in Hd, Hcb. subst dn c.
  unfold onFuture, call_on. cbn [store]. rewrite Hf. cbn. rewrite app_nil_r.
  reflexivity.
Qed.

Lemma ww_inv_alloc (sto : list Future) (d d0 : Events.Dispatcher) (w : WriteWrapper)
    (sch sch0 : list effect) (f : Future) :
  ww_inv (mkEnv sto d w sch) -> ww_inv (mkEnv (sto ++ [f]) d0 w sch0).
Proof.
  unfold ww_inv. cbn [self store]. intros (H1 & H2 & H3 & H4).
  split; [exact H1|]. split; [exact H2|]. split; [exact H3|].
  eapply Forall_impl; [exact H4|]. intros x (fx & Hfx & Hr).
  exists fx. split; [apply lookup_app_l_Some, Hfx|exact Hr].
Qed.

Lemma write_step (fd : Z) (h : Events.handle) (d d1 : Events.Dispatcher)
    (b : list byte) (st : Env WriteWrapper) :
  Events.registerFileEvent fd Events.EPOLLOUT h d = Ret tt d1 ->
  write_state fd h d d1 st ->
  exists st',
    write b st = Ret (length (store st)) st'
    /\ write_state fd h d d1 st'
    /\ writeWaiters (self st')
       = writeWaiters (self st)
         ++ (if decide (b = []) then []
             else [(length (store st), b, Z.of_nat (length b))])
    /\ (b = [] -> result_at (length (store st)) (store st') = Some (VInt 0))
    /\ length (store st') = S (length (store st)).
Proof.
  intros Hreg (Hinv & Hcl & Hfd & Hh & Hd).
  destruct st as [sto d0 [ws sz cl fn hd] sch].
  cbn [self store dispatcher writeWaiters writeWaitingSize writeClosing fileno
       handle_id] in *. subst cl fn hd.
  unfold write, mbind, om_bind, new, get_self, mret, om_ret.
  cbn [self store dispatcher scheduled writeClosing].
  destruct b as [|x b].
  - cbn [length]. change (Z.of_nat 0 =? 0) with true. cbv beta iota.
    match goal with |- context [onFuture ?i ?m ?s] =>
      assert (Hset : onFuture i m s
                     = Ret tt (mkEnv (sto ++ [set_result (VInt 0)
                                               (set_isDone true (init ClsFuture))])
                                 d0 (mkWriteWrapper ws sz None fd h) sch));
        [|rewrite Hset] end.
    { etransitivity;
        [exact (setResult_pending _ _ _ _ _ (init ClsFuture) _
                  (lookup_snoc_last sto _) eq_refl eq_refl)|].
      f_equal. f_equal. apply insert_snoc_last. }
    eexists. split; [reflexivity|].
    cbn [self store dispatcher writeWaiters]. rewrite decide_True by reflexivity.
    rewrite app_nil_r. split; [|split; [reflexivity|split]].
    + split; [eapply ww_inv_alloc; exact Hinv|]. repeat split. exact Hd.
    + intros _. unfold result_at. rewrite lookup_snoc_last. reflexivity.
    + rewrite length_app. cbn [length]. lia.
  - rewrite decide_False by discriminate.
    set (len := Z.of_nat (length (x :: b))).
    assert (Hlen : 0 < len) by (unfold len; cbn [length]; lia).
    destruct (Z.eqb_spec len 0) as [E|_]; [lia|].
    destruct (Z.ltb_spec 0 len) as [_|E]; [|lia].
    pose proof Hinv as (Hsz & Hne & Hnd & Hp).
    cbn [self store writeWaiters writeWaitingSize] in Hsz, Hne, Hnd, Hp.
    assert (Hfresh : length sto ∉ map (fun w : waiter => w.1.1) ws).
    { intros Hin. apply list_elem_of_In, in_map_iff in Hin.
      destruct Hin as (y & Hy & Hin). apply list_elem_of_In in Hin.
      rewrite Forall_forall in Hp. destruct (Hp y Hin) as (fy & Hfy & _).
      apply lookup_lt_Some in Hfy. lia. }
    assert (Hinv' : forall d2,
               ww_inv (mkEnv (sto ++ [init ClsFuture]) d2
                         (mkWriteWrapper (ws ++ [(length sto, x :: b, len)])
                                         (sz + len) None fd h) sch)).
    { intros d2. unfold ww_inv. cbn [self store writeWaiters writeWaitingSize].
      split.
      { rewrite pending_size_app. unfold pending_size at 2. cbn [foldr fst snd].
        fold len. lia. }
      split.
      { apply Forall_app. split; [exact Hne|]. repeat constructor. discriminate. }
      split.
      { rewrite map_app. cbn [map fst snd]. apply NoDup_app.
        split; [exact Hnd|]. split; [|repeat constructor; intros H; inversion H].
        intros i Hi Hi'. apply list_elem_of_singleton in Hi'. subst i.
        exact (Hfresh Hi). }
      apply Forall_app. split.
      { eapply Forall_impl; [exact Hp|]. intros y (fy & Hfy & Hr).
        exists fy. split; [apply lookup_app_l_Some, Hfy|exact Hr]. }
      repeat constructor. exists (init ClsFuture). cbn [fst snd].
      split; [apply lookup_snoc_last|split; reflexivity]. }
    cbn [writeWaitingSize].
    destruct (Z.eqb_spec sz 0) as [Hz|Hnz]; cbn [andb].
    + assert (ws = []) by (apply pending_size_zero; [exact Hne|lia]). subst ws.
      unfold registerWriter, onDispatcher, mbind, om_bind, get_self, set_self.
      cbn [self store dispatcher scheduled fileno handle_id].
      rewrite Hd, Hreg.
      unfold set_writeWaiters, set_writeWaitingSize.
      cbn [self store dispatcher scheduled fileno handle_id writeWaiters
           writeWaitingSize writeClosing].
      eexists. split; [reflexivity|]. cbn [self store dispatcher writeWaiters app].
      split; [|split; [reflexivity|split; [discriminate|rewrite length_app; cbn [length]; lia]]].
      split; [apply (Hinv' d1)|]. repeat split.
    + unfold set_self, set_writeWaiters, set_writeWaitingSize.
      cbn [self store dispatcher scheduled fileno handle_id writeWaiters
           writeWaitingSize writeClosing].
      eexists. split; [reflexivity|]. cbn [self store dispatcher writeWaiters].
      split; [|split; [reflexivity|split; [discriminate|rewrite length_app; cbn [length]; lia]]].
      split; [apply (Hinv' d0)|]. repeat split.
      destruct ws as [|y ws]; [exfalso; apply Hnz; exact Hsz|].
      cbn [app]. exact Hd.
Qed.

(** X21.  WriteWrapper.write.  After any sequence of writes on a new
    wrapper the counter is the number of bytes queued, every write of
    a non-empty buffer waits in order of the calls with its own new
    future and the length of its buffer, empty writes queue nothing,
    and the writer is registered exactly when something is queued. *)
Theorem writewrapper_writes_well_formed (bufs : list (list byte))
    (sto : list Future) (d d1 : Events.Dispatcher) (fd : Z) (h : Events.handle)
    (sch : list effect) :
  Events.registerFileEvent fd Events.EPOLLOUT h d = Ret tt d1 ->
  exists futs st,
    write_all bufs (mkEnv sto d (WriteWrapper_init fd h) sch) = Ret futs st
    /\ ww_inv st
    /\ futs = seq (length sto) (length bufs)
    /\ map (fun w : waiter => (w.1.2, w.2)) (writeWaiters (self st))
       = map (fun b => (b, Z.of_nat (length b))) (filter (fun b => b <> []) bufs)
    /\ dispatcher st = match writeWaiters (self st) with [] => d | _ => d1 end.
Proof.
  intros Hreg.
  assert (Hgen : forall bufs st,
             write_state fd h d d1 st ->
             exists futs st',
               write_all bufs st = Ret futs st'
               /\ write_state fd h d d1 st'
               /\ futs = seq (length (store st)) (length bufs)
               /\ map (fun w : waiter => (w.1.2, w.2)) (writeWaiters (self st'))
                  = map (fun w : waiter => (w.1.2, w.2)) (writeWaiters (self st))
                    ++ map (fun b => (b, Z.of_nat (length b)))
                           (filter (fun b => b <> []) bufs)).
  { clear bufs. induction bufs as [|b bufs IH]; intros st Hst.
    - exists [], st. split; [reflexivity|]. split; [exact Hst|].
      split; [reflexivity|]. rewrite filter_nil. cbn [map]. rewrite app_nil_r.
      reflexivity.
    - destruct (write_step fd h d d1 b st Hreg Hst) as (st1 & Hw & Hst1 & Hws & _ & Hl).
      destruct (IH st1 Hst1) as (futs & st2 & Hr & Hst2 & Hf & Hm).
      exists (length (store st) :: futs), st2.
      split; [cbn [write_all]; unfold mbind, om_bind; rewrite Hw, Hr; reflexivity|].
      split; [exact Hst2|]. split.
      + cbn [length seq]. rewrite Hf, Hl. reflexivity.
      + rewrite Hm, Hws, map_app, <- app_assoc. f_equal.
        rewrite filter_cons. destruct (decide (b = [])) as [->|Hb].
        * rewrite decide_False by (intros H; apply H; reflexivity). reflexivity.
        * rewrite decide_True by exact Hb. reflexivity. }
  destruct (Hgen bufs (mkEnv sto d (WriteWrapper_init fd h) sch))
    as (futs & st & Hr & (Hinv & _ & _ & _ & Hd) & Hf & Hm).
  { split.
    - unfold ww_inv. cbn. repeat split; constructor.
    - repeat split. }
  exists futs, st. split; [exact Hr|]. split; [exact Hinv|].
  split; [exact Hf|]. split; [exact Hm|exact Hd].
Qed.

Lemma writewrapper_writes_well_formed_witness :
  exists futs st,
    write_all [[x01]; []; [x02; x03]]
      (mkEnv [] Events.init (WriteWrapper_init 5 9%nat) []) = Ret futs st
    /\ ww_inv st
    /\ futs = [0; 1; 2]%nat.
Proof.
  destruct (writewrapper_writes_well_formed [[x01]; []; [x02; x03]] [] Events.init
              (state_of (Events.registerFileEvent 5 Events.EPOLLOUT 9%nat Events.init))
              5 9%nat [] eq_refl)
    as (futs & st & H1 & H2 & H3 & _).
  exists futs, st. split; [exact H1|]. split; [exact H2|exact H3].
Defined.

(** releaseFast of a pending barrier through a reference, awaited or
    not. *)
Lemma rt_releaseFast {T} (sto : list Future) (d : Events.Dispatcher) (s : T)
    (sch : list effect) (i : fid) (b : Future) :
  sto !! i = Some b -> isDone b = false ->
  match cb b with CbOne _ => False | _ => True end ->
  onFuture i Aux.releaseFast (mkEnv sto d s sch)
  = Ret tt (mkEnv (<[i := set_isDone true b]> sto) d s
              (sch ++ AuxMore.wakes_release Direct b)).
Proof.
  intros Hb Hd Hc. destruct b as [k dn c e r a]. cbn in Hd, Hc. subst dn.
  unfold onFuture, call_on, AuxMore.wakes_release. cbn [store]. rewrite Hb.
  destruct c as [|c|l]; [|contradiction|]; reflexivity.
Qed.

Lemma failAll_all (e : exn) :
  forall (ws : list waiter) (sto : list Future) (d : Events.Dispatcher)
         (w : WriteWrapper) (sch : list effect),
    writeWaiters w = ws ->
    NoDup (map (fun x : waiter => x.1.1) ws) ->
    Forall (fun x : waiter =>
              exists f, sto !! x.1.1 = Some f /\ isDone f = false /\ plain f)
           ws ->
    exists sto',
      failAll e (length ws) (mkEnv sto d w sch)
      = Ret tt (mkEnv sto' d (set_writeWaiters [] w) (sch ++ fails_all e sto ws))
      /\ Forall (failed e sto sto') ws
      /\ (forall i : fid, i ∉ map (fun x : waiter => x.1.1) ws -> sto' !! i = sto !! i).
Proof.
  induction ws as [|[[f b] t] ws IH]; intros sto d w sch Hws Hnd Hp.
  - exists sto. destruct w as [ws sz cl fn hd]. cbn in Hws. subst ws.
    split; [cbn; rewrite app_nil_r; reflexivity|].
    split; [constructor|reflexivity].
  - destruct w as [ws0 sz cl fn hd]. cbn [writeWaiters] in Hws. subst ws0.
    cbn [map fst snd] in Hnd. apply NoDup_cons in Hnd. destruct Hnd as [Hnin Hnd].
    apply Forall_cons in Hp. destruct Hp as [(fu & Hfu & Hdn & Hpl) Hp].
    cbn [fst snd] in Hfu.
    destruct (rt_setError sto d
                (set_writeWaiters ws (mkWriteWrapper ((f, b, t) :: ws) sz cl fn hd))
                sch f fu e Hfu Hdn) as (Hset & Hdone & Hres).
    assert (Hother : forall i : fid, i ∈ map (fun x : waiter => x.1.1) ws ->
                       (<[f := state_of (setError e fu)]> sto) !! i = sto !! i).
    { intros i Hi. apply list_lookup_insert_ne. intros ->. exact (Hnin Hi). }
    destruct (IH (<[f := state_of (setError e fu)]> sto) d
                (set_writeWaiters ws (mkWriteWrapper ((f, b, t) :: ws) sz cl fn hd))
                (sch ++ wakes_error fu e) eq_refl Hnd)
      as (sto' & Hr & Hres' & Hsame).
    { apply Forall_forall. intros x Hx.
      rewrite Forall_forall in Hp. destruct (Hp x Hx) as (fx & Hfx & Hrest).
      exists fx. split; [|exact Hrest].
      rewrite (Hother _ (fut_elem_of _ _ Hx)). exact Hfx. }
    exists sto'. split; [|split].
    + cbn [length failAll].
      unfold mbind at 1, om_bind at 1, get_self at 1.
      cbn [self writeWaiters].
      unfold mbind at 1, om_bind at 1, set_self at 1.
      unfold mbind at 1, om_bind at 1.
      cbn [store dispatcher self scheduled].
      match goal with |- context [onFuture f ?m ?s] =>
        replace (onFuture f m s) with
          (@Ret (Env WriteWrapper) unit tt
             (mkEnv (<[f := state_of (setError e fu)]> sto) d
                (set_writeWaiters ws (mkWriteWrapper ((f, b, t) :: ws) sz cl fn hd))
                (sch ++ wakes_error fu e)))
          by (symmetry; exact Hset) end.
      etransitivity; [exact Hr|].
      rewrite (fails_all_ext e sto _ ws Hother).
      unfold fails_all at 2. cbn [flat_map fst snd]. rewrite Hfu.
      rewrite <- app_assoc. reflexivity.
    + constructor.
      * unfold failed, done_at, error_at. cbn [fst snd].
        rewrite (Hsame f Hnin).
        rewrite list_lookup_insert_eq by (eapply lookup_lt_Some, Hfu).
        split; [exact Hdone|]. intros f0 Hf0 Hc.
        assert (f0 = fu) by congruence. subst f0. exact (Hres Hc).
      * apply Forall_forall. intros x Hx. rewrite Forall_forall in Hres'.
        destruct (Hres' x Hx) as [H1 H2]. split; [exact H1|].
        intros f0 Hf0 Hc. apply (H2 f0); [|exact Hc].
        rewrite (Hother _ (fut_elem_of _ _ Hx)). exact Hf0.
    + intros i Hi. cbn [map fst snd] in Hi. apply not_elem_of_cons in Hi.
      destruct Hi as [Hne Hi]. rewrite (Hsame i Hi).
      apply list_lookup_insert_ne. congruence.
Qed.

(** Futures of the waiters are older than a future allocated now. *)
Lemma waiters_in_old_store (sto : list Future) (ws : list waiter) (f : Future) :
  Forall (fun x : waiter =>
            exists f, sto !! x.1.1 = Some f /\ isDone f = false /\ plain f) ws ->
  forall i : fid, i ∈ map (fun x : waiter => x.1.1) ws ->
                  (sto ++ [f]) !! i = sto !! i /\ i <> length sto.
Proof.
  intros Hp i Hi. pose proof (futs_below sto ws Hp i Hi) as Hlt.
  split; [apply lookup_app_l; exact Hlt|]. unfold fid in *. lia.
Qed.

(** X22.  WriteWrapper.release on a wrapper with nothing queued.  The
    new barrier is released at once; a second release returns the same
    barrier and changes nothing; and every later write, whatever its
    buffer, returns a future that already failed with
    InterruptedTransfer, queues nothing and leaves the dispatcher
    alone. *)
Theorem writewrapper_release_idle (st : Env WriteWrapper) :
  writeWaiters (self st) = [] -> writeClosing (self st) = None ->
  let bar := length (store st) in
  exists st1,
    release st = Ret bar st1
    /\ done_at bar (store st1) = true
    /\ release st1 = Ret bar st1
    /\ forall b, exists st2,
         write b st1 = Ret (S bar) st2
         /\ error_at (S bar) (store st2) = Some InterruptedTransfer
         /\ self st2 = self st1
         /\ dispatcher st2 = dispatcher st.
Proof.
  destruct st as [sto d [ws sz cl fn hd] sch].
  cbn [self store writeWaiters writeClosing]. intros -> ->. cbv zeta.
  exists (mkEnv (sto ++ [set_isDone true (init ClsBarrier)]) d
                (mkWriteWrapper [] sz (Some (length sto)) fn hd) sch).
  assert (Hlen : length (sto ++ [set_isDone true (init ClsBarrier)]) = S (length sto)).
  { rewrite length_app. cbn [length]. lia. }
  split.
  { unfold release, mbind, om_bind, new, get_self, set_self, mret, om_ret.
    cbn [self store dispatcher scheduled writeClosing writeWaiters set_writeClosing
         length Nat.eqb].
    match goal with |- context [onFuture ?i ?m ?s] =>
      assert (Hrel : onFuture i m s
                     = Ret tt (mkEnv (sto ++ [set_isDone true (init ClsBarrier)]) d
                                 (mkWriteWrapper [] sz (Some (length sto)) fn hd) sch));
        [|rewrite Hrel; reflexivity] end.
    etransitivity;
      [exact (release_fresh_barrier _ _ _ _ _ (init ClsBarrier)
                (lookup_snoc_last sto _) eq_refl eq_refl)|].
    f_equal. f_equal. apply insert_snoc_last. }
  cbn [store self dispatcher].
  split; [rewrite (done_at_lookup _ _ _ (lookup_snoc_last sto _)); reflexivity|].
  split; [reflexivity|].
  intros b.
  unfold write, mbind, om_bind, new, get_self, mret, om_ret.
  cbn [self store dispatcher scheduled writeClosing].
  match goal with |- context [onFuture ?i ?m ?s] =>
    assert (Hset : onFuture i m s
                   = Ret tt (mkEnv ((sto ++ [set_isDone true (init ClsBarrier)])
                                    ++ [AuxMore.resolved (inl InterruptedTransfer)
                                          (init ClsFuture)])
                               d (mkWriteWrapper [] sz (Some (length sto)) fn hd) sch));
      [|rewrite Hset] end.
  { etransitivity;
      [exact (setError_pending _ _ _ _ _ (init ClsFuture) _
                (lookup_snoc_last _ _) eq_refl eq_refl)|].
    f_equal. f_equal. apply insert_snoc_last. }
  rewrite Hlen. eexists. split; [reflexivity|].
  cbn [store self dispatcher]. split; [|split; reflexivity].
  rewrite <- Hlen.
  rewrite (error_at_lookup _ _ _ (lookup_snoc_last _ _)). reflexivity.
Qed.

Lemma writewrapper_release_idle_witness :
  exists st1,
    release (mkEnv [] Events.init (WriteWrapper_init 5 9%nat) []) = Ret 0%nat st1
    /\ done_at 0%nat (store st1) = true
    /\ exists st2, write [x01] st1 = Ret 1%nat st2
                   /\ error_at 1%nat (store st2) = Some InterruptedTransfer.
Proof.
  destruct (writewrapper_release_idle (mkEnv [] Events.init (WriteWrapper_init 5 9%nat) [])
              eq_refl eq_refl)
    as (st1 & H1 & H2 & _ & H3).
  exists st1. split; [exact H1|]. split; [exact H2|].
  destruct (H3 [x01]) as (st2 & H4 & H5 & _). exists st2. split; assumption.
Defined.

(** X23.  WriteWrapper.forceRelease with writes outstanding, on a
    wrapper that was not released, whose counter matches the bytes its
    waiters hold, whose waiters are distinct pending futures (waited
    on or not) with non-empty buffers, and whose writer can be
    unregistered.
    Every waiting future is failed with the error passed: it is done,
    holds the error when nobody waits on it, and otherwise the
    __cbError of the error is scheduled at high priority, in the order
    of the deque.  The deque is emptied, the counter set to 0, the
    writer unregistered, and the new barrier released. *)
Theorem writewrapper_forceRelease_fails_waiters (e : exn) (st : Env WriteWrapper)
    (d' : Events.Dispatcher) :
  ww_ok st ->
  writeWaiters (self st) <> [] ->
  writeClosing (self st) = None ->
  Events.unregisterFileEvent (fileno (self st)) Events.EPOLLOUT (dispatcher st)
  = Ret tt d' ->
  let bar := length (store st) in
  exists st',
    forceRelease e st = Ret tt st'
    /\ writeWaiters (self st') = []
    /\ writeWaitingSize (self st') = 0
    /\ writeClosing (self st') = Some bar
    /\ done_at bar (store st') = true
    /\ Events.handles (dispatcher st') = Events.handles d'
    /\ Events.pollingObject (dispatcher st') = Events.pollingObject d'
    /\ Forall (failed e (store st) (store st')) (writeWaiters (self st))
    /\ scheduled st' = scheduled st ++ fails_all e (store st) (writeWaiters (self st)).
Proof.
  intros Hinv Hws Hcl Hun.
  destruct st as [sto d [ws sz cl fn hd] sch].
  cbn [self store dispatcher scheduled writeWaiters writeClosing fileno] in *. subst cl.
  cbv zeta.
  pose proof (ww_ok_alloc sto d d' _ sch sch (init ClsBarrier) Hinv) as Hinv'.
  destruct Hinv' as (_ & _ & Hnd & Hp). cbn [self store writeWaiters] in Hnd, Hp.
  destruct Hinv as (_ & _ & _ & Hp0). cbn [self store writeWaiters] in Hp0.
  pose proof (waiters_in_old_store sto ws (init ClsBarrier) Hp0) as Hold.
  destruct (failAll_all e ws (sto ++ [init ClsBarrier]) d'
              (mkWriteWrapper ws 0 (Some (length sto)) fn hd) sch eq_refl Hnd Hp)
    as (sto' & Hfail & Herr & Hkeep).
  assert (Hbar : sto' !! length sto = Some (init ClsBarrier)).
  { rewrite Hkeep; [apply lookup_snoc_last|].
    intros Hin. destruct (Hold _ Hin) as [_ Hne]. apply Hne. reflexivity. }
  exists (mkEnv (<[length sto := set_isDone true (init ClsBarrier)]> sto') d'
                (mkWriteWrapper [] 0 (Some (length sto)) fn hd)
                (sch ++ fails_all e sto ws)).
  split.
  { unfold forceRelease, mbind, om_bind, new, get_self, set_self, mret, om_ret.
    cbn [self store dispatcher scheduled writeClosing writeWaiters set_writeClosing
         set_writeWaitingSize writeWaitingSize fileno handle_id].
    destruct ws as [|x ws]; [contradiction|].
    cbn [length Nat.ltb Nat.leb].
    unfold unregisterWriter, onDispatcher, mbind, om_bind, get_self.
    unfold set_writeWaitingSize, set_writeClosing.
    cbn [self store dispatcher scheduled fileno writeWaiters writeWaitingSize
         writeClosing handle_id].
    rewrite Hun.
    cbn [self store dispatcher scheduled fileno writeWaiters].
    match goal with |- context [failAll ?a ?n ?s] =>
      replace (failAll a n s) with
        (@Ret (Env WriteWrapper) unit tt
           (mkEnv sto' d'
              (set_writeWaiters [] (mkWriteWrapper (x :: ws) 0 (Some (length sto)) fn hd))
              (sch ++ fails_all e (sto ++ [init ClsBarrier]) (x :: ws))))
        by (symmetry; exact Hfail) end.
    cbn [self store dispatcher scheduled writeClosing set_writeWaiters].
    etransitivity;
      [exact (release_fresh_barrier _ _ _ _ _ (init ClsBarrier) Hbar eq_refl eq_refl)|].
    rewrite (fails_all_ext e sto _ (x :: ws) (fun i Hi => proj1 (Hold i Hi))).
    reflexivity. }
  cbn [self store dispatcher scheduled writeWaiters writeWaitingSize writeClosing].
  split; [reflexivity|]. split; [reflexivity|]. split; [reflexivity|].
  split.
  { pose proof (lookup_lt_Some _ _ _ Hbar) as Hl.
    assert (Hb' : (<[length sto := set_isDone true (init ClsBarrier)]> sto')
                    !! length sto = Some (set_isDone true (init ClsBarrier)))
      by (apply list_lookup_insert_eq, Hl).
    exact (eq_trans (done_at_lookup _ _ _ Hb') eq_refl). }
  split; [reflexivity|]. split; [reflexivity|]. split; [|reflexivity].
  apply Forall_forall. intros x Hx. rewrite Forall_forall in Herr.
  destruct (Herr x Hx) as [H1 H2].
  destruct (Hold _ (fut_elem_of _ _ Hx)) as [Hlk Hne].
  unfold failed, done_at, error_at in *.
  rewrite list_lookup_insert_ne by congruence.
  split; [exact H1|]. intros f0 Hf0 Hc. apply (H2 f0); [|exact Hc].
  rewrite Hlk. exact Hf0.
Qed.

Lemma writewrapper_forceRelease_fails_waiters_witness :
  let st := state_of (AuxMore.attach (Some 4%nat) 0%nat
              (state_of (write_all [[x01; x02]; [x03]]
                           (mkEnv [] Events.init (WriteWrapper_init 5 9%nat) [])))) in
  exists st',
    forceRelease InterruptedTransfer st = Ret tt st'
    /\ writeWaiters (self st') = []
    /\ Events.handles (dispatcher st') = ∅
    /\ scheduled st' = [SchedHigh (CbError InterruptedTransfer)]
    /\ error_at 1%nat (store st') = Some InterruptedTransfer.
Proof.
  cbv zeta.
  destruct (writewrapper_forceRelease_fails_waiters InterruptedTransfer
              (state_of (AuxMore.attach (Some 4%nat) 0%nat
                 (state_of (write_all [[x01; x02]; [x03]]
                              (mkEnv [] Events.init (WriteWrapper_init 5 9%nat) [])))))
              Events.init)
    as (st' & H1 & H2 & _ & _ & _ & H3 & _ & H4 & H5).
  - vm_compute. split; [reflexivity|]. split.
    + repeat constructor; discriminate.
    + split.
      * repeat constructor; cbn; intros H; repeat (apply elem_of_cons in H; destruct H as [H|H]; [discriminate|]); inversion H.
      * repeat constructor; eexists; (split; [reflexivity|split; [reflexivity|exact I]]).
  - discriminate.
  - reflexivity.
  - reflexivity.
  - exists st'. split; [exact H1|]. split; [exact H2|]. split; [exact H3|].
    split; [exact H5|].
    apply Forall_cons in H4. destruct H4 as [_ H4].
    apply Forall_cons in H4. destruct H4 as [[_ Hb] _].
    apply (Hb (init ClsFuture)); reflexivity.
Defined.

(** X24.  WriteWrapper.release with writes outstanding, on a wrapper
    that was not released, whose counter matches the bytes its waiters
    hold, whose waiters are distinct pending futures (waited on or
    not) with non-empty buffers, and whose writer can be unregistered.
    The barrier returned stays pending, and any number of callers may
    wait on it.  When the file then takes everything, the readiness
    callback serves every waiting future (done; total length stored
    when nobody waits on it, otherwise the send scheduled at high
    priority), unregisters the writer and releases the barrier, with a
    direct send of None to each callback waiting on it, in the order
    they were attached. *)
Theorem writewrapper_release_then_drain (fo : FileObject) (mask : Z)
    (st : Env WriteWrapper) (d' : Events.Dispatcher) (bwaiters : list cbref) :
  accepts_all fo ->
  Z.land mask Events.errorCheckingMask = 0 ->
  ww_ok st ->
  writeWaiters (self st) <> [] ->
  writeClosing (self st) = None ->
  Events.unregisterFileEvent (fileno (self st)) Events.EPOLLOUT (dispatcher st)
  = Ret tt d' ->
  let bar := length (store st) in
  exists st1 st1' st2,
    release st = Ret bar st1
    /\ done_at bar (store st1) = false
    /\ AuxMore.attach_barrier bwaiters bar st1 = Ret tt st1'
    /\ handleWriteFrom fo mask st1' = Ret tt st2
    /\ done_at bar (store st2) = true
    /\ writeWaiters (self st2) = []
    /\ Events.handles (dispatcher st2) = Events.handles d'
    /\ Events.pollingObject (dispatcher st2) = Events.pollingObject d'
    /\ Forall (served (store st) (store st2)) (writeWaiters (self st))
    /\ scheduled st2
       = scheduled st ++ wakes_all (store st) (writeWaiters (self st))
         ++ map (fun c => Direct (Send c VNone)) bwaiters.
Proof.
  intros [Hall Hflush] Hmask Hinv Hws Hcl Hun.
  destruct st as [sto d [ws sz cl fn hd] sch].
  cbn [self store dispatcher scheduled writeWaiters writeClosing fileno] in *. subst cl.
  cbv zeta.
  assert (Hpart : accepts_part fo).
  { split; [|exact Hflush]. intros k b. exists (Z.of_nat (length b)).
    split; [apply Hall|lia]. }
  set (B1 := AuxMore.awaited_barrier bwaiters (init ClsBarrier)).
  destruct (awaited_barrier_pending bwaiters) as [HB1d HB1c]. fold B1 in HB1d, HB1c.
  pose proof (ww_ok_alloc sto d d (mkWriteWrapper ws sz (Some (length sto)) fn hd)
                sch sch B1) as Hinv1.
  specialize (Hinv1 ltac:(exact Hinv)).
  destruct (handleWriteFrom_try_progress fo mask _ d _ sch Hpart Hmask Hinv1)
    as (j & rest' & sto' & _ & Htry & Hj & Hsame & _ & Hvals & Hkeep & Hnil).
  specialize (Hnil Hall). subst rest'.
  cbn [writeWaiters] in Hj, Hsame, Hvals, Hkeep, Htry.
  destruct Hinv as (Hsz & Hne & _ & Hp0).
  cbn [self store writeWaiters writeWaitingSize] in Hsz, Hne, Hp0.
  pose proof (pending_size_pos _ Hne Hws) as Hpos.
  pose proof (waiters_in_old_store sto ws B1 Hp0) as Hold.
  assert (Hjl : take j ws = ws).
  { apply Forall2_length in Hsame. cbn [length] in Hsame.
    rewrite length_drop in Hsame. apply take_ge. lia. }
  rewrite Hjl in Hvals, Hkeep, Htry.
  rewrite (wakes_all_ext sto _ ws (fun i Hi => proj1 (Hold i Hi))) in Htry.
  assert (Hbar : sto' !! length sto = Some B1).
  { rewrite Hkeep; [apply lookup_snoc_last|].
    intros Hin. destruct (Hold _ Hin) as [_ Hn]. apply Hn. reflexivity. }
  pose proof (lookup_lt_Some _ _ _ Hbar) as Hl.
  exists (mkEnv (sto ++ [init ClsBarrier]) d
                (mkWriteWrapper ws sz (Some (length sto)) fn hd) sch).
  exists (mkEnv (sto ++ [B1]) d
                (mkWriteWrapper ws sz (Some (length sto)) fn hd) sch).
  exists (mkEnv (<[length sto := set_isDone true B1]> sto') d'
                (mkWriteWrapper [] 0 (Some (length sto)) fn hd)
                ((sch ++ wakes_all sto ws) ++ AuxMore.wakes_release Direct B1)).
  split.
  { unfold release, mbind, om_bind, new, get_self, set_self, mret, om_ret.
    cbn [self store dispatcher scheduled writeClosing writeWaiters set_writeClosing].
    destruct ws as [|x ws]; [contradiction|]. reflexivity. }
  cbn [store self dispatcher scheduled writeWaiters].
  split; [exact (eq_trans (done_at_lookup _ _ _ (lookup_snoc_last sto _)) eq_refl)|].
  split.
  { etransitivity;
      [exact (attach_barrier_at _ _ _ bwaiters _ _ (init ClsBarrier)
                (lookup_snoc_last sto _) I)|].
    f_equal. f_equal. apply insert_snoc_last. }
  split.
  { rewrite (handleWriteFrom_tail _ _ _ _ _ Htry).
    unfold after_write, unregisterWriter, onDispatcher, mbind, om_bind, get_self,
      mret, om_ret, set_writeWaiters, set_writeWaitingSize.
    cbn [self dispatcher store scheduled fileno writeClosing writeWaiters
         writeWaitingSize handle_id].
    change (pending_size []) with 0. cbn [Z.eqb andb].
    destruct (Z.ltb_spec 0 sz) as [_|Hle]; [|lia].
    cbn [self dispatcher store scheduled fileno writeClosing].
    rewrite Hun.
    cbn [self dispatcher store scheduled fileno writeClosing].
    exact (rt_releaseFast _ _ _ _ _ B1 Hbar HB1d HB1c). }
  split.
  { assert (Hb' : (<[length sto := set_isDone true B1]> sto')
                    !! length sto = Some (set_isDone true B1))
      by (apply list_lookup_insert_eq, Hl).
    exact (eq_trans (done_at_lookup _ _ _ Hb') eq_refl). }
  split; [reflexivity|]. split; [reflexivity|]. split; [reflexivity|].
  split.
  - apply Forall_forall. intros x Hx. rewrite Forall_forall in Hvals.
    destruct (Hvals x Hx) as [H1 H2].
    destruct (Hold _ (fut_elem_of _ _ Hx)) as [Hlk Hn].
    unfold served, done_at, result_at in *.
    rewrite list_lookup_insert_ne by congruence.
    split; [exact H1|]. intros f0 Hf0 Hc. apply (H2 f0); [|exact Hc].
    rewrite Hlk. exact Hf0.
  - rewrite <- app_assoc. f_equal. f_equal. unfold B1. apply release_wakes.
Qed.

Lemma writewrapper_release_then_drain_witness :
  let st := state_of (write_all [[x01; x02]; [x03]]
                        (mkEnv [] Events.init (WriteWrapper_init 5 9%nat) [])) in
  exists st1 st1' st2,
    release st = Ret 2%nat st1
    /\ done_at 2%nat (store st1) = false
    /\ AuxMore.attach_barrier [6; 8]%nat 2%nat st1 = Ret tt st1'
    /\ handleWriteFrom greedy_file Events.EPOLLOUT st1' = Ret tt st2
    /\ done_at 2%nat (store st2) = true
    /\ scheduled st2 = [Direct (Send 6%nat VNone); Direct (Send 8%nat VNone)].
Proof.
  cbv zeta.
  destruct (writewrapper_release_then_drain greedy_file Events.EPOLLOUT
              (state_of (write_all [[x01; x02]; [x03]]
                           (mkEnv [] Events.init (WriteWrapper_init 5 9%nat) [])))
              Events.init [6; 8]%nat)
    as (st1 & st1' & st2 & H1 & H2 & H3 & H4 & H5 & _ & _ & _ & _ & H6).
  - split; [intros k b; reflexivity|reflexivity].
  - reflexivity.
  - vm_compute. split; [reflexivity|]. split.
    + repeat constructor; discriminate.
    + split.
      * repeat constructor; cbn; intros H; repeat (apply elem_of_cons in H; destruct H as [H|H]; [discriminate|]); inversion H.
      * repeat constructor; eexists; (split; [reflexivity|split; [reflexivity|exact I]]).
  - discriminate.
  - reflexivity.
  - reflexivity.
  - exists st1, st1', st2. repeat split; assumption.
Defined.

End WriteWrapperFacts.

(** ** streams.py: _smartSplit *)
Section SmartSplitFacts.
Import StreamsMore.

Lemma find_newline_from_spec (l : list byte) : forall i,
  0 <= i ->
  (find_newline_from i l = (-1) /\ x0a ∉ l)
  \/ (exists a0 b,
        l = a0 ++ x0a :: b /\ (x0a ∉ a0)
        /\ find_newline_from i l = i + Z.of_nat (length a0)).
Proof.
  induction l as [|c l IH]; intros i Hi; cbn [find_newline_from].
  - left. split; [reflexivity|]. intros H. inversion H.
  - destruct (bool_decide_reflect (c = x0a)) as [->|Hc].
    + right. exists [], l. split; [reflexivity|]. split; [intros H; inversion H|].
      cbn [length]. lia.
    + destruct (IH (i + 1) ltac:(lia)) as [[Hf Hn]|(a0 & b & -> & Hn & Hf)].
      * left. split; [exact Hf|]. intros H. apply elem_of_cons in H.
        destruct H as [H|H]; [congruence|contradiction].
      * right. exists (c :: a0), b. split; [reflexivity|]. split.
        -- intros H. apply elem_of_cons in H. destruct H as [H|H]; [congruence|contradiction].
        -- rewrite Hf. cbn [length]. lia.
Qed.

(** X25.  _smartSplit.  Without a newline the result is None;
    otherwise the two parts put together give the input back, the
    first part ends with the first newline of the input and holds no
    other. *)
Theorem smartSplit_first_line (l : list byte) :
  match _smartSplit l with
  | None => x0a ∉ l
  | Some (a, b) =>
      a ++ b = l /\ exists a0, a = a0 ++ [x0a] /\ x0a ∉ a0
  end.
Proof.
  unfold _smartSplit.
  destruct (find_newline_from_spec l 0 ltac:(lia)) as [[Hf Hn]|(a0 & b & -> & Hn & Hf)].
  - rewrite Hf. exact Hn.
  - rewrite Hf. destruct (Z.eqb_spec (0 + Z.of_nat (length a0)) (-1)) as [E|_]; [lia|].
    replace (Z.to_nat (0 + Z.of_nat (length a0) + 1)) with (length (a0 ++ [x0a]))
      by (rewrite length_app; cbn [length]; lia).
    replace (a0 ++ x0a :: b) with ((a0 ++ [x0a]) ++ b) by (rewrite <- app_assoc; reflexivity).
    rewrite take_app_length, drop_app_length.
    split; [reflexivity|]. exists a0. split; [reflexivity|exact Hn].
Qed.

End SmartSplitFacts.

(** ** websockets/framing.py: close payloads *)
Section CloseDataFacts.
Import Framing.

Lemma be_bytes_2_unpack (b1 b2 : byte) : be_bytes 2 (unpack_be [b1; b2]) = [b1; b2].
Proof.
  pose proof (byte_to_Z_range b1) as H1. pose proof (byte_to_Z_range b2) as H2.
  unfold unpack_be. cbn [fold_left be_bytes app].
  replace (0 * 256 + byte_to_Z b1) with (byte_to_Z b1) by lia.
  replace ((byte_to_Z b1 * 256 + byte_to_Z b2) mod 256) with (byte_to_Z b2)
    by (rewrite Z.add_comm, Z.mod_add by lia; symmetry; apply Z.mod_small; lia).
  replace ((byte_to_Z b1 * 256 + byte_to_Z b2) / 256) with (byte_to_Z b1)
    by (rewrite Z.add_comm, Z.div_add by lia; rewrite (Z.div_small (byte_to_Z b2)) by lia; lia).
  rewrite (Z.mod_small (byte_to_Z b1)) by lia.
  rewrite !Z_to_byte_to_Z. reflexivity.
Qed.

Lemma close_code_range (code : Z) :
  code ∈ CLOSE_CODES \/ 3000 <= code < 5000 -> 0 <= code < 256 ^ Z.of_nat 2.
Proof.
  intros [H|H]; [|change (256 ^ Z.of_nat 2) with 65536; lia].
  unfold CLOSE_CODES in H.
  change (256 ^ Z.of_nat 2) with 65536.
  repeat (apply elem_of_cons in H; destruct H as [->|H]; [lia|]).
  inversion H.
Qed.

Lemma parseCloseData_encoded (code : Z) (reason : list byte) :
  code ∈ CLOSE_CODES \/ 3000 <= code < 5000 ->
  utf8_valid reason = true ->
  parseCloseData (be_bytes 2 code ++ reason) = inr (code, reason).
Proof.
  intros Hv Hu.
  pose proof (close_code_range code Hv) as Hr.
  unfold parseCloseData.
  pose proof (be_bytes_length 2 code) as Hl.
  destruct (be_bytes 2 code) as [|b1 [|b2 [|b3 l]]] eqn:Hb; try discriminate.
  cbv zeta. cbn [app length Nat.eqb take drop]. rewrite take_0, drop_0.
  rewrite <- Hb, (unpack_be_bytes 2 code Hr).
  assert (Hok : bool_decide (code ∈ CLOSE_CODES) || ((3000 <=? code) && (code <? 5000))
                = true).
  { apply orb_true_iff. destruct Hv as [Hv|Hv].
    - left. apply bool_decide_eq_true. exact Hv.
    - right. apply andb_true_iff. split; [apply Z.leb_le|apply Z.ltb_lt]; lia. }
  match goal with |- context [negb ?c] =>
    replace c with true by (symmetry; exact Hok) end.
  cbn [negb]. unfold decode_utf8. rewrite Hu. reflexivity.
Qed.

(** X26.  parseCloseData.  It returns (code, reason) exactly in two
    cases: for the empty payload, with code 1005 and the empty reason;
    and for a payload that is a defined or private-use close code
    (1000-1003, 1007-1011, 3000-4999) in two big-endian bytes followed
    by the reason in well-formed UTF-8.  Everything else raises. *)
Theorem parseCloseData_accepts (data : list byte) (code : Z) (reason : list byte) :
  parseCloseData data = inr (code, reason)
  <-> (data = [] /\ code = 1005 /\ reason = [])
      \/ ((code ∈ CLOSE_CODES \/ 3000 <= code < 5000)
          /\ utf8_valid reason = true
          /\ data = be_bytes 2 code ++ reason).
Proof.
  split.
  - unfold parseCloseData.
    destruct data as [|b1 [|b2 rest]]; cbv zeta; cbn [length Nat.eqb].
    + intros H. injection H as <- <-. left. auto.
    + intros H. discriminate H.
    + cbn [take drop]. rewrite take_0, drop_0.
      match goal with |- context [negb ?c] => destruct c eqn:Hv end;
        cbn [negb]; [|intros H; discriminate H].
      unfold decode_utf8. destruct (utf8_valid rest) eqn:Hu; [|intros H; discriminate H].
      intros H. injection H as <- <-. right. split; [|split; [exact Hu|]].
      * apply orb_true_iff in Hv. destruct Hv as [Hv|Hv].
        -- left. apply bool_decide_eq_true in Hv. exact Hv.
        -- right. apply andb_true_iff in Hv. destruct Hv as [Ha Hb].
           apply Z.leb_le in Ha. apply Z.ltb_lt in Hb. lia.
      * rewrite be_bytes_2_unpack. reflexivity.
  - intros [(-> & -> & ->)|(Hv & Hu & ->)]; [reflexivity|].
    apply parseCloseData_encoded; assumption.
Qed.

End CloseDataFacts.

(** ** websockets/websocket.py: two engines on one connection *)
Section WebsocketPairFacts.
Import Framing FrameVocab Websocket WebsocketMore.

Lemma write_then_read (mask : bool) (randbits opcode : Z) (data : list byte)
    (final : bool) (maxSize : option Z) (rest : list byte) :
  valid_frame opcode data final = true ->
  (mask = true -> 0 <= randbits < 2 ^ 32) ->
  exceeds (Z.of_nat (length data)) maxSize = false ->
  exists wire,
    writeFragment mask randbits opcode data final = inr wire
    /\ readFragment mask maxSize (wire ++ rest) = POk (opcode, data, final) rest.
Proof.
  intros Hvalid Hrand Hmax.
  destruct (valid_frame_opcode _ _ _ Hvalid) as [Hop HL].
  destruct (frame_header_spec final mask opcode _ Hop HL)
    as (hd & ext & l7 & Hhdr & Hhd & Hfin & Hres & Hopc & Hmask & Hlen & Hext).
  unfold writeFragment. rewrite Hhdr.
  destruct mask.
  - specialize (Hrand eq_refl).
    rewrite (pack_be_Some 4 randbits) by (cbn; lia).
    destruct (applyMask_from_invol (be_bytes 4 randbits) (be_bytes_length 4 _) data 0)
      as (out & E1 & E2 & E3).
    unfold applyMask, applyMaskSlow. rewrite E1.
    eexists. split; [reflexivity|].
    rewrite <- !app_assoc.
    apply (readFragment_decode true final maxSize opcode l7);
      [ exact Hhd | exact Hfin | exact Hres | exact Hopc | exact Hmask
      | exact Hlen
      | rewrite E2; exact Hext
      | rewrite E2; exact Hmax
      | split; [apply be_bytes_length | exact E3]
      | exact Hvalid ].
  - eexists. split; [reflexivity|].
    rewrite <- !app_assoc.
    apply (readFragment_decode false final maxSize opcode l7 hd ext [] data data rest);
      auto.
Qed.

Lemma send_then_recv (rand : nat -> Z) (opcode : Z) (data : list byte) (final : bool)
    (a b : Websocket) (more : list byte) :
  valid_frame opcode data final = true ->
  (sendMask a = true -> 0 <= rand (randCalls a) < 2 ^ 32) ->
  receiveMask b = sendMask a ->
  Z.of_nat (length data) <= maxSize b ->
  exists wire,
    send_fragment rand opcode data final a = WRet tt (sent wire a)
    /\ recv_fragment (set_inbound (wire ++ more) b)
       = WRet (opcode, data, final) (set_inbound more b).
Proof.
  intros Hvalid Hrand Hmask Hsize.
  destruct (write_then_read (sendMask a) (rand (randCalls a)) opcode data final
              (Some (maxSize b)) more Hvalid Hrand) as (wire & Hw & Hr).
  { cbn [exceeds]. apply Z.ltb_ge. exact Hsize. }
  exists wire. split.
  - unfold send_fragment. rewrite Hw. reflexivity.
  - unfold recv_fragment. destruct b as [cd pg rm sm mx stt ib ob sc rc].
    cbn [receiveMask maxSize inbound set_inbound closingData pings sendMask state
         outbound socketClosed randCalls] in *.
    subst rm. rewrite Hr. reflexivity.
Qed.

(** X27.  Websocket.__writeDataFrame and __readNextFrame.  A message
    that fits the sender's maxSize goes out as one final frame, TEXT
    for a str and BINARY for bytes; a peer that expects the sender's
    masking and whose maxSize the message fits reads it back, while it
    is building nothing, as a single text or binary message with the
    same bytes, and leaves what follows on the stream. *)
Theorem websocket_single_frame_round_trip (rand rand' : nat -> Z) (msg : message)
    (a b : Websocket) (more : list byte) :
  Z.of_nat (length (payload msg)) <= maxSize a ->
  Z.of_nat (length (payload msg)) <= maxSize b ->
  Z.of_nat (length (payload msg)) < 2 ^ 64 ->
  (sendMask a = true -> 0 <= rand (randCalls a) < 2 ^ 32) ->
  receiveMask b = sendMask a ->
  exists wire,
    writeDataFrame rand msg a = WRet tt (sent wire a)
    /\ readNextFrame rand' BUILD_NOTHING (set_inbound (wire ++ more) b)
       = WRet (single_kind msg, Some (payload msg)) (set_inbound more b).
Proof.
  intros Hla Hlb H64 Hrand Hmask.
  assert (Hvalid : valid_frame (match msg with Str _ => OP_TEXT | Bytes _ => OP_BINARY end)
                     (payload msg) true = true).
  { unfold valid_frame. apply andb_true_iff. split; [|apply Z.ltb_lt; exact H64].
    destruct msg; reflexivity. }
  destruct (send_then_recv rand _ (payload msg) true a b more Hvalid Hrand Hmask Hlb)
    as (wire & Hs & Hr).
  exists wire. split.
  - unfold writeDataFrame.
    destruct msg as [u|u]; cbn [payload] in *;
      unfold mbind, wm_bind, wget;
      (destruct (Z.ltb_spec (maxSize a) (Z.of_nat (length u))) as [Hlt|_]; [lia|]);
      exact Hs.
  - unfold readNextFrame, mbind, wm_bind. rewrite Hr.
    destruct msg; reflexivity.
Qed.

Lemma websocket_single_frame_round_trip_witness :
  exists wire,
    writeDataFrame (fun _ => 0x37fa213d) (Str hello) (Websocket_init false true [])
    = WRet tt (sent wire (Websocket_init false true []))
    /\ readNextFrame (fun _ => 0) BUILD_NOTHING
         (set_inbound (wire ++ [x81]) (Websocket_init true false []))
       = WRet (RECV_SINGLE_TEXT, Some hello)
              (set_inbound [x81] (Websocket_init true false [])).
Proof.
  apply (websocket_single_frame_round_trip (fun _ => 0x37fa213d) (fun _ => 0)
           (Str hello) (Websocket_init false true []) (Websocket_init true false [])
           [x81]).
  - cbn. lia.
  - cbn. lia.
  - cbn. lia.
  - intros _. cbn. lia.
  - reflexivity.
Defined.

Lemma close_frame_valid (data : list byte) :
  Z.of_nat (length data) <= 125 -> valid_frame OP_CLOSE data true = true.
Proof.
  intros H. unfold valid_frame. apply andb_true_iff. split; [|apply Z.ltb_lt; lia].
  change (OP_CLOSE =? OP_CONT) with false. change (OP_CLOSE =? OP_TEXT) with false.
  change (OP_CLOSE =? OP_BINARY) with false. change (OP_CLOSE =? OP_CLOSE) with true.
  cbn [orb andb]. rewrite andb_true_r. apply Z.leb_le. exact H.
Qed.

(** X28.  The closing handshake of two engines.  One side, no longer
    OPEN, sends a close frame with a valid code and reason.  The peer,
    still OPEN, answers with a close frame of the same payload,
    records (CLOSE_BY_REMOTE, None, (code, reason)), and goes to
    CLOSED with its socket closed.  The first side reads that answer,
    keeps who began the closing, records (code, reason) as the
    remote's data, goes to CLOSED, and sends nothing more. *)
Theorem websocket_close_handshake (randa randb : nat -> Z) (a b : Websocket)
    (code : Z) (reason morea moreb : list byte) (buildinga buildingb : Z) :
  let data := be_bytes 2 code ++ reason in
  code ∈ CLOSE_CODES \/ 3000 <= code < 5000 ->
  utf8_valid reason = true ->
  Z.of_nat (length data) <= 125 ->
  125 <= maxSize a -> 125 <= maxSize b ->
  receiveMask b = sendMask a -> receiveMask a = sendMask b ->
  (sendMask a = true -> 0 <= randa (randCalls a) < 2 ^ 32) ->
  (sendMask b = true -> 0 <= randb (randCalls b) < 2 ^ 32) ->
  state b = STATE_OPEN -> state a <> STATE_OPEN ->
  exists w1 w2 b1 a2,
    writeCloseFrame randa data a = WRet tt (sent w1 a)
    /\ readNextFrame randb buildingb (set_inbound (w1 ++ moreb) b)
       = WRet (RECV_CLOSE, None) b1
    /\ outbound b1 = outbound b ++ [w2]
    /\ closingData b1 = (CLOSE_BY_REMOTE, None, Some (code, reason))
    /\ state b1 = STATE_CLOSED /\ socketClosed b1 = true
    /\ readNextFrame randa buildinga (set_inbound (w2 ++ morea) (sent w1 a))
       = WRet (RECV_CLOSE, None) a2
    /\ outbound a2 = outbound a ++ [w1]
    /\ closingData a2 = ((closingData a).1.1, Some (code, reason), (closingData a).2)
    /\ state a2 = STATE_CLOSED /\ socketClosed a2 = true.
Proof.
  cbv zeta. intros Hv Hu Hlen Hma Hmb Hrb Hra Hrnda Hrndb Hsb Hsa.
  set (data := be_bytes 2 code ++ reason) in *.
  pose proof (close_frame_valid data Hlen) as Hvalid.
  pose proof (parseCloseData_encoded code reason Hv Hu) as Hparse. fold data in Hparse.
  destruct (send_then_recv randa OP_CLOSE data true a b moreb Hvalid Hrnda Hrb
              ltac:(lia)) as (w1 & Hs1 & Hr1).
  destruct (send_then_recv randb OP_CLOSE data true (set_inbound moreb b) (sent w1 a)
              morea Hvalid) as (w2 & Hs2 & Hr2).
  { destruct b. exact Hrndb. }
  { destruct a as [cd pg rm sm mx stt ib ob sc rc], b. cbn in Hra |- *.
    destruct sm; exact Hra. }
  { destruct a as [cd pg rm sm mx stt ib ob sc rc]. cbn [maxSize] in Hma.
    destruct sm; exact (Z.le_trans _ _ _ Hlen Hma). }
  exists w1, w2. eexists. eexists.
  split; [exact Hs1|].
  split.
  { unfold readNextFrame, mbind, wm_bind. rewrite Hr1.
    change (OP_CLOSE =? OP_PING) with false. change (OP_CLOSE =? OP_PONG) with false.
    change (OP_CLOSE =? OP_CLOSE) with true. cbv iota.
    rewrite Hparse. unfold wget.
    replace (state (set_inbound moreb b) =? STATE_OPEN) with true
      by (destruct b; cbn in Hsb |- *; rewrite Hsb; reflexivity).
    unfold writeCloseFrame. rewrite Hs2. unfold wmodify, mret, wm_ret. reflexivity. }
  split; [destruct b as [cd pg rm sm mx stt ib ob sc rc]; destruct sm; reflexivity|].
  split; [reflexivity|]. split; [reflexivity|]. split; [reflexivity|].
  split.
  { unfold readNextFrame, mbind, wm_bind. rewrite Hr2.
    change (OP_CLOSE =? OP_PING) with false. change (OP_CLOSE =? OP_PONG) with false.
    change (OP_CLOSE =? OP_CLOSE) with true. cbv iota.
    rewrite Hparse. unfold wget.
    replace (state (set_inbound morea (sent w1 a)) =? STATE_OPEN) with false.
    2:{ symmetry. apply Z.eqb_neq.
        destruct a as [cd pg rm sm mx stt ib ob sc rc]. cbn in Hsa |- *.
        destruct sm; exact Hsa. }
    unfold wmodify, mret, wm_ret. reflexivity. }
  destruct a as [cd pg rm sm mx stt ib ob sc rc].
  destruct sm; repeat split; reflexivity.
Qed.

Lemma websocket_close_handshake_witness :
  exists w1 w2 b1 a2,
    writeCloseFrame (fun _ => 7) (be_bytes 2 1000 ++ [])
      (set_state STATE_CLOSING (Websocket_init false true []))
    = WRet tt (sent w1 (set_state STATE_CLOSING (Websocket_init false true [])))
    /\ readNextFrame (fun _ => 0) BUILD_NOTHING
         (set_inbound (w1 ++ []) (Websocket_init true false []))
       = WRet (RECV_CLOSE, None) b1
    /\ outbound b1 = [] ++ [w2]
    /\ closingData b1 = (CLOSE_BY_REMOTE, None, Some (1000, []))
    /\ state a2 = STATE_CLOSED.
Proof.
  destruct (websocket_close_handshake (fun _ => 7) (fun _ => 0)
              (set_state STATE_CLOSING (Websocket_init false true []))
              (Websocket_init true false []) 1000 [] [] [] BUILD_NOTHING BUILD_NOTHING)
    as (w1 & w2 & b1 & a2 & H1 & H2 & H3 & H4 & _ & _ & _ & _ & _ & H5 & _).
  - left. unfold CLOSE_CODES. apply elem_of_cons. left. reflexivity.
  - reflexivity.
  - cbn. lia.
  - cbn. lia.
  - cbn. lia.
  - reflexivity.
  - reflexivity.
  - intros _. cbn. lia.
  - intros H. discriminate H.
  - reflexivity.
  - discriminate.
  - exists w1, w2, b1, a2. split; [exact H1|]. split; [exact H2|].
    split; [exact H3|]. split; [exact H4|exact H5].
Defined.

End WebsocketPairFacts.

(** ** websockets/framing.py: what readFragment lets through *)
Section ReadFragmentFacts.
Import Framing FrameVocab.

(** X29.  readFragment and maxSize.  A frame whose header announces
    more than maxSize bytes is refused with PayloadTooBig as soon as
    the header, with its extended length, has been read: neither the
    mask key nor a single payload byte has to arrive, and what follows
    the header stays on the stream. *)
Theorem readFragment_oversize_at_header (mask final : bool) (opcode L m : Z)
    (more : list byte) :
  In opcode [0; 1; 2; 8; 9; 10] -> 0 <= L < 2 ^ 64 -> m < L ->
  exists hdr,
    frame_header mask opcode L final = Some hdr
    /\ readFragment mask (Some m) (hdr ++ more) = PRaise PayloadTooBig more.
Proof.
  intros Hop HL Hm.
  destruct (frame_header_spec final mask opcode L Hop HL)
    as (hd & ext & l7 & Hhdr & Hhd & Hfin & Hres & Hopc & Hmask & Hlen & Hext).
  exists (hd ++ ext). split; [exact Hhdr|].
  rewrite <- app_assoc.
  unfold readFragment, mbind, reader_bind, rbind.
  rewrite (recv_exact hd) by (rewrite Hhd; reflexivity).
  rewrite Hres, Hmask, eqb_reflx. cbn [negb rret].
  rewrite Hlen.
  assert (Hex : exceeds L (Some m) = true) by (cbn [exceeds]; apply Z.ltb_lt; exact Hm).
  destruct (l7 =? 126) eqn:E126; [| destruct (l7 =? 127) eqn:E127];
    [ destruct Hext as [He Hu];
      rewrite (recv_exact ext) by (rewrite He; reflexivity);
      cbn [rret]; rewrite Hu
    | destruct Hext as [He Hu];
      rewrite (recv_exact ext) by (rewrite He; reflexivity);
      cbn [rret]; rewrite Hu
    | destruct Hext as [-> Hl7]; rewrite Hl7; cbn [rret app] ].
  all: rewrite Hex; reflexivity.
Qed.

Lemma readFragment_oversize_at_header_witness :
  exists hdr,
    frame_header true OP_BINARY 70000 true = Some hdr
    /\ readFragment true (Some 4096) (hdr ++ []) = PRaise PayloadTooBig [].
Proof.
  apply (readFragment_oversize_at_header true true OP_BINARY 70000 4096 []).
  - cbn. auto.
  - lia.
  - lia.
Defined.

Lemma recv_inv (n : Z) (s a s' : list byte) :
  recv n s = POk a s' ->
  s = a ++ s' /\ length a = Z.to_nat n.
Proof.
  unfold recv. destruct (Z.ltb_spec (Z.of_nat (length s)) n) as [|Hge]; [discriminate|].
  intros H. injection H as <- <-. split; [symmetry; apply take_drop|].
  apply length_take_le. lia.
Qed.

Lemma unpack_be_nonneg (l : list byte) : 0 <= unpack_be l.
Proof.
  unfold unpack_be.
  assert (H : forall acc, 0 <= acc -> 0 <= fold_left (fun acc b => acc * 256 + byte_to_Z b) l acc).
  { induction l as [|b l IH]; intros acc Ha; cbn [fold_left]; [exact Ha|].
    apply IH. pose proof (byte_to_Z_range b). lia. }
  apply H. lia.
Qed.

Lemma applyMask_from_length (key : list byte) :
  forall data i out, applyMask_from i key data = Some out -> length out = length data.
Proof.
  induction data as [|b data IH]; intros i out; cbn [applyMask_from].
  - intros [= <-]. reflexivity.
  - destruct (key !! Z.to_nat (Z.land i 3)); [|discriminate].
    destruct (applyMask_from (i + 1) key data) as [o|] eqn:E; [|discriminate].
    intros [= <-]. cbn [length]. rewrite (IH _ _ E). reflexivity.
Qed.

(** X30.  What readFragment returns.  Whatever bytes arrive, a frame
    that readFragment hands on has one of the six defined opcodes, a
    payload within maxSize, and, when it is a control frame, at most
    125 bytes and the final bit; and the bytes left are a suffix of
    the stream. *)
Theorem readFragment_sound (mask : bool) (maxSize : option Z) (s rest : list byte)
    (opcode : Z) (data : list byte) (final : bool) :
  readFragment mask maxSize s = POk (opcode, data, final) rest ->
  In opcode [0; 1; 2; 8; 9; 10]
  /\ (8 <= opcode -> Z.of_nat (length data) <= 125 /\ final = true)
  /\ exceeds (Z.of_nat (length data)) maxSize = false
  /\ exists pre, s = pre ++ rest.
Proof.
  unfold readFragment, mbind, reader_bind, rbind.
  destruct (recv 2 s) as [hd s1|e1 s1|] eqn:H1; [|discriminate|discriminate].
  destruct (truthy (Z.land (unpack_be hd) WSHEAD_RES_BITS)); cbn [rraise rret];
    [discriminate|].
  destruct (negb (eqb (truthy (Z.land (unpack_be hd) WSHEAD_MASK_BIT)) mask));
    cbn [rraise rret]; [discriminate|].
  set (l7 := Z.land (unpack_be hd) WSHEAD_LEN_BITS).
  assert (Hl7 : 0 <= l7).
  { unfold l7. apply Z.land_nonneg. right. unfold WSHEAD_LEN_BITS. lia. }
  set (op := Z.shiftr (Z.land (unpack_be hd) WSHEAD_OP_BITS) 8).
  set (fin := truthy (Z.land (unpack_be hd) WSHEAD_FIN_BIT)).
  assert (Hlen : forall (len : Z) (s2 : list byte),
             0 <= len -> (exists p, s = p ++ s2) ->
             match
               (if exceeds len maxSize then rraise PayloadTooBig else rret tt) s2
             with
             | POk _ s' =>
                 match (if mask then recv 4 else rret []) s' with
                 | POk maskBits s'0 =>
                     match recv len s'0 with
                     | POk data0 s'1 =>
                         match
                           (if mask
                            then match applyMask maskBits data0 with
                                 | Some d => rret d
                                 | None => rraise IndexError
                                 end
                            else rret data0) s'1
                         with
                         | POk data1 s'2 =>
                             (if (op =? OP_CLOSE) || (op =? OP_PING) || (op =? OP_PONG)
                              then
                                if 125 <? Z.of_nat (length data1)
                                then rraise (WebSocketProtocolError "Control frame too long")
                                else if negb fin
                                     then rraise (WebSocketProtocolError
                                                    "Fragmented control frame")
                                     else rret (op, data1, fin)
                              else if (op =? OP_CONT) || (op =? OP_TEXT) || (op =? OP_BINARY)
                                   then rret (op, data1, fin)
                                   else rraise (WebSocketProtocolError "Invalid opcode"))
                               s'2
                         | PRaise e s'2 => PRaise e s'2
                         | PWait => PWait
                         end
                     | PRaise e s'1 => PRaise e s'1
                     | PWait => PWait
                     end
                 | PRaise e s'0 => PRaise e s'0
                 | PWait => PWait
                 end
             | PRaise e s' => PRaise e s'
             | PWait => PWait
             end = POk (opcode, data, final) rest ->
             In opcode [0; 1; 2; 8; 9; 10]
             /\ (8 <= opcode -> Z.of_nat (length data) <= 125 /\ final = true)
             /\ exceeds (Z.of_nat (length data)) maxSize = false
             /\ exists pre, s = pre ++ rest).
  { intros len s2 Hnn [p Hp].
    destruct (exceeds len maxSize) eqn:Hex; cbn [rraise rret]; [discriminate|].
    assert (Hpay : forall s3 payload s4 d,
               (exists p3, s = p3 ++ s3) ->
               recv len s3 = POk payload s4 ->
               length d = length payload ->
               (if (op =? OP_CLOSE) || (op =? OP_PING) || (op =? OP_PONG)
                then
                  if 125 <? Z.of_nat (length d)
                  then rraise (WebSocketProtocolError "Control frame too long")
                  else if negb fin
                       then rraise (WebSocketProtocolError "Fragmented control frame")
                       else rret (op, d, fin)
                else if (op =? OP_CONT) || (op =? OP_TEXT) || (op =? OP_BINARY)
                     then rret (op, d, fin)
                     else rraise (WebSocketProtocolError "Invalid opcode")) s4
               = POk (opcode, data, final) rest ->
               In opcode [0; 1; 2; 8; 9; 10]
               /\ (8 <= opcode -> Z.of_nat (length data) <= 125 /\ final = true)
               /\ exceeds (Z.of_nat (length data)) maxSize = false
               /\ exists pre, s = pre ++ rest).
    { intros s3 payload s4 d [p3 Hp3] Hrecv Hd Hres.
      destruct (recv_inv _ _ _ _ Hrecv) as [Hs3 Hpl].
      assert (Hdl : Z.of_nat (length d) = len) by (rewrite Hd, Hpl; lia).
      unfold OP_CONT, OP_TEXT, OP_BINARY, OP_CLOSE, OP_PING, OP_PONG in Hres.
      destruct ((op =? 8) || (op =? 9) || (op =? 10)) eqn:Hctl.
      - destruct (Z.ltb_spec 125 (Z.of_nat (length d))) as [|Hle];
          cbn [rraise rret] in Hres; [discriminate|].
        destruct fin eqn:Hfin; cbn [negb rraise rret] in Hres; [|discriminate].
        injection Hres as <- <- <- <-.
        split.
        { destruct (Z.eqb_spec op 8) as [->|]; [cbn; auto|].
          destruct (Z.eqb_spec op 9) as [->|]; [cbn; auto 10|].
          destruct (Z.eqb_spec op 10) as [->|]; [cbn; auto 10|]. discriminate. }
        split; [intros _; split; [exact Hle|reflexivity]|].
        split; [rewrite Hdl; exact Hex|].
        exists (p3 ++ payload). rewrite <- app_assoc, <- Hs3. exact Hp3.
      - destruct ((op =? 0) || (op =? 1) || (op =? 2)) eqn:Hdat;
          cbn [rraise rret] in Hres; [|discriminate].
        injection Hres as <- <- <- <-.
        split.
        { destruct (Z.eqb_spec op 0) as [->|]; [cbn; auto|].
          destruct (Z.eqb_spec op 1) as [->|]; [cbn; auto 10|].
          destruct (Z.eqb_spec op 2) as [->|]; [cbn; auto 10|]. discriminate. }
        split.
        { intros H8.
          destruct (Z.eqb_spec op 0); [lia|]. destruct (Z.eqb_spec op 1); [lia|].
          destruct (Z.eqb_spec op 2); [lia|]. discriminate. }
        split; [rewrite Hdl; exact Hex|].
        exists (p3 ++ payload). rewrite <- app_assoc, <- Hs3. exact Hp3. }
    destruct mask.
    - destruct (recv 4 s2) as [key s3|e3 s3|] eqn:H3; [|discriminate|discriminate].
      destruct (recv len s3) as [payload s4|e4 s4|] eqn:H4; [|discriminate|discriminate].
      destruct (applyMask key payload) as [d|] eqn:Hm; cbn [rraise rret]; [|discriminate].
      intros Hres. apply (Hpay s3 payload s4 d); auto.
      + destruct (recv_inv _ _ _ _ H3) as [Hs2 _].
        exists (p ++ key). rewrite <- app_assoc, <- Hs2. exact Hp.
      + apply (applyMask_from_length key payload 0 d). exact Hm.
    - cbn [rret].
      destruct (recv len s2) as [payload s4|e4 s4|] eqn:H4; [|discriminate|discriminate].
      cbn [rret]. intros Hres. apply (Hpay s2 payload s4 payload); auto.
      exists p. exact Hp. }
  destruct (recv_inv _ _ _ _ H1) as [Hs1 _].
  destruct (l7 =? 126).
  - destruct (recv 2 s1) as [ext s2|e2 s2|] eqn:H2; [|discriminate|discriminate].
    cbn [rret]. apply Hlen; [apply unpack_be_nonneg|].
    destruct (recv_inv _ _ _ _ H2) as [Hs2 _].
    exists (hd ++ ext). rewrite <- app_assoc, <- Hs2. exact Hs1.
  - destruct (l7 =? 127).
    + destruct (recv 8 s1) as [ext s2|e2 s2|] eqn:H2; [|discriminate|discriminate].
      cbn [rret]. apply Hlen; [apply unpack_be_nonneg|].
      destruct (recv_inv _ _ _ _ H2) as [Hs2 _].
      exists (hd ++ ext). rewrite <- app_assoc, <- Hs2. exact Hs1.
    + cbn [rret]. apply Hlen; [exact Hl7|]. exists hd. exact Hs1.
Qed.

Lemma readFragment_sound_witness :
  In OP_TEXT [0; 1; 2; 8; 9; 10]
  /\ exceeds (Z.of_nat (length hello)) (Some 4096) = false.
Proof.
  destruct (readFragment_sound false (Some 4096)
              ([x81; x05] ++ hello ++ [x88]) [x88] OP_TEXT hello true eq_refl)
    as (H1 & _ & H2 & _).
  split; [exact H1|exact H2].
Defined.

End ReadFragmentFacts.
